(** * The copy-nodes editor command

    A shallow embedding of [CopyNodesCommand] (its constructor, [execute] and
    [rollback]) together with a state model of the services the command is
    injected with.  The command is translated from its source; the services
    live in other modules of the application and are modelled from their
    contracts.  The revisions module of the React root follows the
    command. *)

From Stdlib Require Import ZArith.
From stdpp Require Import base option list strings gmap pretty.

(** ** JavaScript values and exceptions *)

Module Js.

(** A value of type [option string] is a JavaScript string that may be
    [undefined].  Used as a property key, [undefined] is coerced to the
    string ["undefined"]. *)
Definition key (k : option string) : string := default "undefined" k.

(** Truthiness of a possibly undefined string: [undefined] and the empty
    string are falsy. *)
Definition truthy (v : option string) : bool :=
  match v with
  | Some s => negb (String.eqb s "")
  | None => false
  end.

(** lodash's [compact] on an array of possibly undefined strings. *)
Definition compact (l : list (option string)) : list string :=
  omap (λ v, if truthy v then v else None) l.

Inductive error := TypeError | SourceNotFound.

(** The outcome of a call that may throw.  An exception aborts the whole
    command; the partially updated state is not tracked. *)
Inductive result (A : Type) :=
| Ok (a : A)
| Throw (e : error).
Arguments Ok {A} a.
Arguments Throw {A} e.

#[global] Instance result_ret : MRet result := λ A a, Ok a.
#[global] Instance result_bind : MBind result := λ A B f m,
  match m with
  | Ok a => f a
  | Throw e => Throw e
  end.

End Js.
Import Js.

(** ** Data model *)

Inductive TDisplayType := horizontal | vertical.

#[global] Instance TDisplayType_eq_dec : EqDecision TDisplayType.
Proof. solve_decision. Defined.

(** The per-display render settings of an item; a folder only uses
    [st_display].  Coordinates are taken in [Z]: the command only ever
    writes the origin. *)
Record Settings := mkSettings {
  st_position : Z * Z;
  st_visible : bool;
  st_output : option string;
  st_display : option TDisplayType
}.

Definition defaultSettings : Settings := mkSettings (0, 0)%Z true None None.

Record NodeData := mkNodeData {
  nd_isFolder : bool;
  nd_name : string;
  nd_sourceId : string;
  nd_parentId : option string;
  nd_settings : Settings
}.

(** A scene: its nodes by id, and the flat, globally ordered sequence of
    node ids, which is the authoritative order. *)
Record Scene := mkScene {
  sc_nodes : gmap string NodeData;
  sc_order : list string
}.

Record SourceData := mkSourceData {
  src_name : string;
  src_doNotDuplicate : bool
}.

(** The wrappers handed to the command: an id with the attributes read from
    the store when the wrapper list was built.  The passes of the command
    only write to the nodes they create. *)
Record TSceneNode := mkNode { id : string; node_data : NodeData }.
Record TSource := mkSource { sourceId : string; source_data : SourceData }.

#[global] Instance Settings_eq_dec : EqDecision Settings.
Proof. solve_decision. Defined.
#[global] Instance NodeData_eq_dec : EqDecision NodeData.
Proof. solve_decision. Defined.
#[global] Instance TSceneNode_eq_dec : EqDecision TSceneNode.
Proof. solve_decision. Defined.

Definition isFolder (n : TSceneNode) : bool := nd_isFolder (node_data n).
Definition name (n : TSceneNode) : string := nd_name (node_data n).
Definition node_sourceId (n : TSceneNode) : string := nd_sourceId (node_data n).
Definition parentId (n : TSceneNode) : option string := nd_parentId (node_data n).
Definition getSettings (n : TSceneNode) : Settings := nd_settings (node_data n).

(** A node map: horizontal node id to vertical node id, both as they were
    passed when the entry was registered. *)
Abbreviation NodeMap := (gmap (option string) (option string)).

(** The requests made to the Source service and to the Scene-Collections
    service, as a test double would record them. *)
Inductive Call :=
| Duplicate (sid : string) (hint : option string)
| CreateNodeMapEntry (sceneId : string) (h v : option string)
| RemoveNodeMap (sceneId : string).

#[global] Instance Call_eq_dec : EqDecision Call.
Proof. solve_decision. Defined.

(** The state of the injected services. *)
Record World := mkWorld {
  scenes : gmap string Scene;
  sources : gmap string SourceData;
  sceneNodeMaps : gmap string NodeMap;
  dualOutputMode : bool;
  activeDisplay : TDisplayType;
  contexts : TDisplayType → option string;
  uuid : nat → string;
  uuid_seed : nat;
  journal : list Call
}.

Definition with_scenes (f : gmap string Scene → gmap string Scene) (w : World) : World :=
  mkWorld (f (scenes w)) (sources w) (sceneNodeMaps w) (dualOutputMode w)
          (activeDisplay w) (contexts w) (uuid w) (uuid_seed w) (journal w).

Definition with_sources (f : gmap string SourceData → gmap string SourceData) (w : World) : World :=
  mkWorld (scenes w) (f (sources w)) (sceneNodeMaps w) (dualOutputMode w)
          (activeDisplay w) (contexts w) (uuid w) (uuid_seed w) (journal w).

Definition with_nodeMaps (f : gmap string NodeMap → gmap string NodeMap) (w : World) : World :=
  mkWorld (scenes w) (sources w) (f (sceneNodeMaps w)) (dualOutputMode w)
          (activeDisplay w) (contexts w) (uuid w) (uuid_seed w) (journal w).

Definition log (c : Call) (w : World) : World :=
  mkWorld (scenes w) (sources w) (sceneNodeMaps w) (dualOutputMode w)
          (activeDisplay w) (contexts w) (uuid w) (uuid_seed w) (journal w ++ [c]).

(** Modelled from the spec: the id given to a created entity; the services'
    code is not part of the sources at hand.  An id hint is honoured;
    without one the next id of the generator is taken. *)
Definition take_id (w : World) (hint : option string) : World * string :=
  match hint with
  | Some i => (w, i)
  | None =>
      (mkWorld (scenes w) (sources w) (sceneNodeMaps w) (dualOutputMode w)
               (activeDisplay w) (contexts w) (uuid w) (S (uuid_seed w)) (journal w),
       uuid w (uuid_seed w))
  end.

(** ** The Scene Graph service *)

Module Scene.

Definition with_node (f : NodeData → NodeData) (i : string) (s : Scene) : Scene :=
  mkScene (alter f i (sc_nodes s)) (sc_order s).

Definition add_node (i : string) (d : NodeData) (s : Scene) : Scene :=
  mkScene (<[i := d]> (sc_nodes s)) (i :: sc_order s).

(** Modelled from the spec: [getNode(id)] of the Scene Graph service, which
    is missing from the sources at hand.  The wrapper of a node is its id;
    nothing is returned when the id is undefined or names no node. *)
Definition getNode (w : World) (sc : string) (i : option string) : option string :=
  i ≫= λ i, scenes w !! sc ≫= λ s, sc_nodes s !! i ≫= λ _, Some i.

(** Modelled from the spec: [getNodesIds()], missing from the sources. *)
Definition getNodesIds (s : Scene) : list string := sc_order s.

(** Modelled from the spec: [createFolder(name, {id?})], missing from the
    sources.  The folder is created as a root, on top of the order. *)
Definition createFolder (w : World) (sc : string) (nm : string) (hint : option string)
  : World * string :=
  let '(w, i) := take_id w hint in
  (with_scenes (alter (add_node i (mkNodeData true nm "" None defaultSettings)) sc) w, i).

(** Modelled from the spec: [addSource(sourceId, {id?})], missing from the
    sources.  An unresolvable source is a missing-entity error. *)
Definition addSource (w : World) (sc : string) (sid : option string) (hint : option string)
  : result (World * string) :=
  match sid with
  | None => Throw SourceNotFound
  | Some sid =>
      match sources w !! sid with
      | None => Throw SourceNotFound
      | Some src =>
          let '(w, i) := take_id w hint in
          Ok (with_scenes
                (alter (add_node i (mkNodeData false (src_name src) sid None defaultSettings)) sc) w,
              i)
      end
  end.

(** Modelled from the spec: [setDisplay(tag)] of a folder. *)
Definition setDisplay (w : World) (sc i : string) (d : TDisplayType) : World :=
  with_scenes (alter (with_node (λ n,
    mkNodeData (nd_isFolder n) (nd_name n) (nd_sourceId n) (nd_parentId n)
      (mkSettings (st_position (nd_settings n)) (st_visible (nd_settings n))
                  (st_output (nd_settings n)) (Some d))) i) sc) w.

(** Modelled from the spec: [setSettings(patch)] of an item, for a patch
    that carries every setting. *)
Definition setSettings (w : World) (sc i : string) (st : Settings) : World :=
  with_scenes (alter (with_node (λ n,
    mkNodeData (nd_isFolder n) (nd_name n) (nd_sourceId n) (nd_parentId n) st) i) sc) w.

(** Modelled from the spec: [setTransform(patch)] of an item, for a patch
    that carries the position. *)
Definition setTransform (w : World) (sc i : string) (pos : Z * Z) : World :=
  with_scenes (alter (with_node (λ n,
    mkNodeData (nd_isFolder n) (nd_name n) (nd_sourceId n) (nd_parentId n)
      (mkSettings pos (st_visible (nd_settings n))
                  (st_output (nd_settings n)) (st_display (nd_settings n)))) i) sc) w.

(** Modelled from the spec: [setParent(id)] of a node. *)
Definition setParent (w : World) (sc i : string) (p : string) : World :=
  with_scenes (alter (with_node (λ n,
    mkNodeData (nd_isFolder n) (nd_name n) (nd_sourceId n) (Some p) (nd_settings n)) i) sc) w.

(** Modelled from the spec: [setNodesOrder(ids)], a single write of the
    scene's order. *)
Definition setNodesOrder (w : World) (sc : string) (ids : list string) : World :=
  with_scenes (alter (λ s, mkScene (sc_nodes s) ids) sc) w.

(** Whether some item of some scene references the source. *)
Definition referenced (w : World) (sid : string) : bool :=
  existsb (λ e, existsb (λ n, negb (nd_isFolder n.2) && String.eqb (nd_sourceId n.2) sid)
                        (map_to_list (sc_nodes e.2)))
          (map_to_list (scenes w)).

(** Modelled from the spec: [remove()] of a node.  The node leaves the
    node set and the order of its scene; the source of an item is
    reclaimed once its last referencing item is removed. *)
Definition remove (w : World) (sc i : string) : World :=
  let d := scenes w !! sc ≫= λ s, sc_nodes s !! i in
  let w := with_scenes (alter (λ s,
             mkScene (delete i (sc_nodes s)) (filter (λ j, j ≠ i) (sc_order s))) sc) w in
  match d with
  | Some d =>
      if negb (nd_isFolder d) && negb (referenced w (nd_sourceId d))
      then with_sources (delete (nd_sourceId d)) w
      else w
  | None => w
  end.

End Scene.

(** ** The Source service *)

Module Sources.

(** Modelled from the spec: [duplicate(existingIdHint?)], missing from the
    sources.  Nothing is returned for a source marked non-duplicable;
    otherwise a copy is registered and its id returned. *)
Definition duplicate (w : World) (s : TSource) (hint : option string) : World * option string :=
  let w := log (Duplicate (sourceId s) hint) w in
  if src_doNotDuplicate (source_data s) then (w, None)
  else
    let '(w, i) := take_id w hint in
    (with_sources (insert i (source_data s)) w, Some i).

End Sources.

(** ** The Dual-Output and Scene-Collections services *)

Module DualOutput.

Definition nodeMap (w : World) (sc : string) : NodeMap :=
  default ∅ (sceneNodeMaps w !! sc).

(** Modelled from the spec: [hasNodeMap(sceneId)], missing from the
    sources: the presence of any entry for the scene. *)
Definition hasNodeMap (w : World) (sc : string) : bool :=
  bool_decide (nodeMap w sc ≠ ∅).

(** Modelled from the spec: [getVerticalNodeId(nodeId, sceneId)], the
    vertical node paired with the node in the scene's node map. *)
Definition getVerticalNodeId (w : World) (n sc : string) : option string :=
  nodeMap w sc !! Some n ≫= λ v, v.

(** Modelled from the spec: [getNodeDisplay(nodeId, sceneId)].  A node is
    vertical when the scene's node map registers it as the vertical
    counterpart of some node, and horizontal otherwise, as every node of
    a scene without a node map is. *)
Definition getNodeDisplay (w : World) (n sc : string) : TDisplayType :=
  if bool_decide (Some n ∈ (map_to_list (nodeMap w sc)).*2) then vertical else horizontal.

End DualOutput.

Module SceneCollections.

(** Modelled from the spec: [createNodeMapEntry(sceneId, horizontalId,
    verticalId)], missing from the sources. *)
Definition createNodeMapEntry (w : World) (sc : string) (h v : option string) : World :=
  log (CreateNodeMapEntry sc h v)
      (with_nodeMaps (insert sc (<[h := v]> (DualOutput.nodeMap w sc))) w).

(** Modelled from the spec: [removeNodeMap(sceneId)], missing from the
    sources. *)
Definition removeNodeMap (w : World) (sc : string) : World :=
  log (RemoveNodeMap sc) (with_nodeMaps (delete sc) w).

End SceneCollections.

(** ** The selection *)

Record Selection := mkSelection {
  sceneId : string;
  sel_ids : list string
}.

Module Selection.

(** Modelled from the spec: [getScene()], the originating scene. *)
Definition getScene (w : World) (sel : Selection) : option Scene :=
  scenes w !! sceneId sel.

(** Modelled from the spec: [getNodes(flag?)], missing from the sources.
    The frozen ids are resolved in the originating scene.  Without a flag,
    or with [true], every selected node is returned; with [false] only the
    nodes that belong to the single active display. *)
Definition getNodes (w : World) (sel : Selection) (flag : option bool) : list TSceneNode :=
  match scenes w !! sceneId sel with
  | None => []
  | Some s =>
      let ns := omap (λ i, mkNode i <$> sc_nodes s !! i) (sel_ids sel) in
      match flag with
      | Some false =>
          filter (λ n, DualOutput.getNodeDisplay w (id n) (sceneId sel) = activeDisplay w) ns
      | _ => ns
      end
  end.

(** Modelled from the spec: [getSources()], missing from the sources: the
    distinct sources referenced by the items of the selection. *)
Definition getSources (w : World) (sel : Selection) : list TSource :=
  omap (λ i, mkSource i <$> sources w !! i)
       (remove_dups (node_sourceId <$> filter (λ n, isFolder n = false) (getNodes w sel None))).

End Selection.

(** ** The command

    The two id tables of the command are plain objects.  Each is taken by
    the map of its own properties: [tbl !! k] stands for [table[k]] and
    [<[k := v]> tbl] for [table[k] = v].  That is what reading and writing
    a plain object comes to under every key but the names of the members
    that it inherits from [Object.prototype]; under those names the
    command is not followed. *)

Module CopyNodesCommand.

Record t := mkCmd {
  selection : Selection;
  destSceneId : string;
  duplicateSources : bool;
  display : option TDisplayType;
  (** Maps original source ids to new source ids; undefined until sources
      are duplicated.  A plain object, taken by its own properties. *)
  sourceIdsMap : option (gmap string string);
  (** Maps original node ids to new node ids.  A plain object, taken by its
      own properties: reading and writing it under a key that names a
      member inherited from [Object.prototype] is not covered. *)
  nodeIdsMap : gmap string string;
  hasNodeMap : bool
}.

Definition set_sourceIdsMap (m : gmap string string) (c : t) : t :=
  mkCmd (selection c) (destSceneId c) (duplicateSources c) (display c)
        (Some m) (nodeIdsMap c) (hasNodeMap c).

Definition set_nodeId (k v : string) (c : t) : t :=
  mkCmd (selection c) (destSceneId c) (duplicateSources c) (display c)
        (sourceIdsMap c) (<[k := v]> (nodeIdsMap c)) (hasNodeMap c).

Definition set_hasNodeMap (b : bool) (c : t) : t :=
  mkCmd (selection c) (destSceneId c) (duplicateSources c) (display c)
        (sourceIdsMap c) (nodeIdsMap c) b.

(** The constructor.  The selection is a frozen list of ids; the
    description string is left out. *)
Definition new (w : World) (sel : Selection) (dest : string)
    (dup : bool) (disp : option TDisplayType) : t :=
  mkCmd sel dest dup disp None ∅ (DualOutput.hasNodeMap w (sceneId sel)).

(** [array.forEach] with a callback that may throw. *)
Fixpoint forEach {A S : Type} (f : S → A → result S) (l : list A) (s : S) : result S :=
  match l with
  | [] => Ok s
  | a :: l => s ← f s a; forEach f l s
  end.

(** The callback of the source duplication loop. *)
Definition duplicate_source (st : World * t) (source : TSource) : World * t :=
  let '(w, c) := st in
  let m := default ∅ (sourceIdsMap c) in
  let '(w, dup) := Sources.duplicate w source (m !! sourceId source) in
  (w, set_sourceIdsMap (<[sourceId source := default (sourceId source) dup]> m) c).

(** [this.sourceIdsMap != null ? this.sourceIdsMap[node.sourceId] : node.sourceId] *)
Definition resolve_source (c : t) (node : TSceneNode) : option string :=
  match sourceIdsMap c with
  | Some m => m !! node_sourceId node
  | None => Some (node_sourceId node)
  end.

(** [this.display ?? getNodeDisplay(node.id, this.selection.sceneId)] *)
Definition resolve_display (w : World) (c : t) (node : TSceneNode) : TDisplayType :=
  default (DualOutput.getNodeDisplay w (id node) (sceneId (selection c))) (display c).

(** The callback of the creation loop when a vanilla scene is migrated. *)
Definition migrate_node (st : World * t * list string) (node : TSceneNode)
  : result (World * t * list string) :=
  let '(w, c, insertedNodes) := st in
  if isFolder node then
    let '(w, folder) :=
      Scene.createFolder w (destSceneId c) (name node) (nodeIdsMap c !! id node) in
    let c := set_nodeId (id node) folder c in
    let d := resolve_display w c node in
    let w := Scene.setDisplay w (destSceneId c) folder d in
    let w :=
      if decide (display c = Some vertical)
      then SceneCollections.createNodeMapEntry w (destSceneId c) (Some (id node)) (Some folder)
      else w in
    let c := set_nodeId (id node) folder c in
    Ok (w, c, insertedNodes ++ [folder])
  else
    let sid := resolve_source c node in
    '(w, item) ← Scene.addSource w (destSceneId c) sid (nodeIdsMap c !! id node);
    let d := resolve_display w c node in
    let context := contexts w d in
    let st := getSettings node in
    let w := Scene.setSettings w (destSceneId c) item
               (mkSettings (st_position st) (st_visible st) context (Some d)) in
    let w :=
      if decide (display c = Some vertical)
      then
        let w := Scene.setTransform w (destSceneId c) item (0, 0)%Z in
        SceneCollections.createNodeMapEntry w (destSceneId c) (Some (id node)) (Some item)
      else w in
    let c := set_nodeId (id node) item c in
    Ok (w, c, insertedNodes ++ [item]).

(** The callback of the creation loop otherwise. *)
Definition copy_node (st : World * t * list string) (node : TSceneNode)
  : result (World * t * list string) :=
  let '(w, c, insertedNodes) := st in
  if isFolder node then
    let '(w, folder) :=
      Scene.createFolder w (destSceneId c) (name node) (nodeIdsMap c !! id node) in
    let d := resolve_display w c node in
    let w := Scene.setDisplay w (destSceneId c) folder d in
    let c := set_nodeId (id node) folder c in
    Ok (w, c, insertedNodes ++ [folder])
  else
    let sid := resolve_source c node in
    '(w, item) ← Scene.addSource w (destSceneId c) sid (nodeIdsMap c !! id node);
    let d := resolve_display w c node in
    let context := contexts w d in
    let st := getSettings node in
    let w := Scene.setSettings w (destSceneId c) item
               (mkSettings (st_position st) (st_visible st) context (Some d)) in
    let c := set_nodeId (id node) item c in
    Ok (w, c, insertedNodes ++ [item]).

(** The callback of the loop that recreates parent/child relationships. *)
Definition relink_node (c : t) (w : World) (node : TSceneNode) : result World :=
  let mappedNode := Scene.getNode w (destSceneId c) (nodeIdsMap c !! id node) in
  let mappedParent :=
    if truthy (nodeIdsMap c !! Js.key (parentId node))
    then Scene.getNode w (destSceneId c) (nodeIdsMap c !! Js.key (parentId node))
    else None in
  match mappedParent with
  | Some parent =>
      match mappedNode with
      | Some mapped => Ok (Scene.setParent w (destSceneId c) mapped parent)
      | None => Throw TypeError
      end
  | None => Ok w
  end.

(** The callback of the order walk for a scene with a node map. *)
Definition reorder_visit (c : t) (w : World) (origNodeId : string) : World * option string :=
  let w :=
    if decide (DualOutput.getNodeDisplay w origNodeId (sceneId (selection c)) = horizontal)
    then
      let origVerticalNodeId :=
        DualOutput.getVerticalNodeId w origNodeId (sceneId (selection c)) in
      let newHorizontalNodeId := nodeIdsMap c !! origNodeId in
      let newVerticalNodeId := nodeIdsMap c !! Js.key origVerticalNodeId in
      SceneCollections.createNodeMapEntry w (destSceneId c)
        newHorizontalNodeId newVerticalNodeId
    else w in
  (w, nodeIdsMap c !! origNodeId).

(** [array.map] with the callback above, threading the services' state. *)
Fixpoint reorder_map (c : t) (w : World) (l : list string) : World * list (option string) :=
  match l with
  | [] => (w, [])
  | o :: l =>
      let '(w, x) := reorder_visit c w o in
      let '(w, xs) := reorder_map c w l in
      (w, x :: xs)
  end.

Definition execute (w : World) (c : t) : result (World * t * list string) :=
  match scenes w !! destSceneId c with
  | None => Throw TypeError
  | Some scene =>
      let initialNodeOrder := Scene.getNodesIds scene in
      let isDualOutputMode := dualOutputMode w in
      (* Duplicate necessary sources if needed *)
      let '(w, c) :=
        if duplicateSources c
        then foldl duplicate_source (w, set_sourceIdsMap ∅ c)
                   (Selection.getSources w (selection c))
        else (w, c) in
      (* Create all nodes first *)
      '(w, c, insertedNodes) ←
        (if isDualOutputMode && negb (hasNodeMap c)
         then
           '(w, c, ins) ← forEach migrate_node
                            (Selection.getNodes w (selection c) None) (w, c, []);
           mret (w, set_hasNodeMap true c, ins)
         else
           forEach copy_node
             (Selection.getNodes w (selection c) (Some isDualOutputMode)) (w, c, []));
      (* Recreate parent/child relationships *)
      w ← forEach (relink_node c) (Selection.getNodes w (selection c) None) w;
      (* Recreate node order *)
      match Selection.getScene w (selection c) with
      | None => Throw TypeError
      | Some origin =>
          if hasNodeMap c then
            let '(w, mapped) := reorder_map c w (Scene.getNodesIds origin) in
            let order := compact mapped in
            mret (Scene.setNodesOrder w (destSceneId c) (order ++ initialNodeOrder),
                  c, insertedNodes)
          else
            let order := compact ((λ o, nodeIdsMap c !! o) <$> Scene.getNodesIds origin) in
            mret (Scene.setNodesOrder w (destSceneId c) (order ++ initialNodeOrder),
                  c, insertedNodes)
      end
  end.

(** The callback of the removal loop of [rollback]. *)
Definition remove_node (c : t) (w : World) (nodeId : string) : World :=
  match Scene.getNode w (destSceneId c) (Some nodeId) with
  | Some node => Scene.remove w (destSceneId c) node
  | None => w
  end.

(** [Object.values] enumerates the table; the state reached by the removal
    loop does not depend on the enumeration order. *)
Definition rollback (w : World) (c : t) : result World :=
  match scenes w !! destSceneId c with
  | None => Throw TypeError
  | Some _ =>
      let w := foldl (remove_node c) w (map_to_list (nodeIdsMap c)).*2 in
      if DualOutput.hasNodeMap w (destSceneId c)
      then Ok (SceneCollections.removeNodeMap w (destSceneId c))
      else Ok w
  end.

End CopyNodesCommand.

Import CopyNodesCommand.

(** * The revisions of the stateful services

    [VuexModule] of the React root keeps one revision number for each
    stateful service and increments it at every mutation of the global
    store, so that a component is rendered again when a service it has read
    from has changed. *)

Module VuexModule.

(** A number as the module stores it: a count of at most 2^53, or
    [NaN]. *)
Inductive number := Num (n : N) | NaN.

#[global] Instance number_eq_dec : EqDecision number.
Proof. solve_decision. Defined.

(** What reading a property of a plain record yields: an own property, a
    member that every object inherits from [Object.prototype], or
    [undefined]. *)
Inductive property := Own (v : number) | Inherited | Undefined.

#[global] Instance property_eq_dec : EqDecision property.
Proof. solve_decision. Defined.

Definition inherited : list string :=
  ["constructor"; "__proto__"; "hasOwnProperty"; "isPrototypeOf";
   "propertyIsEnumerable"; "toLocaleString"; "toString"; "valueOf";
   "__defineGetter__"; "__defineSetter__"; "__lookupGetter__"; "__lookupSetter__"]%string.

Definition read (record : gmap string number) (k : string) : property :=
  match record !! k with
  | Some v => Own v
  | None => if bool_decide (k ∈ inherited) then Inherited else Undefined
  end.

(** Assignment to a property of a plain record.  Assigning to
    [__proto__] creates no own property: its setter ignores a number, and
    the inherited object is the prototype already. *)
Definition write {A} (k : string) (v : A) (record : gmap string A) : gmap string A :=
  if decide (k = "__proto__"%string) then record else <[k := v]> record.

(** [!v] *)
Definition falsy (v : property) : bool :=
  match v with
  | Own (Num n) => (n =? 0)%N
  | Own NaN => true
  | Inherited => false
  | Undefined => true
  end.

(** [n + 1] on a count of at most 2^53: exact below 2^53, where the sum is
    rounded back to 2^53. *)
Definition succ (n : N) : N := if (n <? 2 ^ 53)%N then (n + 1)%N else n.

(** The value that [v++] stores: a function or an object converts to
    [NaN]. *)
Definition incremented (v : property) : number :=
  match v with
  | Own (Num n) => Num (succ n)
  | _ => NaN
  end.

Definition incrementRevision (revisions : gmap string number) (statefulServiceName : string)
  : gmap string number :=
  if falsy (read revisions statefulServiceName)
  then write statefulServiceName (Num 1) revisions
  else write statefulServiceName (incremented (read revisions statefulServiceName)) revisions.

(** The part of the store that [init] uses; [recordingAccessors] is taken
    by its truthiness. *)
Record Store := mkStore {
  recordingAccessors : bool;
  affectedModules : gmap string property
}.

(** The handler that [init] installs as [StatefulService.onStateRead]. *)
Definition onStateRead (revisions : gmap string number) (store : Store) (serviceName : string)
  : Store :=
  if recordingAccessors store
  then mkStore (recordingAccessors store)
               (write serviceName (read revisions serviceName) (affectedModules store))
  else store.

(** The character of the string ["."]. *)
Definition dot : Ascii.ascii := Ascii.Ascii false true true true false true false false.

(** [String.prototype.split] with a separator of one character. *)
Fixpoint split (sep : Ascii.ascii) (s : string) : list string :=
  match s with
  | EmptyString => [EmptyString]
  | String a s' =>
      if Ascii.eqb a sep then EmptyString :: split sep s'
      else match split sep s' with
           | p :: ps => String a p :: ps
           | [] => [String a EmptyString]
           end
  end.

(** [mutation.type.split('.')[0]] *)
Definition serviceName (type : string) : string := Js.key (head (split dot type)).

(** The handler that [init] subscribes to the mutations of the global
    store; a mutation is given by its type. *)
Definition subscriber (revisions : gmap string number) (type : string) : gmap string number :=
  incrementRevision revisions (serviceName type).

(** How many of the mutations belong to the service [k]. *)
Definition mutations_of (k : string) (types : list string) : nat :=
  length (filter (λ ty, serviceName ty = k) types).

Fixpoint has_dot (s : string) : bool :=
  match s with
  | EmptyString => false
  | String a s' => Ascii.eqb a dot || has_dot s'
  end.

End VuexModule.

(** * Definitions used by the proofs *)

(** The two creation callbacks in one: [migrate_node] is [create_node true]
    and [copy_node] is [create_node false]. *)
Definition create_node (mig : bool) (st : World * t * list string) (node : TSceneNode)
  : result (World * t * list string) :=
  let '(w, c, insertedNodes) := st in
  let entry := mig && bool_decide (display c = Some vertical) in
  if isFolder node then
    let '(w, folder) :=
      Scene.createFolder w (destSceneId c) (name node) (nodeIdsMap c !! id node) in
    let d := resolve_display w c node in
    let w := Scene.setDisplay w (destSceneId c) folder d in
    let w :=
      if entry
      then SceneCollections.createNodeMapEntry w (destSceneId c) (Some (id node)) (Some folder)
      else w in
    Ok (w, set_nodeId (id node) folder c, insertedNodes ++ [folder])
  else
    let sid := resolve_source c node in
    '(w, item) ← Scene.addSource w (destSceneId c) sid (nodeIdsMap c !! id node);
    let d := resolve_display w c node in
    let context := contexts w d in
    let st := getSettings node in
    let w := Scene.setSettings w (destSceneId c) item
               (mkSettings (st_position st) (st_visible st) context (Some d)) in
    let w :=
      if entry
      then
        let w := Scene.setTransform w (destSceneId c) item (0, 0)%Z in
        SceneCollections.createNodeMapEntry w (destSceneId c) (Some (id node)) (Some item)
      else w in
    Ok (w, set_nodeId (id node) item c, insertedNodes ++ [item]).

(** What the creation pass guarantees about the node [d] created for the
    selected node [n]. *)
Definition copy_of (mig : bool) (c : t) (n : TSceneNode) (d : NodeData) : Prop :=
  nd_isFolder d = isFolder n ∧ nd_parentId d = None ∧
  (isFolder n = false → resolve_source c n = Some (nd_sourceId d)) ∧
  (isFolder n = false → mig = true → display c = Some vertical →
   st_position (nd_settings d) = (0, 0)%Z).

(** The request and the node maps after the creation callback has handled
    the node [k] with copy [cpy]. *)
Definition entry_calls (mig : bool) (c : t) (k cpy : string) : list Call :=
  if mig && bool_decide (display c = Some vertical)
  then [CreateNodeMapEntry (destSceneId c) (Some k) (Some cpy)] else [].

Definition entry_maps (mig : bool) (c : t) (k cpy : string) (w : World)
  : gmap string NodeMap :=
  if mig && bool_decide (display c = Some vertical)
  then <[destSceneId c := <[Some k := Some cpy]> (DualOutput.nodeMap w (destSceneId c))]>
         (sceneNodeMaps w)
  else sceneNodeMaps w.

(** Parts of the command and of the services' state that a pass leaves
    as they are. *)
Definition same_params (c c' : t) : Prop :=
  selection c' = selection c ∧ destSceneId c' = destSceneId c ∧
  duplicateSources c' = duplicateSources c ∧ display c' = display c ∧
  sourceIdsMap c' = sourceIdsMap c ∧ hasNodeMap c' = hasNodeMap c.

Definition same_env (w w' : World) : Prop :=
  sources w' = sources w ∧ dualOutputMode w' = dualOutputMode w ∧
  activeDisplay w' = activeDisplay w ∧ contexts w' = contexts w ∧ uuid w' = uuid w.

(** The entries of the migration pass for the nodes paired with their
    copies, as requests and as a node map. *)
Definition entries_of (c : t) (l : list (TSceneNode * string)) : list Call :=
  (λ p, CreateNodeMapEntry (destSceneId c) (Some (id p.1)) (Some p.2)) <$> l.

Definition register_all (m : NodeMap) (l : list (TSceneNode * string)) : NodeMap :=
  foldl (λ m p, <[Some (id p.1) := Some p.2]> m) m l.

(** Nodes with the same id are the same node. *)
Definition functional (L : list TSceneNode) : Prop :=
  ∀ n n', n ∈ L → n' ∈ L → id n = id n' → n = n'.

(** [d'] is [d] up to its parent. *)
Definition reparented (d d' : NodeData) : Prop :=
  nd_isFolder d' = nd_isFolder d ∧ nd_name d' = nd_name d ∧
  nd_sourceId d' = nd_sourceId d ∧ nd_settings d' = nd_settings d.

Definition set_parent (p : string) (n : NodeData) : NodeData :=
  mkNodeData (nd_isFolder n) (nd_name n) (nd_sourceId n) (Some p) (nd_settings n).

(** The copy of the parent, as the relinking callback resolves it. *)
Definition mapped_parent (c : t) (s : Scene) (n : TSceneNode) : option string :=
  if truthy (nodeIdsMap c !! Js.key (parentId n))
  then nodeIdsMap c !! Js.key (parentId n) ≫= λ p, sc_nodes s !! p ≫= λ _, Some p
  else None.

(** The scenes hold the same nodes up to their parents. *)
Definition same_domain (s s' : Scene) : Prop :=
  ∀ i, match sc_nodes s !! i with
       | Some d => ∃ d', sc_nodes s' !! i = Some d' ∧ reparented d d'
       | None => sc_nodes s' !! i = None
       end.

(** The parent of the copy of [n] after the relinking pass, [d] being the
    copy before it. *)
Definition new_parent (c : t) (s : Scene) (n : TSceneNode) (d : NodeData) : option string :=
  match mapped_parent c s n with
  | Some p => Some p
  | None => nd_parentId d
  end.

(** The node map obtained by registering the entries of the calls made
    for scene [sc]. *)
Definition replay (sc : string) (m : NodeMap) (calls : list Call) : NodeMap :=
  foldl (λ m ev,
           match ev with
           | CreateNodeMapEntry sc' h v => if decide (sc' = sc) then <[h := v]> m else m
           | _ => m
           end) m calls.

(** The request made by the order walk at node [o]. *)
Definition visit_calls (c : t) (w : World) (o : string) : list Call :=
  if decide (DualOutput.getNodeDisplay w o (sceneId (selection c)) = horizontal)
  then [CreateNodeMapEntry (destSceneId c) (nodeIdsMap c !! o)
          (nodeIdsMap c !! Js.key (DualOutput.getVerticalNodeId w o (sceneId (selection c))))]
  else [].

Definition same_scene_state (w w' : World) : Prop :=
  scenes w' = scenes w ∧ sceneNodeMaps w' = sceneNodeMaps w ∧
  dualOutputMode w' = dualOutputMode w ∧ activeDisplay w' = activeDisplay w ∧
  contexts w' = contexts w ∧ uuid w' = uuid w.

Definition same_tables (c c' : t) : Prop :=
  selection c' = selection c ∧ destSceneId c' = destSceneId c ∧
  duplicateSources c' = duplicateSources c ∧ display c' = display c ∧
  nodeIdsMap c' = nodeIdsMap c ∧ hasNodeMap c' = hasNodeMap c.

(** The condition of the migration branch of [execute]. *)
Definition migrating (w : World) (c : t) : bool :=
  dualOutputMode w && negb (hasNodeMap c).

(** Mapping each id of a walk through the table, dropping the ids that
    are absent from the table. *)
Definition through_table (tbl : gmap string string) (walk : list string) : list string :=
  omap (λ o, tbl !! o) walk.

(** [Object.values] of a table. *)
Definition values (tbl : gmap string string) : list string := (map_to_list tbl).*2.

(** The copies carry pairwise distinct ids, none of which is the id of a
    selected node. *)
Definition fresh_copies (c : t) : Prop :=
  NoDup (values (nodeIdsMap c)) ∧
  Forall (λ i, i ∉ values (nodeIdsMap c)) (sel_ids (selection c)).

(** The nodes that the creation pass of [execute] copies. *)
Definition copied (w : World) (c : t) : list TSceneNode :=
  Selection.getNodes w (selection c)
    (if migrating w c then None else Some (dualOutputMode w)).

(** The requests of the duplication pass and of the creation pass. *)
Definition dup_calls (w : World) (c : t) : list Call :=
  if duplicateSources c
  then (λ s, Duplicate (sourceId s) None) <$> Selection.getSources w (selection c)
  else [].

Definition create_calls (w : World) (c : t) (ins : list string) : list Call :=
  if migrating w c && bool_decide (display c = Some vertical)
  then entries_of c (zip (copied w c) ins)
  else [].

(** How many times a request occurs. *)
Definition calls_of (ev : Call) (calls : list Call) : nat :=
  count_occ Call_eq_dec calls ev.

(** [orig] is horizontal and paired with [v] in the node map [m]. *)
Definition paired (m : NodeMap) (orig v : string) : Prop :=
  m !! Some orig = Some (Some v) ∧ Some orig ∉ (map_to_list m).*2.

(** The entry for the new pair [h'], [v'] is in the destination's node map,
    and was registered after the journal had reached [j0]. *)
Definition registered (c : t) (h' v' : string) (j0 : list Call) (w : World) : Prop :=
  DualOutput.nodeMap w (destSceneId c) !! Some h' = Some (Some v') ∧
  ∃ calls, journal w = j0 ++ calls ∧
           CreateNodeMapEntry (destSceneId c) (Some h') (Some v') ∈ calls.

(** The table holds ids that the generator [gen] hands out for the seeds
    from [lo] up to [hi], and no id under two keys. *)
Definition generated (gen : nat → string) (lo hi : nat) (tbl : gmap string string) : Prop :=
  (∀ k v, tbl !! k = Some v → ∃ j, lo ≤ j < hi ∧ v = gen j) ∧
  (∀ k k' v, tbl !! k = Some v → tbl !! k' = Some v → k = k').

(** What the creation callback writes to the node [d] that it creates for
    the selected node [n]: the display, the name of a folder, and the
    settings of an item. *)
Definition copy_settings (mig : bool) (w : World) (c : t) (n : TSceneNode) (d : NodeData)
  : Prop :=
  let disp := resolve_display w c n in
  st_display (nd_settings d) = Some disp ∧
  (isFolder n = true → nd_name d = name n) ∧
  (isFolder n = false →
   st_output (nd_settings d) = contexts w disp ∧
   st_visible (nd_settings d) = st_visible (getSettings n) ∧
   (mig && bool_decide (display c = Some vertical) = false →
    st_position (nd_settings d) = st_position (getSettings n))).

(** The node that the creation callback creates for the selected node [n],
    before the node is relinked. *)
Definition created_data (mig : bool) (w : World) (c : t) (n : TSceneNode) : option NodeData :=
  let disp := resolve_display w c n in
  if isFolder n
  then Some (mkNodeData true (name n) "" None (mkSettings (0, 0)%Z true None (Some disp)))
  else
    sid ← resolve_source c n;
    src ← sources w !! sid;
    Some (mkNodeData false (src_name src) sid None
            (mkSettings
               (if mig && bool_decide (display c = Some vertical)
                then (0, 0)%Z else st_position (getSettings n))
               (st_visible (getSettings n)) (contexts w disp) (Some disp))).

Definition with_parent (p : option string) (d : NodeData) : NodeData :=
  mkNodeData (nd_isFolder d) (nd_name d) (nd_sourceId d) p (nd_settings d).

(** The node map of a scene that is migrated in place, while its order is
    walked: the values are the copies, each selected node is paired with
    its copy, and the other entries carry no vertical node. *)
Definition migrated (tbl : gmap string string) (ins : list string) (m : NodeMap) : Prop :=
  (∀ k o, m !! k = Some (Some o) → o ∈ ins) ∧
  (∀ cpy, cpy ∈ ins → ∃ k, m !! k = Some (Some cpy)) ∧
  (∀ o cpy, tbl !! o = Some cpy → m !! Some o = Some (Some cpy)) ∧
  (∀ o, tbl !! o = None → o ∉ ins → m !! Some o = None) ∧
  (∀ cpy x, cpy ∈ ins → m !! Some cpy ≠ Some (Some x)) ∧
  (∀ x, m !! None ≠ Some (Some x)).

(** The request of the order walk at node [o] of such a scene. *)
Definition migration_call (c : t) (ins : list string) (o : string) : list Call :=
  if decide (o ∈ ins) then []
  else [CreateNodeMapEntry (destSceneId c) (nodeIdsMap c !! o) None].

(** ** The tables as plain objects

    The node id table and the source id table of the command are plain
    objects, and the embedding takes each by the map of its own properties.
    Reading a plain object under a key that names a member inherited from
    [Object.prototype] yields that member when the object has no own
    property of that name, and an assignment under [__proto__] creates no
    own property.  Under every other key, reading and writing the object is
    reading and writing its own properties, which is what the embedding
    does.  The properties of [execute] below are stated for commands and
    scenes in which no key of a table access names an inherited member. *)

(** A key that names no member inherited from [Object.prototype]. *)
Definition own_key (k : string) : Prop := k ∉ VuexModule.inherited.

#[global] Instance own_key_dec k : Decision (own_key k).
Proof. unfold own_key. apply _. Defined.

(** What [table[k]] yields for a table with the own properties [tbl]: the
    own property, an inherited member, or [undefined]. *)
Inductive table_value := Entry (v : string) | Member | Absent.

Definition table_read (tbl : gmap string string) (k : string) : table_value :=
  match tbl !! k with
  | Some v => Entry v
  | None => if bool_decide (k ∈ VuexModule.inherited) then Member else Absent
  end.

(** The ids of a scene under which the tables are accessed: the ids in its
    order, and the id, the source and the parent of each of its nodes. *)
Definition own_nodes (s : Scene) : Prop :=
  Forall own_key (sc_order s) ∧
  map_Forall (λ i d, own_key i ∧ own_key (nd_sourceId d) ∧ own_key (Js.key (nd_parentId d)))
             (sc_nodes s).

#[global] Instance own_nodes_dec s : Decision (own_nodes s).
Proof. unfold own_nodes. apply _. Defined.

Definition own_origin (w : World) (c : t) : Prop :=
  from_option own_nodes True (scenes w !! sceneId (selection c)).

#[global] Instance own_origin_dec w c : Decision (own_origin w c).
Proof. unfold own_origin. destruct (scenes w !! sceneId (selection c)); simpl; apply _. Defined.

(** No key of a table access of [execute] names an inherited member.  The
    node id table is accessed under the ids of the selected nodes and of
    their parents, under the ids of the originating scene's order and under
    the vertical node ids of its node map; the source id table under the
    sources of the selected items.  When the originating scene is the
    destination, its order and its node map also hold the ids of the copies,
    which are values of the table or come from the id generator. *)
Definition own_keys (w : World) (c : t) : Prop :=
  Forall own_key (sel_ids (selection c)) ∧
  own_origin w c ∧
  map_Forall (λ _ v, own_key (Js.key v)) (DualOutput.nodeMap w (sceneId (selection c))) ∧
  map_Forall (λ _ v, own_key v) (nodeIdsMap c) ∧
  ∀ j, own_key (uuid w j).

(** * Example scenes *)

Definition ex_uuid (n : nat) : string :=
  default "id-9"%string (["id-1"; "id-2"; "id-3"; "id-4"; "id-5"; "id-6"]%string !! n).

Definition ex_contexts (d : TDisplayType) : option string :=
  match d with
  | horizontal => Some "horizontal-context"%string
  | vertical => Some "vertical-context"%string
  end.

Definition ex_item (src : string) (p : option string) (pos : Z * Z) : NodeData :=
  mkNodeData false src src p (mkSettings pos true None None).

Definition ex_folder (nm : string) (p : option string) : NodeData :=
  mkNodeData true nm "" p defaultSettings.

(** A camera, and a microphone marked do-not-duplicate. *)
Definition ex_sources : gmap string SourceData :=
  <["cam"%string := mkSourceData "Camera" false]>
    (<["mic"%string := mkSourceData "Microphone" true]> ∅).

Definition ex_dest : Scene :=
  mkScene (<["z"%string := ex_item "cam" None (1, 1)%Z]> ∅) ["z"%string].

(** The outcome of [execute] and of [rollback], by component. *)
Definition run_world (w : World) (c : t) : World :=
  match execute w c with Ok (w1, _, _) => w1 | Throw _ => w end.

Definition run_cmd (w : World) (c : t) : t :=
  match execute w c with Ok (_, c1, _) => c1 | Throw _ => c end.

Definition run_inserted (w : World) (c : t) : list string :=
  match execute w c with Ok (_, _, ins) => ins | Throw _ => [] end.

Definition undo_world (w : World) (c : t) : World :=
  match rollback w c with Ok w2 => w2 | Throw _ => w end.

(** A folder with an item in it, and an item next to it. *)
Definition plain_scene : Scene :=
  mkScene (<["f"%string := ex_folder "Group" None]>
           (<["a"%string := ex_item "cam" (Some "f"%string) (5, 7)%Z]>
            (<["b"%string := ex_item "mic" None (2, 3)%Z]> ∅)))
          ["f"; "a"; "b"]%string.

(** Pasting the three nodes of scene S into scene D, sources duplicated,
    dual-output mode off. *)
Definition plain_world : World :=
  mkWorld (<["S"%string := plain_scene]> (<["D"%string := ex_dest]> ∅)) ex_sources ∅
          false horizontal ex_contexts ex_uuid 0 [].

Definition plain_cmd : t :=
  new plain_world (mkSelection "S" ["f"; "a"; "b"]%string) "D" true None.

(** Migrating the vanilla scene S in place: vertical copies of its nodes. *)
Definition vanilla_world : World :=
  mkWorld (<["S"%string := plain_scene]> ∅) ex_sources ∅
          true horizontal ex_contexts ex_uuid 0 [].

Definition migrate_cmd : t :=
  new vanilla_world (mkSelection "S" ["f"; "a"; "b"]%string) "S" false (Some vertical).

(** A dual-output scene with the pairs h/v and x/y; h and v are pasted
    into scene D. *)
Definition dual_scene : Scene :=
  mkScene (<["h"%string := ex_item "cam" None (5, 7)%Z]>
           (<["v"%string := ex_item "cam" None (0, 0)%Z]>
            (<["x"%string := ex_item "mic" None (2, 3)%Z]>
             (<["y"%string := ex_item "mic" None (0, 0)%Z]> ∅))))
          ["h"; "v"; "x"; "y"]%string.

Definition dual_map : NodeMap :=
  <[Some "h"%string := Some "v"%string]> (<[Some "x"%string := Some "y"%string]> ∅).

Definition dual_world : World :=
  mkWorld (<["S"%string := dual_scene]> (<["D"%string := ex_dest]> ∅)) ex_sources
          (<["S"%string := dual_map]> ∅)
          true horizontal ex_contexts ex_uuid 0 [].

Definition pair_cmd : t :=
  new dual_world (mkSelection "S" ["h"; "v"]%string) "D" false None.

(** Pasting one item into a scene D that has a node map of its own,
    dual-output mode off. *)
Definition mapped_dest_world : World :=
  mkWorld (<["S"%string := plain_scene]> (<["D"%string := ex_dest]> ∅)) ex_sources
          (<["D"%string := <[Some "z"%string := Some "zv"%string]> ∅]> ∅)
          false horizontal ex_contexts ex_uuid 0 [].

Definition paste_cmd : t :=
  new mapped_dest_world (mkSelection "S" ["a"]%string) "D" false None.

(** The outcomes of the example commands. *)
Definition plain_after : World := run_world plain_world plain_cmd.
Definition plain_cmd_after : t := run_cmd plain_world plain_cmd.
Definition plain_copies : list string := run_inserted plain_world plain_cmd.

Definition plain_undone : World := undo_world plain_after plain_cmd_after.
Definition plain_redone : World := run_world plain_undone plain_cmd_after.
Definition plain_cmd_redone : t := run_cmd plain_undone plain_cmd_after.
Definition plain_recopies : list string := run_inserted plain_undone plain_cmd_after.

Definition vanilla_after : World := run_world vanilla_world migrate_cmd.
Definition migrate_cmd_after : t := run_cmd vanilla_world migrate_cmd.
Definition migrate_copies : list string := run_inserted vanilla_world migrate_cmd.

Definition vanilla_undone : World := undo_world vanilla_after migrate_cmd_after.
Definition vanilla_redone : World := run_world vanilla_undone migrate_cmd_after.
Definition migrate_cmd_redone : t := run_cmd vanilla_undone migrate_cmd_after.
Definition migrate_recopies : list string := run_inserted vanilla_undone migrate_cmd_after.

Definition dual_after : World := run_world dual_world pair_cmd.
Definition pair_cmd_after : t := run_cmd dual_world pair_cmd.
Definition pair_copies : list string := run_inserted dual_world pair_cmd.

Definition mapped_dest_after : World := run_world mapped_dest_world paste_cmd.
Definition paste_cmd_after : t := run_cmd mapped_dest_world paste_cmd.
Definition paste_copies : list string := run_inserted mapped_dest_world paste_cmd.
Definition mapped_dest_undone : World := undo_world mapped_dest_after paste_cmd_after.

(** An id generator that never repeats an id. *)
Definition gen (n : nat) : string := "id-" +:+ pretty n.

(** The scenes S and D with the generator above. *)
Definition fresh_world : World :=
  mkWorld (<["S"%string := plain_scene]> (<["D"%string := ex_dest]> ∅)) ex_sources ∅
          false horizontal ex_contexts gen 0 [].

Definition fresh_cmd : t :=
  new fresh_world (mkSelection "S" ["f"; "a"; "b"]%string) "D" true None.

Definition fresh_after : World := run_world fresh_world fresh_cmd.
Definition fresh_cmd_after : t := run_cmd fresh_world fresh_cmd.
Definition fresh_copies_ids : list string := run_inserted fresh_world fresh_cmd.

(** Pasting the same nodes without duplicating their sources. *)
Definition reuse_cmd : t :=
  new plain_world (mkSelection "S" ["f"; "a"; "b"]%string) "D" false None.

Definition reuse_after : World := run_world plain_world reuse_cmd.
Definition reuse_cmd_after : t := run_cmd plain_world reuse_cmd.
Definition reuse_copies : list string := run_inserted plain_world reuse_cmd.

Definition reuse_undone : World := undo_world reuse_after reuse_cmd_after.
Definition reuse_redone : World := run_world reuse_undone reuse_cmd_after.
Definition reuse_cmd_redone : t := run_cmd reuse_undone reuse_cmd_after.
Definition reuse_recopies : list string := run_inserted reuse_undone reuse_cmd_after.

(** The destination scene after the paste of the first example. *)
Definition plain_dest_after : Scene := default ex_dest (scenes plain_after !! "D"%string).

(** Pasting an empty selection. *)
Definition empty_cmd : t := new plain_world (mkSelection "S" []) "D" false None.

(** A collection without scenes. *)
Definition no_scene_world : World :=
  mkWorld ∅ ex_sources ∅ false horizontal ex_contexts ex_uuid 0 [].

(** Mutations of two services. *)
Definition ex_seen : list string :=
  ["ScenesService.ADD_SCENE"; "SourcesService.ADD_SOURCE"]%string.

Definition ex_later : list string := ["ScenesService.REMOVE_SCENE"]%string.

Definition ex_store : VuexModule.Store := VuexModule.mkStore true ∅.

(** The paste of the pair h/v undone, and dual-output mode switched off
    before the command is executed again. *)
Definition dual_undone : World := undo_world dual_after pair_cmd_after.

Definition dual_off_world : World :=
  mkWorld (scenes dual_undone) (sources dual_undone) (sceneNodeMaps dual_undone) false
          (activeDisplay dual_undone) (contexts dual_undone) (uuid dual_undone)
          (uuid_seed dual_undone) (journal dual_undone).

Definition dual_off_after : World := run_world dual_off_world pair_cmd_after.
Definition pair_cmd_off : t := run_cmd dual_off_world pair_cmd_after.
Definition pair_off_copies : list string := run_inserted dual_off_world pair_cmd_after.
Definition dual_off_undone : World := undo_world dual_off_after pair_cmd_off.

(** The scene S in single-output mode, with a node map in which the item a
    is the vertical partner of the item b; the folder f and the item a in
    it are pasted into scene D. *)
Definition filtered_world : World :=
  mkWorld (<["S"%string := plain_scene]> (<["D"%string := ex_dest]> ∅)) ex_sources
          (<["S"%string := <[Some "b"%string := Some "a"%string]> ∅]> ∅)
          false horizontal ex_contexts ex_uuid 0 [].

Definition filtered_cmd : t :=
  new filtered_world (mkSelection "S" ["f"; "a"]%string) "D" false None.

(** The state that the creation pass of that paste hands to the relinking
    pass. *)
Definition filtered_created : World * t * list string :=
  match forEach copy_node (Selection.getNodes filtered_world (selection filtered_cmd) (Some false))
                (filtered_world, filtered_cmd, []) with
  | Ok st => st
  | Throw _ => (filtered_world, filtered_cmd, [])
  end.

(** * Lemmas *)

Lemma alter_lookup_Some {A} (f : A → A) (m : gmap string A) i x :
  m !! i = Some x → alter f i m = <[i := f x]> m.
Proof.
  intros Hi. apply map_eq. intros j. rewrite lookup_alter, lookup_insert.
  repeat case_decide; simplify_eq; try done. by rewrite Hi.
Qed.

Lemma bind_Ok {A B} (m : result A) (f : A → result B) b :
  m ≫= f = Ok b → ∃ a, m = Ok a ∧ f a = Ok b.
Proof. destruct m as [a|e]; [by exists a|done]. Qed.

Lemma forEach_cons {A S} (f : S → A → result S) a l s r :
  forEach f (a :: l) s = Ok r → ∃ s', f s a = Ok s' ∧ forEach f l s' = Ok r.
Proof. intros H. by apply bind_Ok in H. Qed.

Lemma forEach_ext {A S} (f g : S → A → result S) l s :
  (∀ s a, f s a = g s a) → forEach f l s = forEach g l s.
Proof.
  intros Hfg. revert s. induction l as [|a l IH]; intros s; simpl; [done|].
  rewrite Hfg. destruct (g s a); simpl; [apply IH|done].
Qed.

Lemma filter_all {A} (P : A → Prop) `{!∀ x, Decision (P x)} (l : list A) :
  (∀ x, x ∈ l → P x) → filter P l = l.
Proof.
  induction l as [|a l IH]; intros Hall; [done|].
  rewrite filter_cons_True by (apply Hall; by left).
  f_equal. apply IH. intros x Hx. apply Hall. by right.
Qed.

Lemma filter_none {A} (P : A → Prop) `{!∀ x, Decision (P x)} (l : list A) :
  (∀ x, x ∈ l → ¬ P x) → filter P l = [].
Proof.
  induction l as [|a l IH]; intros Hall; [done|].
  rewrite filter_cons_False by (apply Hall; by left).
  apply IH. intros x Hx. apply Hall. by right.
Qed.

Lemma alter_add_node (m : gmap string Scene) sc s i d :
  m !! sc = Some s →
  alter (Scene.add_node i d) sc m
  = <[sc := mkScene (<[i := d]> (sc_nodes s)) (i :: sc_order s)]> m.
Proof. intros. by rewrite (alter_lookup_Some _ _ _ s). Qed.

Lemma alter_node_insert (m : gmap string Scene) sc f i d N O :
  alter (Scene.with_node f i) sc (<[sc := mkScene (<[i := d]> N) O]> m)
  = <[sc := mkScene (<[i := f d]> N) O]> m.
Proof.
  rewrite (alter_lookup_Some _ _ _ _ (lookup_insert_eq _ _ _)), insert_insert_eq.
  unfold Scene.with_node. simpl. by rewrite alter_insert_eq.
Qed.

Lemma set_nodeId_twice k v c : set_nodeId k v (set_nodeId k v c) = set_nodeId k v c.
Proof. unfold set_nodeId. simpl. by rewrite insert_insert_eq. Qed.

Lemma migrate_node_create st n : migrate_node st n = create_node true st n.
Proof.
  destruct st as [[w c] ins]. unfold migrate_node, create_node.
  destruct (isFolder n).
  - destruct (Scene.createFolder _ _ _ _) as [w1 f]. simpl.
    rewrite set_nodeId_twice. unfold resolve_display. simpl.
    by destruct (decide (display c = Some vertical)); [rewrite bool_decide_true|rewrite bool_decide_false].
  - destruct (Scene.addSource _ _ _ _) as [[w1 i]|]; simpl; [|done].
    by destruct (decide (display c = Some vertical)); [rewrite bool_decide_true|rewrite bool_decide_false].
Qed.

Lemma copy_node_create st n : copy_node st n = create_node false st n.
Proof.
  destruct st as [[w c] ins]. unfold copy_node, create_node.
  destruct (isFolder n).
  - by destruct (Scene.createFolder _ _ _ _) as [w1 f].
  - by destruct (Scene.addSource _ _ _ _) as [[w1 i]|].
Qed.

Lemma create_node_spec mig w c ins n w' c' ins' s :
  create_node mig (w, c, ins) n = Ok (w', c', ins') →
  scenes w !! destSceneId c = Some s →
  ∃ d, copy_of mig c n d ∧
    let cpy := default (uuid w (uuid_seed w)) (nodeIdsMap c !! id n) in
    c' = set_nodeId (id n) cpy c ∧ ins' = ins ++ [cpy] ∧
    scenes w' = <[destSceneId c := mkScene (<[cpy := d]> (sc_nodes s)) (cpy :: sc_order s)]>
                  (scenes w) ∧
    sources w' = sources w ∧
    sceneNodeMaps w' = entry_maps mig c (id n) cpy w ∧
    journal w' = journal w ++ entry_calls mig c (id n) cpy ∧
    dualOutputMode w' = dualOutputMode w ∧ activeDisplay w' = activeDisplay w ∧
    contexts w' = contexts w ∧ uuid w' = uuid w.
Proof.
  intros Hstep Hs. unfold create_node in Hstep.
  unfold entry_maps, entry_calls, DualOutput.nodeMap.
  destruct (isFolder n) eqn:Hf.
  - exists (mkNodeData true (name n) "" None
              (mkSettings (0, 0)%Z true None (Some (resolve_display w c n)))).
    split; [by unfold copy_of; rewrite Hf|].
    unfold Scene.createFolder in Hstep.
    destruct (nodeIdsMap c !! id n) as [h|] eqn:Hh; simpl in Hstep;
      destruct (mig && bool_decide (display c = Some vertical)); simplify_eq/=;
      split_and!; rewrite ?app_nil_r; try done;
      by rewrite (alter_add_node _ _ _ _ _ Hs), alter_node_insert.
  - unfold Scene.addSource in Hstep.
    destruct (resolve_source c n) as [sid|] eqn:Hsid; [|done].
    destruct (sources w !! sid) as [src|] eqn:Hsrc; [|done].
    exists (mkNodeData false (src_name src) sid None
              (mkSettings
                 (if mig && bool_decide (display c = Some vertical)
                  then (0, 0)%Z else st_position (getSettings n))
                 (st_visible (getSettings n))
                 (contexts w (resolve_display w c n)) (Some (resolve_display w c n)))).
    split.
    { split_and!; simpl; try done.
      intros _ -> Hv. by rewrite bool_decide_true. }
    destruct (nodeIdsMap c !! id n) as [h|] eqn:Hh; simpl in Hstep;
      destruct (mig && bool_decide (display c = Some vertical)); simplify_eq/=;
      split_and!; rewrite ?app_nil_r; try done;
      by rewrite (alter_add_node _ _ _ _ _ Hs), !alter_node_insert.
Qed.

Lemma create_pass_spec mig L : ∀ w c ins w' c' ins' s,
  forEach (create_node mig) L (w, c, ins) = Ok (w', c', ins') →
  scenes w !! destSceneId c = Some s →
  ∃ s' cs,
    ins' = ins ++ cs ∧
    same_params c c' ∧ same_env w w' ∧
    (∀ k v, nodeIdsMap c !! k = Some v → nodeIdsMap c' !! k = Some v) ∧
    (∀ k v, nodeIdsMap c' !! k = Some v → nodeIdsMap c !! k = Some v ∨ v ∈ cs) ∧
    Forall2 (λ n cpy, nodeIdsMap c' !! id n = Some cpy) L cs ∧
    scenes w' = <[destSceneId c := s']> (scenes w) ∧
    sc_order s' = rev cs ++ sc_order s ∧
    (∀ i, i ∉ cs → sc_nodes s' !! i = sc_nodes s !! i) ∧
    (∀ i, i ∈ cs → is_Some (sc_nodes s' !! i)) ∧
    (∀ sc, sc ≠ destSceneId c → sceneNodeMaps w' !! sc = sceneNodeMaps w !! sc) ∧
    (if mig && bool_decide (display c = Some vertical)
     then DualOutput.nodeMap w' (destSceneId c)
          = register_all (DualOutput.nodeMap w (destSceneId c)) (zip L cs)
          ∧ journal w' = journal w ++ entries_of c (zip L cs)
     else sceneNodeMaps w' = sceneNodeMaps w ∧ journal w' = journal w).
Proof.
  induction L as [|n L IH]; intros w c ins w' c' ins' s Hrun Hs.
  - simplify_eq/=. exists s, []. rewrite app_nil_r, insert_id by done.
    split_and!; try done; try (intros; by left).
    + intros i Hi. by apply elem_of_nil in Hi.
    + destruct (mig && _); by rewrite ?app_nil_r.
  - apply forEach_cons in Hrun as ([[w2 c2] ins2] & Hstep & Hrun).
    destruct (create_node_spec _ _ _ _ _ _ _ _ _ Hstep Hs)
      as (d & Hd & -> & -> & Hsc & Hsrc & Hnm & Hj & Hdm & Had & Hctx & Huu).
    set (cpy := default (uuid w (uuid_seed w)) (nodeIdsMap c !! id n)) in *.
    assert (Hs2 : scenes w2 !! destSceneId (set_nodeId (id n) cpy c)
                  = Some (mkScene (<[cpy := d]> (sc_nodes s)) (cpy :: sc_order s))).
    { rewrite Hsc. simpl. by rewrite lookup_insert_eq. }
    destruct (IH _ _ _ _ _ _ _ Hrun Hs2)
      as (s' & cs & -> & Hpar & Henv & Hmono & Hnew & Hall & Hsc' & Hord & Hfr & Hin & Hoth & Hmaps).
    simpl in *.
    assert (Hcpy : <[id n := cpy]> (nodeIdsMap c) !! id n = Some cpy)
      by apply lookup_insert_eq.
    assert (Hsub : ∀ k v, nodeIdsMap c !! k = Some v →
                          <[id n := cpy]> (nodeIdsMap c) !! k = Some v).
    { intros k v Hk. destruct (decide (k = id n)) as [->|Hne].
      - rewrite lookup_insert_eq. unfold cpy. by rewrite Hk.
      - by rewrite lookup_insert_ne. }
    exists s', (cpy :: cs). split_and!.
    + by rewrite <- app_assoc.
    + destruct Hpar as (?&?&?&?&?&?). by split_and!.
    + destruct Henv as (?&?&?&?&?). split_and!; congruence.
    + intros k v Hk. by apply Hmono, Hsub.
    + intros k v Hk. destruct (Hnew _ _ Hk) as [Hk'|Hk']; [|right; by apply elem_of_cons; right].
      destruct (decide (k = id n)) as [->|Hne].
      * rewrite lookup_insert_eq in Hk'. simplify_eq. right. by apply elem_of_cons; left.
      * rewrite lookup_insert_ne in Hk' by done. by left.
    + constructor; [by apply Hmono|done].
    + by rewrite Hsc', Hsc, insert_insert_eq.
    + rewrite Hord. simpl. by rewrite <- app_assoc.
    + intros i Hi. apply not_elem_of_cons in Hi as [Hi1 Hi2].
      rewrite (Hfr _ Hi2). simpl. by rewrite lookup_insert_ne.
    + intros i Hi. apply elem_of_cons in Hi as [->|Hi]; [|by apply Hin].
      destruct (decide (cpy ∈ cs)) as [Hc|Hc]; [by apply Hin|].
      rewrite (Hfr _ Hc). simpl. rewrite lookup_insert_eq. by eexists.
    + intros sc Hsc0. rewrite (Hoth _ Hsc0), Hnm. unfold entry_maps.
      destruct (mig && _); [|done]. by rewrite lookup_insert_ne.
    + unfold entry_maps, entry_calls in *.
      destruct (mig && bool_decide (display c = Some vertical)).
      * destruct Hmaps as [Hm1 Hm2]. split.
        -- rewrite Hm1. simpl. f_equal. unfold DualOutput.nodeMap. rewrite Hnm.
           by rewrite lookup_insert_eq.
        -- rewrite Hm2, Hj. simpl. by rewrite <- app_assoc.
      * destruct Hmaps as [Hm1 Hm2]. split; [congruence|]. by rewrite Hm2, Hj, app_nil_r.
Qed.

Lemma Forall2_elem_of_l {A B} (P : A → B → Prop) l k x :
  Forall2 P l k → x ∈ l → ∃ y, y ∈ k ∧ P x y.
Proof.
  induction 1 as [|x' y l k HP _ IH]; intros Hx.
  - by apply elem_of_nil in Hx.
  - apply elem_of_cons in Hx as [->|Hx].
    + exists y. split; [by left|done].
    + destruct (IH Hx) as (y' & ? & ?). exists y'. split; [by right|done].
Qed.

Lemma omap_ext_Forall {A B} (f g : A → option B) l :
  Forall (λ x, f x = g x) l → omap f l = omap g l.
Proof.
  induction 1 as [|x l Hx _ IH]; [done|].
  simpl. rewrite Hx. destruct (g x); [f_equal|]; exact IH.
Qed.

Lemma Forall2_elem_of_r {A B} (P : A → B → Prop) l k y :
  Forall2 P l k → y ∈ k → ∃ x, x ∈ l ∧ P x y.
Proof.
  induction 1 as [|x y' l k HP _ IH]; intros Hy.
  - by apply elem_of_nil in Hy.
  - apply elem_of_cons in Hy as [->|Hy].
    + exists x. split; [by left|done].
    + destruct (IH Hy) as (x' & ? & ?). exists x'. split; [by right|done].
Qed.

Lemma copy_of_params mig c c' n d :
  same_params c c' → copy_of mig c n d → copy_of mig c' n d.
Proof.
  intros (_ & _ & _ & Hd & Hs & _) (H1 & H2 & H3 & H4).
  unfold copy_of, resolve_source in *. rewrite Hs, Hd. done.
Qed.

Lemma same_params_set_nodeId k v c : same_params c (set_nodeId k v c).
Proof. done. Qed.

Lemma same_params_sym c c' : same_params c c' → same_params c' c.
Proof. intros (?&?&?&?&?&?). by split_and!. Qed.

Lemma create_pass_node mig L : ∀ w c ins w' c' ins' s,
  forEach (create_node mig) L (w, c, ins) = Ok (w', c', ins') →
  scenes w !! destSceneId c = Some s →
  functional L →
  ∀ n cpy, n ∈ L →
    nodeIdsMap c' !! id n = Some cpy →
    (∀ k, nodeIdsMap c' !! k = Some cpy → k = id n) →
    ∃ s' d, scenes w' !! destSceneId c = Some s' ∧ sc_nodes s' !! cpy = Some d ∧
            copy_of mig c n d.
Proof.
  induction L as [|n0 L IH]; intros w c ins w' c' ins' s Hrun Hs Hfun n cpy Hn Hcpy Hinj.
  - by apply elem_of_nil in Hn.
  - apply forEach_cons in Hrun as ([[w2 c2] ins2] & Hstep & Hrun).
    destruct (create_node_spec _ _ _ _ _ _ _ _ _ Hstep Hs)
      as (d & Hd & -> & -> & Hsc & _).
    set (cpy0 := default (uuid w (uuid_seed w)) (nodeIdsMap c !! id n0)) in *.
    assert (Hs2 : scenes w2 !! destSceneId (set_nodeId (id n0) cpy0 c)
                  = Some (mkScene (<[cpy0 := d]> (sc_nodes s)) (cpy0 :: sc_order s))).
    { rewrite Hsc. simpl. by rewrite lookup_insert_eq. }
    destruct (decide (id n ∈ id <$> L)) as [Hin|Hnin].
    + apply list_elem_of_fmap in Hin as (n' & Hid & Hn').
      assert (n = n') as <-.
      { apply Hfun; [done|by right|done]. }
      assert (HfunL : functional L).
      { intros a b Ha Hb. apply Hfun; by right. }
      destruct (IH _ _ _ _ _ _ _ Hrun Hs2 HfunL n cpy Hn' Hcpy Hinj)
        as (s' & d' & ? & ? & Hc).
      by exists s', d'.
    + assert (n = n0) as ->.
      { apply elem_of_cons in Hn as [?|Hn]; [done|].
        exfalso. apply Hnin. apply list_elem_of_fmap. by exists n. }
      destruct (create_pass_spec _ _ _ _ _ _ _ _ _ Hrun Hs2)
        as (s' & cs & _ & _ & _ & Hmono & _ & Hall & Hsc' & _ & Hfr & _).
      simpl in *.
      assert (cpy = cpy0) as ->.
      { specialize (Hmono (id n0) cpy0). rewrite lookup_insert_eq in Hmono.
        specialize (Hmono eq_refl). congruence. }
      exists s', d. split_and!; try done.
      * by rewrite Hsc', lookup_insert_eq.
      * rewrite Hfr; [by rewrite lookup_insert_eq|].
        intros Hc. destruct (Forall2_elem_of_r _ _ _ _ Hall Hc) as (n' & Hn' & Hk).
        apply Hinj in Hk. apply Hnin. apply list_elem_of_fmap. by exists n'.
Qed.

(** *** The relinking pass *)

Lemma getNode_dest w sc s i :
  scenes w !! sc = Some s →
  Scene.getNode w sc i = i ≫= λ i, sc_nodes s !! i ≫= λ _, Some i.
Proof. intros Hs. unfold Scene.getNode. destruct i; simpl; [|done]. by rewrite Hs. Qed.

Lemma relink_node_spec c w n w' s :
  relink_node c w n = Ok w' →
  scenes w !! destSceneId c = Some s →
  match mapped_parent c s n with
  | Some p =>
      ∃ m, nodeIdsMap c !! id n = Some m ∧ is_Some (sc_nodes s !! m) ∧
           w' = Scene.setParent w (destSceneId c) m p
  | None => w' = w
  end.
Proof.
  intros Hrun Hs. unfold relink_node in Hrun. unfold mapped_parent.
  rewrite !(getNode_dest _ _ _ _ Hs) in Hrun.
  destruct (truthy _); [|by simplify_eq].
  destruct (nodeIdsMap c !! Js.key (parentId n)) as [p|]; simpl in *; [|by simplify_eq].
  destruct (sc_nodes s !! p); simpl in *; [|by simplify_eq].
  destruct (nodeIdsMap c !! id n) as [m|]; simpl in *; [|done].
  destruct (sc_nodes s !! m) eqn:Hm; simpl in *; [|done].
  simplify_eq. exists m. by rewrite Hm.
Qed.

Lemma same_domain_refl s : same_domain s s.
Proof. intros i. destruct (sc_nodes s !! i) as [d|]; [|done]. by exists d. Qed.

Lemma same_domain_trans s1 s2 s3 :
  same_domain s1 s2 → same_domain s2 s3 → same_domain s1 s3.
Proof.
  intros H12 H23 i. specialize (H12 i). specialize (H23 i).
  destruct (sc_nodes s1 !! i) as [d|].
  - destruct H12 as (d2 & Hd2 & H12). rewrite Hd2 in H23.
    destruct H23 as (d3 & Hd3 & H23). exists d3. split; [done|].
    destruct H12 as (?&?&?&?), H23 as (?&?&?&?). split_and!; congruence.
  - by rewrite H12 in H23.
Qed.

Lemma same_domain_alter p m s :
  same_domain s (mkScene (alter (set_parent p) m (sc_nodes s)) (sc_order s)).
Proof.
  intros i. simpl. rewrite lookup_alter.
  destruct (decide (m = i)) as [->|]; destruct (sc_nodes s !! i) as [d|]; simpl; try done;
    by eexists.
Qed.

Lemma mapped_parent_domain c s s' n :
  same_domain s s' → mapped_parent c s' n = mapped_parent c s n.
Proof.
  intros Hdom. unfold mapped_parent. destruct (truthy _); [|done].
  destruct (nodeIdsMap c !! Js.key (parentId n)) as [p|]; simpl; [|done].
  specialize (Hdom p). destruct (sc_nodes s !! p).
  - by destruct Hdom as (d' & -> & _).
  - by rewrite Hdom.
Qed.

Lemma relink_pass_spec c L : ∀ w w' s,
  forEach (relink_node c) L w = Ok w' →
  scenes w !! destSceneId c = Some s →
  ∃ s', scenes w' = <[destSceneId c := s']> (scenes w) ∧
    sc_order s' = sc_order s ∧ same_domain s s' ∧
    (∀ i, (∀ n, n ∈ L → nodeIdsMap c !! id n ≠ Some i) →
          sc_nodes s' !! i = sc_nodes s !! i) ∧
    sceneNodeMaps w' = sceneNodeMaps w ∧ journal w' = journal w ∧ same_env w w'.
Proof.
  induction L as [|n L IH]; intros w w' s Hrun Hs.
  - simplify_eq/=. exists s. rewrite insert_id by done.
    split_and!; try done. apply same_domain_refl.
  - apply forEach_cons in Hrun as (w2 & Hstep & Hrun).
    pose proof (relink_node_spec _ _ _ _ _ Hstep Hs) as Hspec.
    destruct (mapped_parent c s n) as [p|] eqn:Hp.
    + destruct Hspec as (m & Hm & Hex & ->).
      set (s2 := mkScene (alter (set_parent p) m (sc_nodes s)) (sc_order s)).
      assert (Hs2 : scenes (Scene.setParent w (destSceneId c) m p) !! destSceneId c = Some s2).
      { simpl. rewrite lookup_alter, decide_True by done. by rewrite Hs. }
      destruct (IH _ _ _ Hrun Hs2) as (s' & Hsc & Hord & Hdom & Hfr & Hnm & Hj & Henv).
      exists s'. split_and!; try done.
      * rewrite Hsc. simpl. rewrite (alter_lookup_Some _ _ _ _ Hs).
        by rewrite insert_insert_eq.
      * eapply same_domain_trans; [|exact Hdom]. apply same_domain_alter.
      * intros i Hi. rewrite Hfr.
        -- simpl. rewrite lookup_alter_ne; [done|].
           intros ->. by apply (Hi n); [left|].
        -- intros n' Hn'. apply Hi. by right.
    + subst w2. destruct (IH _ _ _ Hrun Hs) as (s' & Hsc & Hord & Hdom & Hfr & Hnm & Hj & Henv).
      exists s'. split_and!; try done.
      intros i Hi. apply Hfr. intros n' Hn'. apply Hi. by right.
Qed.

Lemma reparented_refl d : reparented d d.
Proof. done. Qed.

Lemma reparented_trans d1 d2 d3 : reparented d1 d2 → reparented d2 d3 → reparented d1 d3.
Proof. intros (?&?&?&?) (?&?&?&?). split_and!; congruence. Qed.

Lemma relink_pass_parent_gen c L : ∀ w w' s,
  forEach (relink_node c) L w = Ok w' →
  scenes w !! destSceneId c = Some s →
  ∀ n cpy d,
    nodeIdsMap c !! id n = Some cpy →
    (∀ n', n' ∈ L → nodeIdsMap c !! id n' = Some cpy → n' = n) →
    sc_nodes s !! cpy = Some d →
    ∃ s' d', scenes w' !! destSceneId c = Some s' ∧ sc_nodes s' !! cpy = Some d' ∧
      reparented d d' ∧
      nd_parentId d' = if decide (n ∈ L) then new_parent c s n d else nd_parentId d.
Proof.
  induction L as [|n0 L IH]; intros w w' s Hrun Hs n cpy d Hcpy Hinj Hd.
  - simplify_eq/=. exists s, d. split_and!; try done.
  - apply forEach_cons in Hrun as (w2 & Hstep & Hrun).
    pose proof (relink_node_spec _ _ _ _ _ Hstep Hs) as Hspec.
    assert (HinjL : ∀ n', n' ∈ L → nodeIdsMap c !! id n' = Some cpy → n' = n).
    { intros n' Hn'. apply Hinj. by right. }
    unfold new_parent in *.
    destruct (mapped_parent c s n0) as [p0|] eqn:Hp0.
    + destruct Hspec as (m0 & Hm0 & Hex & ->).
      set (s2 := mkScene (alter (set_parent p0) m0 (sc_nodes s)) (sc_order s)).
      assert (Hs2 : scenes (Scene.setParent w (destSceneId c) m0 p0) !! destSceneId c
                    = Some s2).
      { simpl. rewrite lookup_alter, decide_True by done. by rewrite Hs. }
      assert (Hmp : mapped_parent c s2 n = mapped_parent c s n).
      { apply mapped_parent_domain, same_domain_alter. }
      destruct (decide (m0 = cpy)) as [->|Hne].
      * assert (n0 = n) as -> by (apply Hinj; [by left|done]).
        assert (Hd2 : sc_nodes s2 !! cpy = Some (set_parent p0 d)).
        { simpl. rewrite lookup_alter, decide_True by done. by rewrite Hd. }
        destruct (IH _ _ _ Hrun Hs2 n cpy _ Hcpy HinjL Hd2) as (s' & d' & ? & ? & Hr & Hpar).
        exists s', d'. split_and!; try done.
        rewrite decide_True by by left. rewrite Hpar, Hmp, Hp0.
        by destruct (decide (n ∈ L)).
      * assert (n0 ≠ n) by (intros ->; congruence).
        assert (Hd2 : sc_nodes s2 !! cpy = Some d).
        { simpl. by rewrite lookup_alter_ne. }
        destruct (IH _ _ _ Hrun Hs2 n cpy _ Hcpy HinjL Hd2) as (s' & d' & ? & ? & Hr & Hpar).
        exists s', d'. split_and!; try done.
        rewrite Hpar, Hmp.
        destruct (decide (n ∈ L)) as [Hin|Hin].
        -- rewrite decide_True; [done|by right].
        -- rewrite decide_False; [done|]. intros [?|?]%elem_of_cons; done.
    + subst w2.
      destruct (IH _ _ _ Hrun Hs n cpy _ Hcpy HinjL Hd) as (s' & d' & ? & ? & Hr & Hpar).
      exists s', d'. split_and!; try done.
      rewrite Hpar.
      destruct (decide (n ∈ L)) as [Hin|Hin].
      * rewrite decide_True; [done|by right].
      * destruct (decide (n0 = n)) as [->|Hne].
        -- rewrite decide_True by by left. by rewrite Hp0.
        -- rewrite decide_False; [done|]. intros [?|?]%elem_of_cons; done.
Qed.

(** *** The order walk *)

Lemma nodeMap_createNodeMapEntry w sc h v sc' :
  DualOutput.nodeMap (SceneCollections.createNodeMapEntry w sc h v) sc'
  = if decide (sc = sc') then <[h := v]> (DualOutput.nodeMap w sc)
    else DualOutput.nodeMap w sc'.
Proof.
  unfold DualOutput.nodeMap, SceneCollections.createNodeMapEntry. simpl.
  case_decide as Hsc; [subst; by rewrite lookup_insert_eq|by rewrite lookup_insert_ne].
Qed.

Lemma reorder_visit_spec c w o :
  let w' := (reorder_visit c w o).1 in
  (reorder_visit c w o).2 = nodeIdsMap c !! o ∧
  scenes w' = scenes w ∧ same_env w w' ∧
  journal w' = journal w ++ visit_calls c w o ∧
  (∀ sc, DualOutput.nodeMap w' sc = replay sc (DualOutput.nodeMap w sc) (visit_calls c w o)).
Proof.
  unfold reorder_visit, visit_calls. simpl.
  destruct (decide (DualOutput.getNodeDisplay w o _ = horizontal)); simpl.
  - split_and!; try done. intros sc. rewrite nodeMap_createNodeMapEntry.
    unfold replay. simpl. by destruct (decide (destSceneId c = sc)) as [<-|].
  - by rewrite app_nil_r.
Qed.

Lemma replay_app sc m l1 l2 : replay sc m (l1 ++ l2) = replay sc (replay sc m l1) l2.
Proof. apply foldl_app. Qed.

Lemma same_env_trans w1 w2 w3 : same_env w1 w2 → same_env w2 w3 → same_env w1 w3.
Proof. intros (?&?&?&?&?) (?&?&?&?&?). split_and!; congruence. Qed.

Lemma same_env_refl w : same_env w w.
Proof. done. Qed.

Lemma reorder_map_spec c l : ∀ w w' mapped,
  reorder_map c w l = (w', mapped) →
  mapped = (λ o, nodeIdsMap c !! o) <$> l ∧
  scenes w' = scenes w ∧ same_env w w' ∧
  ∃ calls, journal w' = journal w ++ calls ∧
    (∀ sc, DualOutput.nodeMap w' sc = replay sc (DualOutput.nodeMap w sc) calls) ∧
    Forall (λ ev, ∃ o tw, o ∈ l ∧
              ev = CreateNodeMapEntry (destSceneId c) (nodeIdsMap c !! o)
                     (nodeIdsMap c !! Js.key tw)) calls.
Proof.
  induction l as [|o l IH]; intros w w' mapped Hrun.
  - simpl in Hrun. simplify_eq. split_and!; try done. exists []. by rewrite app_nil_r.
  - destruct (reorder_visit_spec c w o) as (Hx & Hsc & Henv & Hj & Hnm).
    change (reorder_map c w (o :: l))
      with (let '(w2, x) := reorder_visit c w o in
            let '(w3, xs) := reorder_map c w2 l in (w3, x :: xs)) in Hrun.
    cbv zeta in Hx, Hsc, Henv, Hj, Hnm.
    destruct (reorder_visit c w o) as [w2 x]. simpl in Hx, Hsc, Henv, Hj, Hnm.
    destruct (reorder_map c w2 l) as [w3 xs] eqn:Hrest. simplify_eq.
    destruct (IH _ _ _ Hrest) as (-> & Hsc' & Henv' & calls & Hj' & Hnm' & Hall).
    split_and!; [done|congruence|by eapply same_env_trans|].
    exists (visit_calls c w o ++ calls). split_and!.
    + by rewrite Hj', Hj, app_assoc.
    + intros sc. by rewrite Hnm', Hnm, replay_app.
    + apply Forall_app. split.
      * unfold visit_calls. case_decide; constructor; [|constructor].
        eexists o, _. split; [by left|done].
      * eapply Forall_impl; [exact Hall|]. intros ev (o' & tw & Ho' & ->).
        exists o', tw. split; [by right|done].
Qed.

(** *** The source duplication pass *)

Lemma duplicate_pass_spec srcs : ∀ w c w' c' m0,
  foldl duplicate_source (w, c) srcs = (w', c') →
  sourceIdsMap c = Some m0 →
  NoDup (sourceId <$> srcs) →
  same_scene_state w w' ∧ same_tables c c' ∧
  journal w' = journal w ++ ((λ s, Duplicate (sourceId s) (m0 !! sourceId s)) <$> srcs) ∧
  ∃ m', sourceIdsMap c' = Some m' ∧
    (∀ k, k ∉ sourceId <$> srcs → m' !! k = m0 !! k) ∧
    (∀ s, s ∈ srcs → is_Some (m' !! sourceId s)) ∧
    (∀ s, s ∈ srcs → src_doNotDuplicate (source_data s) = true →
          m' !! sourceId s = Some (sourceId s)).
Proof.
  induction srcs as [|s srcs IH]; intros w c w' c' m0 Hrun Hm0 Hnd.
  - simplify_eq/=. rewrite app_nil_r. split_and!; try done.
    exists m0. split_and!; try done; intros s Hs; by apply elem_of_nil in Hs.
  - cbn [foldl] in Hrun. rewrite fmap_cons in Hnd. apply NoDup_cons in Hnd as [Hs Hnd].
    destruct (duplicate_source (w, c) s) as [w2 c2] eqn:Hstep.
    unfold duplicate_source in Hstep. rewrite Hm0 in Hstep. simpl in Hstep.
    destruct (Sources.duplicate w s (m0 !! sourceId s)) as [w2' dup] eqn:Hdup.
    simplify_eq.
    set (m2 := <[sourceId s := default (sourceId s) dup]> m0) in *.
    destruct (IH _ _ _ _ m2 Hrun eq_refl Hnd)
      as (Hst & Htb & Hj & m' & Hm' & Hout & Hin & Hnodup).
    assert (Hw2 : same_scene_state w w2 ∧
                  journal w2 = journal w ++ [Duplicate (sourceId s) (m0 !! sourceId s)] ∧
                  (src_doNotDuplicate (source_data s) = true → dup = None)).
    { unfold Sources.duplicate in Hdup.
      destruct (src_doNotDuplicate (source_data s)); [by simplify_eq|].
      unfold take_id in Hdup. destruct (m0 !! sourceId s); by simplify_eq. }
    destruct Hw2 as (Hst2 & Hj2 & Hdup2).
    split_and!.
    + destruct Hst as (?&?&?&?&?&?), Hst2 as (?&?&?&?&?&?). split_and!; congruence.
    + done.
    + rewrite Hj, Hj2. rewrite fmap_cons, <- app_assoc. simpl. f_equal. f_equal.
      apply list_fmap_ext. intros _ s' Hs'%list_elem_of_lookup_2.
      unfold m2. rewrite lookup_insert_ne; [done|].
      intros Heq. apply Hs. rewrite Heq. by apply list_elem_of_fmap_2.
    + exists m'. split_and!; try done.
      * intros k Hk. rewrite fmap_cons in Hk. apply not_elem_of_cons in Hk as [Hk1 Hk2].
        rewrite (Hout _ Hk2). unfold m2. by rewrite lookup_insert_ne.
      * intros s' [->|Hs']%elem_of_cons; [|by apply Hin].
        rewrite (Hout _ Hs). unfold m2. rewrite lookup_insert_eq. by eexists.
      * intros s' [->|Hs']%elem_of_cons Hflag; [|by apply Hnodup].
        rewrite (Hout _ Hs). unfold m2. rewrite lookup_insert_eq.
        by rewrite (Hdup2 Hflag).
Qed.

(** *** The selection *)

Lemma getNodes_elem w sel flag n :
  n ∈ Selection.getNodes w sel flag →
  ∃ s, scenes w !! sceneId sel = Some s ∧ sc_nodes s !! id n = Some (node_data n) ∧
       id n ∈ sel_ids sel.
Proof.
  unfold Selection.getNodes. destruct (scenes w !! sceneId sel) as [s|]; [|by intros ?%elem_of_nil].
  intros Hn. exists s. split; [done|].
  assert (Hn' : n ∈ omap (λ i, mkNode i <$> sc_nodes s !! i) (sel_ids sel)).
  { destruct flag as [[]|]; try done. by apply list_elem_of_filter in Hn as [_ ?]. }
  apply list_elem_of_omap in Hn' as (i & Hi & Hn').
  destruct (sc_nodes s !! i) as [d|] eqn:Hd; simplify_eq/=. done.
Qed.

Lemma getNodes_functional w sel flag : functional (Selection.getNodes w sel flag).
Proof.
  intros n n' Hn Hn' Hid.
  apply getNodes_elem in Hn as (s & Hs & Hd & _).
  apply getNodes_elem in Hn' as (s' & Hs' & Hd' & _).
  destruct n, n'. simplify_eq/=. congruence.
Qed.

Lemma getNodes_all w sel flag n :
  n ∈ Selection.getNodes w sel flag → n ∈ Selection.getNodes w sel None.
Proof.
  unfold Selection.getNodes. destruct (scenes w !! sceneId sel) as [s|]; [|done].
  destruct flag as [[]|]; try done. by intros [_ ?]%list_elem_of_filter.
Qed.

Lemma getNodes_ext w w' sel flag :
  scenes w' !! sceneId sel = scenes w !! sceneId sel →
  sceneNodeMaps w' !! sceneId sel = sceneNodeMaps w !! sceneId sel →
  activeDisplay w' = activeDisplay w →
  Selection.getNodes w' sel flag = Selection.getNodes w sel flag.
Proof.
  intros Hs Hm Ha. unfold Selection.getNodes, DualOutput.getNodeDisplay, DualOutput.nodeMap.
  by rewrite Hs, Hm, Ha.
Qed.

(** *** The stages of [execute] *)

Lemma execute_stages w c w1 c1 ins :
  execute w c = Ok (w1, c1, ins) →
  ∃ s0 wd cd wc cc wr origin wm mapped,
    scenes w !! destSceneId c = Some s0 ∧
    (wd, cd) = (if duplicateSources c
                then foldl duplicate_source (w, set_sourceIdsMap ∅ c)
                           (Selection.getSources w (selection c))
                else (w, c)) ∧
    forEach (create_node (migrating w cd))
      (Selection.getNodes wd (selection cd)
         (if migrating w cd then None else Some (dualOutputMode w)))
      (wd, cd, []) = Ok (wc, cc, ins) ∧
    c1 = (if migrating w cd then set_hasNodeMap true cc else cc) ∧
    forEach (relink_node c1) (Selection.getNodes wc (selection c1) None) wc = Ok wr ∧
    scenes wr !! sceneId (selection c1) = Some origin ∧
    (wm, mapped) = (if hasNodeMap c1 then reorder_map c1 wr (sc_order origin)
                    else (wr, (λ o, nodeIdsMap c1 !! o) <$> sc_order origin)) ∧
    w1 = Scene.setNodesOrder wm (destSceneId c1) (compact mapped ++ sc_order s0).
Proof.
  unfold execute. intros Hrun.
  destruct (scenes w !! destSceneId c) as [s0|] eqn:Hs0; [|done].
  destruct (if duplicateSources c then _ else _) as [wd cd] eqn:Hd.
  apply bind_Ok in Hrun as ([[wc' c1'] ins'] & Hcreate & Hrun).
  apply bind_Ok in Hrun as (wr & Hrelink & Hrun).
  unfold Selection.getScene in Hrun.
  destruct (scenes wr !! sceneId (selection c1')) as [origin|] eqn:Horigin; [|done].
  destruct (dualOutputMode w && negb (hasNodeMap cd)) eqn:Hmig.
  - apply bind_Ok in Hcreate as ([[wc cc] ins0] & Hcreate & Heq).
    rewrite (forEach_ext _ _ _ _ (λ st n, migrate_node_create st n)) in Hcreate.
    unfold mret, result_ret in Heq. simplify_eq.
    destruct (hasNodeMap (set_hasNodeMap true cc)) eqn:Hh; [|done].
    destruct (reorder_map _ _ _) as [wm mapped] eqn:Hmap.
    unfold mret, result_ret in Hrun. simplify_eq.
    exists s0, wd, cd. eexists _, _, wr, origin, wm, mapped.
    unfold migrating. rewrite Hmig, Hh.
    split_and!; [done|done|exact Hcreate|done..].
  - rewrite (forEach_ext _ _ _ _ (λ st n, copy_node_create st n)) in Hcreate.
    destruct (hasNodeMap c1') eqn:Hh.
    + destruct (reorder_map _ _ _) as [wm mapped] eqn:Hmap.
      unfold mret, result_ret in Hrun. simplify_eq.
      exists s0, wd, cd. eexists _, _, wr, origin, wm, mapped.
      unfold migrating. rewrite Hmig, Hh.
      split_and!; [done|done|exact Hcreate|done..].
    + unfold mret, result_ret in Hrun. simplify_eq.
      exists s0, wd, cd. eexists _, _, wr, origin, wr, _.
      unfold migrating. rewrite Hmig, Hh.
      split_and!; [done|done|exact Hcreate|done..].
Qed.

Lemma getSources_NoDup w sel : NoDup (sourceId <$> Selection.getSources w sel).
Proof.
  unfold Selection.getSources.
  generalize (NoDup_remove_dups
    (node_sourceId <$> filter (λ n, isFolder n = false) (Selection.getNodes w sel None))).
  generalize (remove_dups
    (node_sourceId <$> filter (λ n, isFolder n = false) (Selection.getNodes w sel None))).
  intros l Hl. induction Hl as [|i l Hi Hl IH]; simpl; [constructor|].
  destruct (sources w !! i) as [d|]; simpl; [|done].
  constructor; [|done].
  intros (s & Heq & Hs)%list_elem_of_fmap. apply Hi.
  apply list_elem_of_omap in Hs as (j & Hj & Hs).
  destruct (sources w !! j); simplify_eq/=. done.
Qed.

Lemma duplicate_stage w c wd cd :
  (wd, cd) = (if duplicateSources c
              then foldl duplicate_source (w, set_sourceIdsMap ∅ c)
                         (Selection.getSources w (selection c))
              else (w, c)) →
  same_scene_state w wd ∧ same_tables c cd.
Proof.
  destruct (duplicateSources c); intros Heq; [|by simplify_eq].
  symmetry in Heq.
  destruct (duplicate_pass_spec _ _ _ _ _ ∅ Heq eq_refl (getSources_NoDup _ _))
    as (? & ? & _). done.
Qed.

Lemma compact_lookup (tbl : gmap string string) l :
  (∀ k, tbl !! k ≠ Some ""%string) →
  compact ((λ o, tbl !! o) <$> l) = omap (λ o, tbl !! o) l.
Proof.
  intros Hne. unfold compact. induction l as [|o l IH]; [done|].
  rewrite fmap_cons. cbn [omap list_omap]. fold (@omap list _).
  destruct (tbl !! o) as [v|] eqn:Hv; simpl; [|exact IH].
  destruct (String.eqb_spec v ""); simpl; [subst; by destruct (Hne o)|].
  f_equal. exact IH.
Qed.

Lemma compact_elem (tbl : gmap string string) l i :
  i ∈ compact ((λ o, tbl !! o) <$> l) → ∃ k, k ∈ l ∧ tbl !! k = Some i.
Proof.
  unfold compact. intros (v & Hv & Hi)%list_elem_of_omap.
  apply list_elem_of_fmap in Hv as (k & -> & Hk).
  destruct (truthy _); [|done]. by exists k.
Qed.

(** The destination scene after [execute], relative to the one before. *)
Lemma execute_scene w c w1 c1 ins :
  execute w c = Ok (w1, c1, ins) →
  ∃ s0 s1 walk,
    scenes w !! destSceneId c = Some s0 ∧
    scenes w1 = <[destSceneId c := s1]> (scenes w) ∧
    (sceneId (selection c) ≠ destSceneId c →
     ∃ origin, scenes w !! sceneId (selection c) = Some origin ∧ walk = sc_order origin) ∧
    (sceneId (selection c) = destSceneId c → walk = rev ins ++ sc_order s0) ∧
    sc_order s1 = compact ((λ o, nodeIdsMap c1 !! o) <$> walk) ++ sc_order s0 ∧
    (∀ i, (∀ k, nodeIdsMap c1 !! k ≠ Some i) → sc_nodes s1 !! i = sc_nodes s0 !! i) ∧
    (∀ i, i ∈ ins → is_Some (sc_nodes s1 !! i) ∧ ∃ k, nodeIdsMap c1 !! k = Some i) ∧
    (∀ k v, nodeIdsMap c !! k = Some v → nodeIdsMap c1 !! k = Some v) ∧
    (∀ k v, nodeIdsMap c1 !! k = Some v → nodeIdsMap c !! k = Some v ∨ v ∈ ins) ∧
    selection c1 = selection c ∧ destSceneId c1 = destSceneId c ∧
    duplicateSources c1 = duplicateSources c ∧ display c1 = display c.
Proof.
  intros Hrun.
  destruct (execute_stages _ _ _ _ _ Hrun)
    as (s0 & wd & cd & wc & cc & wr & origin & wm & mapped
        & Hs0 & Hdup & Hcreate & Hc1 & Hrelink & Horigin & Hwalk & ->).
  destruct (duplicate_stage _ _ _ _ Hdup)
    as ((Hdsc & Hdnm & Hdmode & Hdact & Hdctx & Hduu) & (Hsel & Hdest & Hdd & Hdisp & Htbl & Hhas)).
  assert (Hsd : scenes wd !! destSceneId cd = Some s0) by by rewrite Hdsc, Hdest.
  destruct (create_pass_spec _ _ _ _ _ _ _ _ _ Hcreate Hsd)
    as (sc & cs & Hins & (Hsel' & Hdest' & Hdd' & Hdisp' & Hsrc' & Hhas') & _
        & Hmono & Hnew & Hall & Hscc & Hordc & Hfrc & Hinc & _).
  simpl in Hins. subst cs.
  assert (Hp1 : selection c1 = selection c ∧ destSceneId c1 = destSceneId c ∧
                duplicateSources c1 = duplicateSources c ∧ display c1 = display c ∧
                nodeIdsMap c1 = nodeIdsMap cc).
  { subst c1. destruct (migrating w cd); simpl; split_and!; congruence. }
  destruct Hp1 as (Hsel1 & Hdest1 & Hdd1 & Hdisp1 & Htbl1).
  assert (Hsc2 : scenes wc !! destSceneId c1 = Some sc).
  { rewrite Hscc, Hdest1, Hdest. by rewrite lookup_insert_eq. }
  destruct (relink_pass_spec _ _ _ _ _ Hrelink Hsc2)
    as (sr & Hscr & Hordr & Hdomr & Hfrr & _).
  assert (Hwm : scenes wm = scenes wr ∧ mapped = (λ o, nodeIdsMap c1 !! o) <$> sc_order origin).
  { destruct (hasNodeMap c1).
    - symmetry in Hwalk. by destruct (reorder_map_spec _ _ _ _ _ Hwalk) as (? & ? & _).
    - by simplify_eq. }
  destruct Hwm as [Hwm ->].
  assert (Hscenes_r : scenes wr = <[destSceneId c := sr]> (scenes w)).
  { rewrite Hscr, Hscc, Hdest1, Hdest, Hdsc. by rewrite insert_insert_eq. }
  exists s0, (mkScene (sc_nodes sr)
                (compact ((λ o, nodeIdsMap c1 !! o) <$> sc_order origin) ++ sc_order s0)),
    (sc_order origin).
  split_and!; try done.
  - simpl. rewrite Hwm, Hscenes_r, Hdest1.
    rewrite (alter_lookup_Some _ _ _ _ (lookup_insert_eq _ _ _)).
    by rewrite insert_insert_eq.
  - intros Hne. exists origin. split; [|done].
    rewrite Hscenes_r, Hsel1, lookup_insert_ne in Horigin by done. done.
  - intros Heq. rewrite Hscenes_r, Hsel1, Heq, lookup_insert_eq in Horigin.
    simplify_eq. by rewrite Hordr, Hordc.
  - intros i Hi. simpl. rewrite Hfrr.
    + apply Hfrc. intros Hin.
      destruct (Forall2_elem_of_r _ _ _ _ Hall Hin) as (n & _ & Hn).
      apply (Hi (id n)). by rewrite Htbl1.
    + intros n _. apply Hi.
  - intros i Hi. simpl. split.
    + specialize (Hdomr i). destruct (Hinc _ Hi) as [d Hd]. rewrite Hd in Hdomr.
      destruct Hdomr as (d' & -> & _). by eexists.
    + destruct (Forall2_elem_of_r _ _ _ _ Hall Hi) as (n & _ & Hn).
      exists (id n). by rewrite Htbl1.
  - intros k v Hk. rewrite Htbl1. apply Hmono. by rewrite Htbl.
  - intros k v Hk. rewrite Htbl1 in Hk. rewrite <- Htbl. by apply Hnew.
Qed.

(** *** Rollback *)

Lemma remove_node_spec c w i s :
  scenes w !! destSceneId c = Some s →
  scenes (remove_node c w i)
  = <[destSceneId c :=
        mkScene (delete i (sc_nodes s))
                (filter (λ j, ¬ (j = i ∧ is_Some (sc_nodes s !! j))) (sc_order s))]>
      (scenes w) ∧
  sceneNodeMaps (remove_node c w i) = sceneNodeMaps w ∧
  journal (remove_node c w i) = journal w.
Proof.
  intros Hs. unfold remove_node. rewrite (getNode_dest _ _ _ _ Hs). simpl.
  destruct (sc_nodes s !! i) as [d|] eqn:Hd; simpl.
  - unfold Scene.remove. rewrite Hs. simpl. rewrite Hd.
    assert (Hsc : alter (λ s, mkScene (delete i (sc_nodes s))
                                 (filter (λ j, j ≠ i) (sc_order s)))
                    (destSceneId c) (scenes w)
                  = <[destSceneId c :=
                        mkScene (delete i (sc_nodes s))
                          (filter (λ j, ¬ (j = i ∧ is_Some (sc_nodes s !! j))) (sc_order s))]>
                      (scenes w)).
    { rewrite (alter_lookup_Some _ _ _ _ Hs). do 2 f_equal.
      apply list_filter_iff. intros j. split.
      - intros Hne [? _]. done.
      - intros Hn ->. apply Hn. split; [done|]. by rewrite Hd. }
    destruct (negb (nd_isFolder d) && _); simpl; by rewrite Hsc.
  - split_and!; try done. rewrite delete_id by done.
    rewrite <- (insert_id (scenes w) (destSceneId c) s) at 1 by done.
    do 2 f_equal. destruct s as [N O]. simpl in *. f_equal.
    symmetry. apply filter_all. intros j _ [-> [? ?]]. congruence.
Qed.

Lemma remove_pass_spec c l : ∀ w s,
  scenes w !! destSceneId c = Some s →
  ∃ s', scenes (foldl (remove_node c) w l) = <[destSceneId c := s']> (scenes w) ∧
    (∀ i, sc_nodes s' !! i = if decide (i ∈ l) then None else sc_nodes s !! i) ∧
    sc_order s' = filter (λ j, ¬ (j ∈ l ∧ is_Some (sc_nodes s !! j))) (sc_order s) ∧
    sceneNodeMaps (foldl (remove_node c) w l) = sceneNodeMaps w ∧
    journal (foldl (remove_node c) w l) = journal w.
Proof.
  induction l as [|i l IH]; intros w s Hs.
  - exists s. simpl. rewrite insert_id by done. split_and!; try done.
    symmetry. apply filter_all. intros j _ [Hj _]. by apply elem_of_nil in Hj.
  - cbn [foldl].
    destruct (remove_node_spec c w i s Hs) as (Hsc & Hnm & Hj).
    set (s2 := mkScene (delete i (sc_nodes s))
                 (filter (λ j, ¬ (j = i ∧ is_Some (sc_nodes s !! j))) (sc_order s))) in *.
    assert (Hs2 : scenes (remove_node c w i) !! destSceneId c = Some s2).
    { by rewrite Hsc, lookup_insert_eq. }
    destruct (IH _ _ Hs2) as (s' & Hsc' & Hnodes & Hord & Hnm' & Hj').
    exists s'. split_and!; try congruence.
    + by rewrite Hsc', Hsc, insert_insert_eq.
    + intros j. rewrite Hnodes. simpl.
      destruct (decide (j ∈ l)) as [Hin|Hin].
      * rewrite decide_True; [done|by right].
      * destruct (decide (j = i)) as [->|Hne].
        -- rewrite decide_True by by left. by rewrite lookup_delete_eq.
        -- rewrite decide_False by (intros [?|?]%elem_of_cons; done).
           by rewrite lookup_delete_ne.
    + rewrite Hord. simpl. rewrite list_filter_filter. apply list_filter_iff.
      intros j. split.
      * intros [H1 H2] [[->|Hin]%elem_of_cons Hex].
        -- by apply H2.
        -- apply H1. split; [done|]. rewrite lookup_delete_ne; [done|].
           intros ->. by apply H2.
      * intros H. split.
        -- intros [Hin Hex]. apply H. split; [by right|].
           destruct (decide (i = j)) as [->|Hne].
           ++ by rewrite lookup_delete_eq in Hex; destruct Hex.
           ++ by rewrite lookup_delete_ne in Hex.
        -- intros [-> Hex]. apply H. split; [by left|done].
Qed.

Lemma rollback_spec w c s :
  scenes w !! destSceneId c = Some s →
  ∃ w' s', rollback w c = Ok w' ∧
    scenes w' = <[destSceneId c := s']> (scenes w) ∧
    (∀ i, sc_nodes s' !! i
          = if decide (i ∈ (map_to_list (nodeIdsMap c)).*2) then None else sc_nodes s !! i) ∧
    sc_order s' = filter (λ j, ¬ (j ∈ (map_to_list (nodeIdsMap c)).*2
                                  ∧ is_Some (sc_nodes s !! j))) (sc_order s) ∧
    sceneNodeMaps w' = (if DualOutput.hasNodeMap w (destSceneId c)
                        then delete (destSceneId c) (sceneNodeMaps w)
                        else sceneNodeMaps w) ∧
    journal w' = journal w ++ (if DualOutput.hasNodeMap w (destSceneId c)
                               then [RemoveNodeMap (destSceneId c)] else []).
Proof.
  intros Hs. unfold rollback. rewrite Hs.
  destruct (remove_pass_spec c (map_to_list (nodeIdsMap c)).*2 w s Hs)
    as (s' & Hsc & Hnodes & Hord & Hnm & Hj).
  set (wr := foldl (remove_node c) w (map_to_list (nodeIdsMap c)).*2) in *.
  assert (Hh : DualOutput.hasNodeMap wr (destSceneId c)
               = DualOutput.hasNodeMap w (destSceneId c)).
  { unfold DualOutput.hasNodeMap, DualOutput.nodeMap. by rewrite Hnm. }
  rewrite Hh. destruct (DualOutput.hasNodeMap w (destSceneId c)).
  - eexists _, s'. split; [done|]. simpl. rewrite Hnm, Hj. by split_and!.
  - exists wr, s'. rewrite app_nil_r. by split_and!.
Qed.

Lemma elem_of_values (tbl : gmap string string) i :
  i ∈ (map_to_list tbl).*2 ↔ ∃ k, tbl !! k = Some i.
Proof.
  rewrite list_elem_of_fmap. split.
  - intros ([k v] & -> & Hkv). exists k. by apply elem_of_map_to_list.
  - intros (k & Hk). exists (k, i). split; [done|]. by apply elem_of_map_to_list.
Qed.

Lemma execute_params w c w1 c1 ins :
  execute w c = Ok (w1, c1, ins) →
  selection c1 = selection c ∧ destSceneId c1 = destSceneId c ∧
  duplicateSources c1 = duplicateSources c ∧ display c1 = display c.
Proof.
  intros Hrun.
  by destruct (execute_scene _ _ _ _ _ Hrun) as (?&?&?&_&_&_&_&_&_&_&_&_&?&?&?&?).
Qed.

(** *** Copies and their originals *)

Lemma NoDup_fmap_inj {A B} (f : A → B) l x y :
  NoDup (f <$> l) → x ∈ l → y ∈ l → f x = f y → x = y.
Proof.
  induction l as [|a l IH]; intros Hnd Hx Hy Hf; [by apply elem_of_nil in Hx|].
  rewrite fmap_cons in Hnd. apply NoDup_cons in Hnd as [Ha Hnd].
  apply elem_of_cons in Hx as [->|Hx]; apply elem_of_cons in Hy as [->|Hy]; try done.
  - exfalso. apply Ha. rewrite Hf. by apply list_elem_of_fmap_2.
  - exfalso. apply Ha. rewrite <- Hf. by apply list_elem_of_fmap_2.
  - by apply IH.
Qed.

Lemma values_inj (tbl : gmap string string) k k' v :
  NoDup (values tbl) → tbl !! k = Some v → tbl !! k' = Some v → k = k'.
Proof.
  intros Hnd Hk Hk'.
  apply elem_of_map_to_list in Hk, Hk'.
  by pose proof (NoDup_fmap_inj snd _ _ _ Hnd Hk Hk' eq_refl) as [= ->].
Qed.

Lemma execute_copy w c w1 c1 ins n cpy :
  execute w c = Ok (w1, c1, ins) →
  fresh_copies c1 →
  n ∈ copied w c →
  nodeIdsMap c1 !! id n = Some cpy →
  ∃ s1 d, scenes w1 !! destSceneId c = Some s1 ∧ sc_nodes s1 !! cpy = Some d ∧
    cpy ∈ ins ∧
    nd_isFolder d = isFolder n ∧
    (isFolder n = false → resolve_source c1 n = Some (nd_sourceId d)) ∧
    (isFolder n = false → migrating w c = true → display c = Some vertical →
     st_position (nd_settings d) = (0, 0)%Z) ∧
    nd_parentId d = mapped_parent c1 s1 n.
Proof.
  intros Hrun [Hnd Horig] Hn Hcpy.
  destruct (execute_stages _ _ _ _ _ Hrun)
    as (s0 & wd & cd & wc & cc & wr & origin & wm & mapped
        & Hs0 & Hdup & Hcreate & Hc1 & Hrelink & Horigin & Hwalk & ->).
  destruct (duplicate_stage _ _ _ _ Hdup)
    as ((Hdsc & Hdnm & Hdmode & Hdact & Hdctx & Hduu) & (Hsel & Hdest & Hdd & Hdisp & Htbl & Hhas)).
  assert (Hmig : migrating w cd = migrating w c) by (unfold migrating; by rewrite Hhas).
  rewrite Hmig in *.
  assert (Hsd : scenes wd !! destSceneId cd = Some s0) by by rewrite Hdsc, Hdest.
  assert (HL : Selection.getNodes wd (selection cd)
                 (if migrating w c then None else Some (dualOutputMode w)) = copied w c).
  { unfold copied. rewrite Hsel. apply getNodes_ext; by rewrite ?Hdsc, ?Hdnm. }
  rewrite HL in Hcreate.
  destruct (create_pass_spec _ _ _ _ _ _ _ _ _ Hcreate Hsd)
    as (sc & cs & Hins & (Hsel' & Hdest' & Hdd' & Hdisp' & Hsrc' & Hhas') & _
        & Hmono & Hnew & Hall & Hscc & Hordc & Hfrc & Hinc & _).
  simpl in Hins. subst cs.
  assert (Hp1 : selection c1 = selection c ∧ destSceneId c1 = destSceneId c ∧
                display c1 = display c ∧ sourceIdsMap c1 = sourceIdsMap cd ∧
                nodeIdsMap c1 = nodeIdsMap cc).
  { subst c1. destruct (migrating w c); simpl; split_and!; congruence. }
  destruct Hp1 as (Hsel1 & Hdest1 & Hdisp1 & Hsrc1 & Htbl1).
  rewrite Htbl1 in Hcpy.
  destruct (create_pass_node _ _ _ _ _ _ _ _ _ Hcreate Hsd (getNodes_functional _ _ _)
              n cpy Hn Hcpy) as (sc' & d & Hsc' & Hd & Hcopy).
  { intros k Hk. rewrite <- Htbl1 in Hk, Hcpy. by apply (values_inj _ _ _ _ Hnd Hk Hcpy). }
  rewrite Hscc, lookup_insert_eq in Hsc'. injection Hsc' as <-.
  assert (Hsc2 : scenes wc !! destSceneId c1 = Some sc).
  { rewrite Hscc, Hdest1, Hdest. by rewrite lookup_insert_eq. }
  assert (Hrel : n ∈ Selection.getNodes wc (selection c1) None).
  { rewrite Hsel1. apply getNodes_all in Hn.
    assert (Heq : Selection.getNodes wc (selection c) None
                  = Selection.getNodes w (selection c) None); [|by rewrite Heq].
    unfold Selection.getNodes.
    destruct (decide (sceneId (selection c) = destSceneId c)) as [Hsame|Hdiff].
    - rewrite Hscc, Hdest, <- Hsame, lookup_insert_eq. rewrite Hsame, Hs0.
      apply omap_ext_Forall. rewrite Hsel1 in Horig.
      eapply Forall_impl; [exact Horig|]. intros i Hi. simpl. rewrite Hfrc; [done|].
      intros Hin. apply Hi.
      destruct (Forall2_elem_of_r _ _ _ _ Hall Hin) as (n' & _ & Hn').
      apply elem_of_values. exists (id n'). by rewrite Htbl1.
    - rewrite Hscc, Hdest, lookup_insert_ne by done. by rewrite Hdsc. }
  destruct (relink_pass_parent_gen _ _ _ _ _ Hrelink Hsc2 n cpy d)
    as (sr & d' & Hsr & Hd' & (Hr1 & Hr2 & Hr3 & Hr4) & Hpar); try done.
  { by rewrite Htbl1. }
  { intros n' Hn' Hk. apply getNodes_functional with wc (selection c1) None; try done.
    rewrite <- Htbl1 in Hcpy. symmetry. by apply (values_inj _ _ _ _ Hnd Hcpy Hk). }
  destruct (relink_pass_spec _ _ _ _ _ Hrelink Hsc2) as (sr' & Hscr & _ & Hdom & _).
  rewrite Hscr, lookup_insert_eq in Hsr. injection Hsr as <-.
  assert (Hwm : scenes wm = scenes wr).
  { destruct (hasNodeMap c1).
    - symmetry in Hwalk. by destruct (reorder_map_spec _ _ _ _ _ Hwalk) as (? & ? & _).
    - by simplify_eq. }
  destruct Hcopy as (Hc1' & Hc2 & Hc3 & Hc4).
  eexists _, d'. split_and!.
  - simpl. rewrite Hwm, Hscr, Hdest1.
    rewrite (alter_lookup_Some _ _ _ _ (lookup_insert_eq _ _ _)).
    by rewrite lookup_insert_eq.
  - done.
  - destruct (Hnew _ _ Hcpy) as [Hold|Hin]; [|done].
    destruct (Forall2_elem_of_l _ _ _ _ Hall Hn) as (cpy' & Hin & Hk).
    rewrite Hcpy in Hk. by simplify_eq.
  - congruence.
  - intros Hf. unfold resolve_source in *. rewrite Hsrc1, Hr3. by apply Hc3.
  - intros Hf Hm Hv. rewrite Hr4. apply Hc4; try done. by rewrite Hdisp.
  - simpl. rewrite Hpar, decide_True by done. unfold new_parent.
    assert (Heq : mapped_parent c1 (mkScene (sc_nodes sr')
                    (compact mapped ++ sc_order s0)) n = mapped_parent c1 sr' n) by done.
    rewrite Heq, (mapped_parent_domain _ _ _ _ Hdom).
    destruct (mapped_parent c1 sc n); [done|]. by rewrite Hc2.
Qed.

(** *** The requests made by [execute] *)

Lemma replay_entries_of c sc m l :
  replay sc m (entries_of c l)
  = if decide (destSceneId c = sc) then register_all m l else m.
Proof.
  revert m. induction l as [|p l IH]; intros m; simpl.
  - by case_decide.
  - unfold replay in *. simpl. rewrite IH. by case_decide.
Qed.

Lemma execute_journal w c w1 c1 ins :
  execute w c = Ok (w1, c1, ins) →
  ∃ walks,
    journal w1 = journal w ++ dup_calls w c ++ create_calls w c ins ++ walks ∧
    (∀ sc, DualOutput.nodeMap w1 sc
           = replay sc (DualOutput.nodeMap w sc) (create_calls w c ins ++ walks)) ∧
    Forall (λ ev, ∃ o tw, ev = CreateNodeMapEntry (destSceneId c) (nodeIdsMap c1 !! o)
                                 (nodeIdsMap c1 !! Js.key tw)) walks ∧
    (hasNodeMap c1 = false → walks = []) ∧
    Forall2 (λ n cpy, nodeIdsMap c1 !! id n = Some cpy) (copied w c) ins ∧
    hasNodeMap c1 = hasNodeMap c || migrating w c.
Proof.
  intros Hrun.
  destruct (execute_stages _ _ _ _ _ Hrun)
    as (s0 & wd & cd & wc & cc & wr & origin & wm & mapped
        & Hs0 & Hdup & Hcreate & Hc1 & Hrelink & Horigin & Hwalk & ->).
  destruct (duplicate_stage _ _ _ _ Hdup)
    as ((Hdsc & Hdnm & Hdmode & Hdact & Hdctx & Hduu) & (Hsel & Hdest & Hdd & Hdisp & Htbl & Hhas)).
  assert (Hdj : journal wd = journal w ++ dup_calls w c).
  { unfold dup_calls. destruct (duplicateSources c); [|simplify_eq; by rewrite app_nil_r].
    symmetry in Hdup.
    destruct (duplicate_pass_spec _ _ _ _ _ ∅ Hdup eq_refl (getSources_NoDup _ _))
      as (_ & _ & Hj & _). rewrite Hj. f_equal. }
  assert (Hmig : migrating w cd = migrating w c) by (unfold migrating; by rewrite Hhas).
  rewrite Hmig in *.
  assert (Hsd : scenes wd !! destSceneId cd = Some s0) by by rewrite Hdsc, Hdest.
  assert (HL : Selection.getNodes wd (selection cd)
                 (if migrating w c then None else Some (dualOutputMode w)) = copied w c).
  { unfold copied. rewrite Hsel. apply getNodes_ext; by rewrite ?Hdsc, ?Hdnm. }
  rewrite HL in Hcreate.
  destruct (create_pass_spec _ _ _ _ _ _ _ _ _ Hcreate Hsd)
    as (sc & cs & Hins & (Hsel' & Hdest' & Hdd' & Hdisp' & Hsrc' & Hhas') & _
        & _ & _ & Hall & Hscc & _ & _ & _ & Hoth & Hmaps).
  simpl in Hins. subst cs.
  assert (Hp1 : destSceneId c1 = destSceneId c ∧ nodeIdsMap c1 = nodeIdsMap cc ∧
                hasNodeMap c1 = hasNodeMap c || migrating w c).
  { subst c1. unfold migrating in *.
    destruct (dualOutputMode w), (hasNodeMap c) eqn:?; simpl; split_and!; congruence. }
  destruct Hp1 as (Hdest1 & Htbl1 & Hhas1).
  assert (Hcj : journal wc = journal wd ++ create_calls w c ins ∧
                ∀ sn, DualOutput.nodeMap wc sn
                      = replay sn (DualOutput.nodeMap w sn) (create_calls w c ins)).
  { unfold create_calls. rewrite Hdisp in Hmaps.
    destruct (migrating w c && bool_decide (display c = Some vertical)).
    - destruct Hmaps as [Hm Hj]. split.
      + rewrite Hj. unfold entries_of. by rewrite Hdest.
      + intros sn. replace (entries_of c) with (entries_of cd)
          by (unfold entries_of; by rewrite Hdest).
        rewrite replay_entries_of. case_decide as Hsn.
        * subst sn. rewrite Hm. unfold DualOutput.nodeMap. by rewrite Hdnm.
        * unfold DualOutput.nodeMap. by rewrite Hoth, Hdnm.
    - destruct Hmaps as [Hm Hj]. rewrite app_nil_r. split; [done|].
      intros sn. unfold DualOutput.nodeMap. by rewrite Hm, Hdnm. }
  destruct Hcj as [Hcj Hcm].
  assert (Hsc2 : scenes wc !! destSceneId c1 = Some sc).
  { rewrite Hscc, Hdest1, Hdest. by rewrite lookup_insert_eq. }
  destruct (relink_pass_spec _ _ _ _ _ Hrelink Hsc2)
    as (sr & _ & _ & _ & _ & Hrnm & Hrj & _).
  assert (Hw : ∃ walks, journal wm = journal wr ++ walks ∧
                 (∀ sn, DualOutput.nodeMap wm sn = replay sn (DualOutput.nodeMap wr sn) walks) ∧
                 Forall (λ ev, ∃ o tw, ev = CreateNodeMapEntry (destSceneId c)
                                          (nodeIdsMap c1 !! o) (nodeIdsMap c1 !! Js.key tw))
                        walks ∧
                 (hasNodeMap c1 = false → walks = [])).
  { destruct (hasNodeMap c1).
    - symmetry in Hwalk.
      destruct (reorder_map_spec _ _ _ _ _ Hwalk) as (_ & _ & _ & walks & Hj & Hm & Hf).
      exists walks. split_and!; try done.
      eapply Forall_impl; [exact Hf|]. intros ev (o & tw & _ & ->).
      exists o, tw. by rewrite Hdest1.
    - simplify_eq. exists []. by rewrite app_nil_r. }
  destruct Hw as (walks & Hwj & Hwm & Hwf & Hwn).
  exists walks. split_and!; try done.
  - simpl. rewrite Hwj, Hrj, Hcj, Hdj. by rewrite <- !app_assoc.
  - intros sn. unfold DualOutput.nodeMap at 1. simpl.
    fold (DualOutput.nodeMap wm sn). rewrite Hwm, replay_app. f_equal.
    rewrite <- Hcm. unfold DualOutput.nodeMap. by rewrite Hrnm.
  - by rewrite Htbl1.
Qed.

Lemma calls_of_app ev l1 l2 : calls_of ev (l1 ++ l2) = calls_of ev l1 + calls_of ev l2.
Proof. apply count_occ_app. Qed.

Lemma calls_of_cons ev e l :
  calls_of ev (e :: l) = (if decide (e = ev) then 1 else 0) + calls_of ev l.
Proof.
  unfold calls_of. simpl. destruct (Call_eq_dec e ev); by case_decide.
Qed.

Lemma calls_of_none ev l : Forall (λ e, e ≠ ev) l → calls_of ev l = 0.
Proof.
  intros Hall. apply count_occ_not_In. intros Hin.
  rewrite Forall_forall in Hall. apply (Hall ev); [|done]. by apply list_elem_of_In.
Qed.

Lemma getNodes_ids_NoDup w sel flag :
  NoDup (sel_ids sel) → NoDup (id <$> Selection.getNodes w sel flag).
Proof.
  intros Hnd. unfold Selection.getNodes.
  destruct (scenes w !! sceneId sel) as [s|]; [|constructor].
  assert (H0 : NoDup (id <$> omap (λ i, mkNode i <$> sc_nodes s !! i) (sel_ids sel))).
  { induction Hnd as [|i l Hi Hl IH]; simpl; [constructor|].
    destruct (sc_nodes s !! i) as [d|]; simpl; [|done].
    constructor; [|done].
    intros (n & Heq & Hn)%list_elem_of_fmap. apply Hi.
    apply list_elem_of_omap in Hn as (j & Hj & Hn).
    destruct (sc_nodes s !! j); simplify_eq/=. done. }
  destruct flag as [[]|]; try done.
  eapply sublist_NoDup; [exact H0|]. apply fmap_sublist, sublist_filter.
Qed.

Lemma entries_count c (tbl : gmap string string) L cs n cpy :
  Forall2 (λ n cpy, tbl !! id n = Some cpy) L cs →
  NoDup (id <$> L) →
  tbl !! id n = Some cpy →
  calls_of (CreateNodeMapEntry (destSceneId c) (Some (id n)) (Some cpy))
           (entries_of c (zip L cs))
  = if decide (id n ∈ id <$> L) then 1 else 0.
Proof.
  intros Hall Hnd Hcpy. induction Hall as [|n0 c0 L cs Hn0 _ IH]; [done|].
  rewrite fmap_cons in Hnd. apply NoDup_cons in Hnd as [Hn Hnd].
  specialize (IH Hnd).
  change (entries_of c (zip (n0 :: L) (c0 :: cs)))
    with (CreateNodeMapEntry (destSceneId c) (Some (id n0)) (Some c0)
            :: entries_of c (zip L cs)).
  rewrite calls_of_cons, IH, fmap_cons.
  destruct (decide (id n0 = id n)) as [Heq|Hne].
  - rewrite Heq in *. simplify_eq.
    rewrite (decide_True (P := id n ∈ id n :: _)) by by left.
    by rewrite decide_True, decide_False.
  - rewrite decide_False by congruence. simpl.
    apply decide_ext. rewrite elem_of_cons. split; [by right|].
    by intros [?|?].
Qed.

Lemma register_all_lookup (tbl : gmap string string) L cs n cpy :
  Forall2 (λ n cpy, tbl !! id n = Some cpy) L cs →
  tbl !! id n = Some cpy →
  ∀ m, m !! Some (id n) = Some (Some cpy) ∨ id n ∈ id <$> L →
       register_all m (zip L cs) !! Some (id n) = Some (Some cpy).
Proof.
  intros Hall Hcpy. induction Hall as [|n0 c0 L cs Hn0 _ IH]; intros m Hm.
  - destruct Hm as [?|Hm]; [done|]. by apply elem_of_nil in Hm.
  - simpl. apply IH. destruct (decide (id n0 = id n)) as [Heq|Hne].
    + left. rewrite Heq in *. simplify_eq. by rewrite lookup_insert_eq.
    + destruct Hm as [Hm|Hm].
      * left. rewrite lookup_insert_ne; [done|congruence].
      * right. rewrite fmap_cons in Hm. apply elem_of_cons in Hm as [?|?]; [congruence|done].
Qed.

Lemma replay_lookup_ne sc (k : option string) calls : ∀ m,
  Forall (λ ev, ∀ v, ev ≠ CreateNodeMapEntry sc k v) calls →
  replay sc m calls !! k = m !! k.
Proof.
  induction calls as [|ev calls IH]; intros m Hall; [done|].
  apply Forall_cons in Hall as [Hev Hall]. unfold replay in *. simpl.
  rewrite (IH _ Hall). destruct ev as [| sc' h v |]; try done.
  case_decide as Hsc; [|done]. subst sc'.
  rewrite lookup_insert_ne; [done|]. intros ->. by apply (Hev v).
Qed.

(** *** Pairs of the source scene during the order walk *)

Lemma getNodeDisplay_horizontal w n sc :
  DualOutput.getNodeDisplay w n sc = horizontal
  ↔ Some n ∉ (map_to_list (DualOutput.nodeMap w sc)).*2.
Proof.
  unfold DualOutput.getNodeDisplay. case_bool_decide; split; try done.
Qed.

Lemma paired_pre w orig v sc :
  DualOutput.getNodeDisplay w orig sc = horizontal →
  DualOutput.getVerticalNodeId w orig sc = Some v →
  paired (DualOutput.nodeMap w sc) orig v.
Proof.
  intros Hd%getNodeDisplay_horizontal Hv. split; [|done].
  unfold DualOutput.getVerticalNodeId in Hv.
  destruct (DualOutput.nodeMap w sc !! Some orig) as [[x|]|]; by simplify_eq/=.
Qed.

Lemma values_insert (m : NodeMap) k x y :
  y ∈ (map_to_list (<[k := x]> m)).*2 → y = x ∨ y ∈ (map_to_list m).*2.
Proof.
  intros ([k' y'] & -> & Hin)%list_elem_of_fmap. apply elem_of_map_to_list in Hin.
  destruct (decide (k = k')) as [->|Hne].
  - rewrite lookup_insert_eq in Hin. left. by simplify_eq.
  - rewrite lookup_insert_ne in Hin by done. right.
    apply list_elem_of_fmap. exists (k', y'). split; [done|]. by apply elem_of_map_to_list.
Qed.

Section walk.
Context (c : t) (orig v h' v' : string).
Hypothesis Horig : orig ∉ values (nodeIdsMap c).
Hypothesis Hinj : NoDup (values (nodeIdsMap c)).
Hypothesis Hh : nodeIdsMap c !! orig = Some h'.
Hypothesis Hv : nodeIdsMap c !! v = Some v'.

Lemma not_a_copy k : nodeIdsMap c !! k ≠ Some orig.
Proof. intros Hk. apply Horig, elem_of_values. by exists k. Qed.

Lemma reorder_visit_paired w o :
  paired (DualOutput.nodeMap w (sceneId (selection c))) orig v →
  paired (DualOutput.nodeMap (reorder_visit c w o).1 (sceneId (selection c))) orig v.
Proof.
  intros [Hp1 Hp2].
  destruct (reorder_visit_spec c w o) as (_ & _ & _ & _ & Hnm). cbv zeta in Hnm.
  rewrite Hnm. unfold visit_calls. case_decide; [|done].
  unfold replay. simpl. case_decide; [|done]. split.
  - rewrite lookup_insert_ne; [done|]. apply not_a_copy.
  - intros [Hx|Hx]%values_insert; [|done]. symmetry in Hx. by apply not_a_copy in Hx.
Qed.

Lemma reorder_visit_registered j0 w o :
  paired (DualOutput.nodeMap w (sceneId (selection c))) orig v →
  (∃ calls, journal w = j0 ++ calls) →
  registered c h' v' j0 w ∨ o = orig →
  registered c h' v' j0 (reorder_visit c w o).1.
Proof.
  intros [Hp1 Hp2] (calls0 & Hj0) Hor.
  destruct (reorder_visit_spec c w o) as (_ & _ & _ & Hj & Hnm). cbv zeta in Hj, Hnm.
  unfold registered. rewrite Hnm, Hj. unfold visit_calls.
  assert (Hvis : o = orig →
            DualOutput.getNodeDisplay w o (sceneId (selection c)) = horizontal ∧
            nodeIdsMap c !! o = Some h' ∧
            nodeIdsMap c !! Js.key (DualOutput.getVerticalNodeId w o (sceneId (selection c)))
            = Some v').
  { intros ->. split_and!; [by apply getNodeDisplay_horizontal|done|].
    unfold DualOutput.getVerticalNodeId. by rewrite Hp1. }
  case_decide as Hd.
  - unfold replay. simpl. rewrite decide_True by done.
    destruct (decide (o = orig)) as [Ho|Ho].
    + destruct (Hvis Ho) as (_ & -> & ->). rewrite lookup_insert_eq. split; [done|].
      eexists. rewrite Hj0, <- app_assoc. split; [done|].
      apply elem_of_app. right. by left.
    + destruct Hor as [[Hr1 (calls & Hr2 & Hr3)]|?]; [|done]. split.
      * rewrite lookup_insert_ne; [done|]. intros Hk. apply Ho.
        by apply (values_inj _ _ _ _ Hinj Hk Hh).
      * eexists. rewrite Hr2, <- app_assoc. split; [done|].
        apply elem_of_app. by left.
  - destruct Hor as [[Hr1 (calls & Hr2 & Hr3)]|Ho].
    + rewrite app_nil_r. split; [done|]. by exists calls.
    + by destruct (Hvis Ho) as (? & _).
Qed.

Lemma reorder_map_registered j0 l : ∀ w w' mapped,
  reorder_map c w l = (w', mapped) →
  paired (DualOutput.nodeMap w (sceneId (selection c))) orig v →
  (∃ calls, journal w = j0 ++ calls) →
  registered c h' v' j0 w ∨ orig ∈ l →
  registered c h' v' j0 w'.
Proof.
  induction l as [|o l IH]; intros w w' mapped Hrun Hp Hj0 Hor.
  - simpl in Hrun. simplify_eq. destruct Hor as [?|Hor]; [done|]. by apply elem_of_nil in Hor.
  - change (reorder_map c w (o :: l))
      with (let '(w2, x) := reorder_visit c w o in
            let '(w3, xs) := reorder_map c w2 l in (w3, x :: xs)) in Hrun.
    pose proof (reorder_visit_paired w o Hp) as Hp2.
    pose proof (reorder_visit_registered j0 w o Hp Hj0) as Hr2.
    destruct (reorder_visit_spec c w o) as (_ & _ & _ & Hj & _). cbv zeta in Hj.
    destruct (reorder_visit c w o) as [w2 x]. simpl in Hp2, Hr2, Hj.
    destruct (reorder_map c w2 l) as [w3 xs] eqn:Hrest. simplify_eq.
    apply (IH _ _ _ Hrest Hp2).
    + destruct Hj0 as (calls & Hc). eexists. by rewrite Hj, Hc, <- app_assoc.
    + destruct Hor as [Hr|[->|Hin]%elem_of_cons]; [left; apply Hr2; by left
                                                   |left; apply Hr2; by right|by right].
Qed.
End walk.

Lemma execute_walk w c w1 c1 ins :
  execute w c = Ok (w1, c1, ins) →
  hasNodeMap c = true →
  ∃ wr wm mapped walk,
    reorder_map c1 wr walk = (wm, mapped) ∧
    sceneNodeMaps wr = sceneNodeMaps w ∧
    (∃ calls, journal wr = journal w ++ calls) ∧
    (∀ origin o, scenes w !! sceneId (selection c) = Some origin →
                 o ∈ sc_order origin → o ∈ walk) ∧
    sceneNodeMaps w1 = sceneNodeMaps wm ∧ journal w1 = journal wm.
Proof.
  intros Hrun Hhasc.
  destruct (execute_stages _ _ _ _ _ Hrun)
    as (s0 & wd & cd & wc & cc & wr & origin & wm & mapped
        & Hs0 & Hdup & Hcreate & Hc1 & Hrelink & Horigin & Hwalk & ->).
  destruct (duplicate_stage _ _ _ _ Hdup)
    as ((Hdsc & Hdnm & Hdmode & Hdact & Hdctx & Hduu) & (Hsel & Hdest & Hdd & Hdisp & Htbl & Hhas)).
  assert (Hmig : migrating w cd = false).
  { unfold migrating. rewrite Hhas, Hhasc. by destruct (dualOutputMode w). }
  rewrite Hmig in *. subst c1.
  assert (Hsd : scenes wd !! destSceneId cd = Some s0) by by rewrite Hdsc, Hdest.
  destruct (create_pass_spec _ _ _ _ _ _ _ _ _ Hcreate Hsd)
    as (sc & cs & Hins & (Hsel' & Hdest' & Hdd' & Hdisp' & Hsrc' & Hhas') & _
        & _ & _ & _ & Hscc & Hordc & _ & _ & _ & Hmaps).
  simpl in Hmaps, Hins. destruct Hmaps as [Hcm Hcj]. subst cs.
  assert (Hsc2 : scenes wc !! destSceneId cc = Some sc).
  { rewrite Hscc, Hdest'. by rewrite lookup_insert_eq. }
  destruct (relink_pass_spec _ _ _ _ _ Hrelink Hsc2)
    as (sr & Hscr & Hordr & _ & _ & Hrnm & Hrj & _).
  rewrite Hhas', Hhas, Hhasc in Hwalk. symmetry in Hwalk.
  exists wr, wm, mapped, (sc_order origin). split_and!; try done.
  - congruence.
  - assert (Hdj : ∃ calls, journal wd = journal w ++ calls).
    { destruct (duplicateSources c); [|simplify_eq; exists []; by rewrite app_nil_r].
      symmetry in Hdup.
      destruct (duplicate_pass_spec _ _ _ _ _ ∅ Hdup eq_refl (getSources_NoDup _ _))
        as (_ & _ & Hj & _). eexists. exact Hj. }
    destruct Hdj as (calls & Hdj). exists calls. congruence.
  - intros origin0 o Ho0 Ho.
    rewrite Hscr, Hscc, Hdest', Hdest, Hsel', Hsel, insert_insert_eq, Hdsc in Horigin.
    destruct (decide (sceneId (selection c) = destSceneId c)) as [Heq|Hne].
    + rewrite Heq, lookup_insert_eq in Horigin. rewrite Heq, Hs0 in Ho0. simplify_eq.
      rewrite Hordr, Hordc. apply elem_of_app. by right.
    + rewrite lookup_insert_ne in Horigin by done. congruence.
Qed.

Lemma getSources_elem w sel n sd :
  n ∈ Selection.getNodes w sel None →
  isFolder n = false →
  sources w !! node_sourceId n = Some sd →
  mkSource (node_sourceId n) sd ∈ Selection.getSources w sel.
Proof.
  intros Hn Hf Hsd. unfold Selection.getSources.
  apply list_elem_of_omap. exists (node_sourceId n). split; [|by rewrite Hsd].
  apply elem_of_remove_dups, list_elem_of_fmap. exists n. split; [done|].
  by apply list_elem_of_filter.
Qed.

Lemma execute_sources w c w1 c1 ins :
  duplicateSources c = true →
  execute w c = Ok (w1, c1, ins) →
  ∃ m, sourceIdsMap c1 = Some m ∧
    (∀ k, k ∉ sourceId <$> Selection.getSources w (selection c) → m !! k = None) ∧
    (∀ s, s ∈ Selection.getSources w (selection c) → is_Some (m !! sourceId s)) ∧
    (∀ s, s ∈ Selection.getSources w (selection c) →
          src_doNotDuplicate (source_data s) = true → m !! sourceId s = Some (sourceId s)).
Proof.
  intros Hdupflag Hrun.
  destruct (execute_stages _ _ _ _ _ Hrun)
    as (s0 & wd & cd & wc & cc & wr & origin & wm & mapped
        & Hs0 & Hdup & Hcreate & Hc1 & Hrelink & Horigin & Hwalk & ->).
  rewrite Hdupflag in Hdup. symmetry in Hdup.
  destruct (duplicate_pass_spec _ _ _ _ _ ∅ Hdup eq_refl (getSources_NoDup _ _))
    as ((Hdsc & _) & (_ & Hdest & _) & _ & m & Hm & Hout & Hin & Hnd).
  assert (Hsd : scenes wd !! destSceneId cd = Some s0) by by rewrite Hdsc, Hdest.
  destruct (create_pass_spec _ _ _ _ _ _ _ _ _ Hcreate Hsd)
    as (sc & cs & _ & (_ & _ & _ & _ & Hsrc' & _) & _).
  exists m. split_and!; try done.
  subst c1. destruct (migrating w cd); simpl; congruence.
Qed.

Lemma truthy_Some p : p ≠ ""%string → truthy (Some p) = true.
Proof. intros Hp. simpl. by destruct (String.eqb_spec p ""). Qed.

(** *** The ids of a first execution *)

Lemma create_node_ids mig w c ins n w' c' ins' :
  create_node mig (w, c, ins) n = Ok (w', c', ins') →
  uuid w' = uuid w ∧
  match nodeIdsMap c !! id n with
  | Some _ => uuid_seed w' = uuid_seed w ∧ nodeIdsMap c' = nodeIdsMap c
  | None => uuid_seed w' = S (uuid_seed w) ∧
            nodeIdsMap c' = <[id n := uuid w (uuid_seed w)]> (nodeIdsMap c)
  end.
Proof.
  intros Hstep. unfold create_node in Hstep.
  destruct (isFolder n).
  - unfold Scene.createFolder in Hstep.
    destruct (nodeIdsMap c !! id n) as [h|] eqn:Hh; simpl in Hstep;
      destruct (mig && bool_decide (display c = Some vertical)); simplify_eq/=;
      (split; [done|]); split; try done; by apply insert_id.
  - unfold Scene.addSource in Hstep.
    destruct (resolve_source c n) as [sid|]; [|done].
    destruct (sources w !! sid) as [src|]; [|done].
    destruct (nodeIdsMap c !! id n) as [h|] eqn:Hh; simpl in Hstep;
      destruct (mig && bool_decide (display c = Some vertical)); simplify_eq/=;
      (split; [done|]); split; try done; by apply insert_id.
Qed.

Lemma create_pass_generated mig lo L : ∀ w c ins w' c' ins',
  forEach (create_node mig) L (w, c, ins) = Ok (w', c', ins') →
  (∀ i j, uuid w i = uuid w j → i = j) →
  lo ≤ uuid_seed w →
  generated (uuid w) lo (uuid_seed w) (nodeIdsMap c) →
  generated (uuid w) lo (uuid_seed w') (nodeIdsMap c').
Proof.
  induction L as [|n L IH]; intros w c ins w' c' ins' Hrun Hinj Hlo Hgen.
  - simpl in Hrun. by simplify_eq.
  - apply forEach_cons in Hrun as ([[w2 c2] ins2] & Hstep & Hrun).
    destruct (create_node_ids _ _ _ _ _ _ _ _ Hstep) as [Huu Hcase].
    rewrite <- Huu. rewrite <- Huu in Hinj. apply (IH _ _ _ _ _ _ Hrun Hinj).
    + destruct (nodeIdsMap c !! id n); destruct Hcase as [Hsd _]; lia.
    + rewrite Huu. destruct Hgen as [Hrange Hone].
      destruct (nodeIdsMap c !! id n) as [h|] eqn:Hh; destruct Hcase as [-> ->]; [done|].
      split.
      * intros k v Hk. destruct (decide (k = id n)) as [->|Hne].
        -- rewrite lookup_insert_eq in Hk. simplify_eq. exists (uuid_seed w). split; [lia|done].
        -- rewrite lookup_insert_ne in Hk by done.
           destruct (Hrange _ _ Hk) as (j & ? & ?). exists j. split; [lia|done].
      * assert (Hnew : ∀ k, nodeIdsMap c !! k ≠ Some (uuid w (uuid_seed w))).
        { intros k Hk. destruct (Hrange _ _ Hk) as (j & Hj & Heq).
          rewrite Huu in Hinj. apply Hinj in Heq. lia. }
        intros k k' v Hk Hk'.
        destruct (decide (k = id n)) as [->|Hne];
          destruct (decide (k' = id n)) as [->|Hne']; try done.
        -- rewrite lookup_insert_eq in Hk. rewrite lookup_insert_ne in Hk' by done.
           simplify_eq. by destruct (Hnew k').
        -- rewrite lookup_insert_eq in Hk'. rewrite lookup_insert_ne in Hk by done.
           simplify_eq. by destruct (Hnew k).
        -- rewrite lookup_insert_ne in Hk, Hk' by done. by apply (Hone k k' v).
Qed.

Lemma duplicate_pass_seed srcs : ∀ w c w' c',
  foldl duplicate_source (w, c) srcs = (w', c') → uuid_seed w ≤ uuid_seed w'.
Proof.
  induction srcs as [|s srcs IH]; intros w c w' c' Hrun.
  - simpl in Hrun. by simplify_eq.
  - cbn [foldl] in Hrun.
    destruct (duplicate_source (w, c) s) as [w2 c2] eqn:Hstep.
    apply IH in Hrun. etrans; [|exact Hrun].
    unfold duplicate_source, Sources.duplicate, take_id in Hstep.
    destruct (src_doNotDuplicate (source_data s)); [by simplify_eq/=|].
    destruct (default ∅ (sourceIdsMap c) !! sourceId s); simplify_eq/=; lia.
Qed.

Lemma NoDup_values (tbl : gmap string string) :
  (∀ k k' v, tbl !! k = Some v → tbl !! k' = Some v → k = k') → NoDup (values tbl).
Proof.
  intros Hone. unfold values. apply NoDup_fmap_2_strong; [|apply NoDup_map_to_list].
  intros [k v] [k' v'] Hk%elem_of_map_to_list Hk'%elem_of_map_to_list Heq.
  simpl in Heq. subst v'. f_equal. by apply (Hone k k' v).
Qed.

(** A command executed for the first time, with a generator that hands out
    ids which are new to the destination scene and to the selection, meets
    the conditions on ids under which the claims below are stated. *)
Lemma first_execute_fresh w c w1 c1 ins s0 :
  execute w c = Ok (w1, c1, ins) →
  nodeIdsMap c = ∅ →
  scenes w !! destSceneId c = Some s0 →
  (∀ i j, uuid w i = uuid w j → i = j) →
  (∀ j, uuid_seed w ≤ j →
        uuid w j ≠ ""%string ∧ sc_nodes s0 !! uuid w j = None ∧
        (uuid w j ∉ sc_order s0) ∧ (uuid w j ∉ sel_ids (selection c))) →
  fresh_copies c1 ∧
  map_Forall (λ _ v, v ≠ ""%string) (nodeIdsMap c1) ∧
  map_Forall (λ _ i, i ∈ ins ∧ sc_nodes s0 !! i = None ∧ i ∉ sc_order s0) (nodeIdsMap c1).
Proof.
  intros Hrun Hempty Hs0 Hinj Hnew.
  destruct (execute_scene _ _ _ _ _ Hrun)
    as (s0' & _ & _ & Hs0' & _ & _ & _ & _ & _ & _ & _ & Hins & Hsel & _).
  simplify_eq.
  destruct (execute_stages _ _ _ _ _ Hrun)
    as (_ & wd & cd & wc & cc & wr & origin & wm & mapped
        & _ & Hdup & Hcreate & Hc1 & _).
  destruct (duplicate_stage _ _ _ _ Hdup)
    as ((_ & _ & _ & _ & _ & Hduu) & (_ & _ & _ & _ & Htbl & _)).
  assert (Hseed : uuid_seed w ≤ uuid_seed wd).
  { destruct (duplicateSources c); [|by simplify_eq].
    symmetry in Hdup. by apply duplicate_pass_seed in Hdup. }
  assert (Hgen : generated (uuid w) (uuid_seed w) (uuid_seed wc) (nodeIdsMap c1)).
  { replace (nodeIdsMap c1) with (nodeIdsMap cc)
      by (subst c1; by destruct (migrating w cd)).
    rewrite <- Hduu. eapply create_pass_generated; [exact Hcreate|by rewrite Hduu|done|].
    rewrite Htbl, Hempty. split; intros ? ?; by rewrite ?lookup_empty. }
  destruct Hgen as [Hrange Hone].
  split_and!.
  - split; [by apply NoDup_values|]. rewrite Hsel.
    apply Forall_forall. intros i Hi (k & Hk)%elem_of_values.
    destruct (Hrange _ _ Hk) as (j & Hj & ->).
    destruct (Hnew j) as (_ & _ & _ & Hn); [lia|done].
  - intros k v Hk. destruct (Hrange _ _ Hk) as (j & Hj & ->).
    destruct (Hnew j) as (? & _); [lia|done].
  - intros k v Hk. split.
    + destruct (Hins _ _ Hk) as [Hold|?]; [|done]. by rewrite Hempty, lookup_empty in Hold.
    + destruct (Hrange _ _ Hk) as (j & Hj & ->).
      destruct (Hnew j) as (_ & ? & ? & _); [lia|done].
Qed.

(** * The example commands, evaluated *)

Example plain_copies_eval :
  plain_copies = ["id-2"; "id-3"; "id-4"]%string ∧
  map_to_list (nodeIdsMap plain_cmd_after)
  = [("a", "id-3"); ("f", "id-2"); ("b", "id-4")]%string ∧
  (scenes plain_after !! "D"%string) ≫= (λ s, Some (Scene.getNodesIds s))
  = Some ["id-2"; "id-3"; "id-4"; "z"]%string.
Proof. by vm_compute. Qed.

Example plain_parents_eval :
  (scenes plain_after !! "D"%string)
    ≫= (λ s, Some ((λ i, sc_nodes s !! i ≫= nd_parentId) <$> plain_copies))
  = Some [None; Some "id-2"%string; None] ∧
  (scenes plain_after !! "D"%string)
    ≫= (λ s, Some ((λ i, nd_sourceId <$> sc_nodes s !! i) <$> plain_copies))
  = Some [Some ""%string; Some "id-1"%string; Some "mic"%string].
Proof. by vm_compute. Qed.

Example plain_redo_eval :
  plain_recopies = plain_copies ∧
  scenes plain_undone = scenes plain_world ∧
  journal plain_redone
  = [Duplicate "cam" None; Duplicate "mic" None; Duplicate "cam" None; Duplicate "mic" None]%string.
Proof. by vm_compute. Qed.

Example migrate_eval :
  migrate_copies = ["id-1"; "id-2"; "id-3"]%string ∧
  (scenes vanilla_after !! "S"%string) ≫= (λ s, Some (Scene.getNodesIds s))
  = Some ["id-1"; "id-2"; "id-3"; "f"; "a"; "b"]%string ∧
  hasNodeMap migrate_cmd = false ∧ hasNodeMap migrate_cmd_after = true.
Proof. by vm_compute. Qed.

(** * The tables under own keys *)

Lemma table_read_own tbl k :
  own_key k → table_read tbl k = from_option Entry Absent (tbl !! k).
Proof.
  intros Hk. unfold table_read. destruct (tbl !! k); [done|].
  by rewrite bool_decide_false.
Qed.

Lemma table_write_own (tbl : gmap string string) k v :
  own_key k → VuexModule.write k v tbl = <[k := v]> tbl.
Proof.
  intros Hk. unfold VuexModule.write. rewrite decide_False; [done|].
  intros ->. apply Hk. apply (bool_decide_unpack _). vm_compute. exact I.
Qed.

Lemma ex_uuid_own j : own_key (ex_uuid j).
Proof.
  destruct j as [|[|[|[|[|[|j]]]]]]; apply (bool_decide_unpack _); vm_compute; exact I.
Qed.

Lemma gen_own j : own_key (gen j).
Proof.
  unfold own_key, gen, VuexModule.inherited. intros H.
  repeat (apply elem_of_cons in H as [H|H]; [simpl in H; discriminate|]).
  by apply elem_of_nil in H.
Qed.

Ltac own_keys_closed :=
  unfold own_keys; split_and!;
  [apply (bool_decide_unpack _); vm_compute; exact I
  |apply (bool_decide_unpack _); vm_compute; exact I
  |apply (bool_decide_unpack _); vm_compute; exact I
  |apply (bool_decide_unpack _); vm_compute; exact I
  |].

Lemma own_keys_plain : own_keys plain_world plain_cmd.
Proof. own_keys_closed. exact ex_uuid_own. Qed.

Lemma own_keys_reuse : own_keys plain_world reuse_cmd.
Proof. own_keys_closed. exact ex_uuid_own. Qed.

Lemma own_keys_empty : own_keys plain_world empty_cmd.
Proof. own_keys_closed. exact ex_uuid_own. Qed.

Lemma own_keys_pair : own_keys dual_world pair_cmd.
Proof. own_keys_closed. exact ex_uuid_own. Qed.

Lemma own_keys_migrate : own_keys vanilla_world migrate_cmd.
Proof. own_keys_closed. exact ex_uuid_own. Qed.

Lemma own_keys_fresh : own_keys fresh_world fresh_cmd.
Proof. own_keys_closed. exact gen_own. Qed.

Lemma own_keys_redo : own_keys plain_undone plain_cmd_after.
Proof.
  own_keys_closed.
  assert (Hu : uuid plain_undone = ex_uuid) by (vm_compute; reflexivity).
  rewrite Hu. exact ex_uuid_own.
Qed.

(** * The claims *)

(** C1.  After [execute], the destination scene's node order is the source
    scene's node order mapped through the old-node-id to new-node-id table,
    ids absent from the table dropped, followed by the destination's order
    from before [execute].  The prefix holds the nodes that the execution
    has created: the table maps every copied node to the node created for
    it, which is a node of the destination scene and is in the prefix
    whenever the original is in the source order; and every id of the
    prefix is the table's value for an id of the source order, created by
    this execution or recorded in the table before it.  The source order is
    the one read when the order is rebuilt: the order from before [execute]
    when the source scene is not the destination, and the destination's own
    order with the copies on top otherwise.  No key of a table access names
    an inherited member, and the ids handed out by the scene are taken to
    be non-empty strings, which [compact] would drop. *)
Theorem C1_final_node_order w c w1 c1 ins :
  execute w c = Ok (w1, c1, ins) →
  own_keys w c →
  map_Forall (λ _ v, v ≠ ""%string) (nodeIdsMap c1) →
  ∃ s0 s1 walk,
    scenes w !! destSceneId c = Some s0 ∧
    scenes w1 !! destSceneId c = Some s1 ∧
    (sceneId (selection c) ≠ destSceneId c →
     ∃ origin, Selection.getScene w (selection c) = Some origin ∧
               walk = Scene.getNodesIds origin) ∧
    (sceneId (selection c) = destSceneId c → walk = rev ins ++ Scene.getNodesIds s0) ∧
    Scene.getNodesIds s1 = through_table (nodeIdsMap c1) walk ++ Scene.getNodesIds s0 ∧
    Forall2 (λ n cpy, nodeIdsMap c1 !! id n = Some cpy ∧
                      is_Some (sc_nodes s1 !! cpy) ∧
                      (id n ∈ walk → cpy ∈ through_table (nodeIdsMap c1) walk))
            (copied w c) ins ∧
    (∀ i, i ∈ through_table (nodeIdsMap c1) walk →
          ∃ k, k ∈ walk ∧ nodeIdsMap c1 !! k = Some i ∧
               (i ∈ ins ∨ nodeIdsMap c !! k = Some i)).
Proof.
  intros Hrun _ Hne.
  destruct (execute_scene _ _ _ _ _ Hrun)
    as (s0 & s1 & walk & Hs0 & Hsc & Hwalk1 & Hwalk2 & Hord & _ & Hin & _ & Hnew & _).
  destruct (execute_journal _ _ _ _ _ Hrun) as (_ & _ & _ & _ & _ & Hall & _).
  exists s0, s1, walk. split_and!; try done.
  - by rewrite Hsc, lookup_insert_eq.
  - unfold Scene.getNodesIds, through_table. rewrite Hord. f_equal.
    apply compact_lookup. intros k Hk. by apply (Hne k ""%string).
  - apply Forall2_same_length_lookup. split; [by eapply Forall2_length|].
    intros j n cpy Hn Hcpy.
    pose proof (Forall2_lookup_lr _ _ _ _ _ _ Hall Hn Hcpy) as Hk.
    split_and!; [done| |].
    + apply Hin. by eapply list_elem_of_lookup_2.
    + intros Hw. apply list_elem_of_omap. by exists (id n).
  - intros i (k & Hk & Hi)%list_elem_of_omap. exists k. split_and!; try done.
    destruct (Hnew _ _ Hi) as [?|?]; [by right|by left].
Qed.

Lemma C1_final_node_order_witness :
  execute plain_world plain_cmd = Ok (plain_after, plain_cmd_after, plain_copies) ∧
  own_keys plain_world plain_cmd ∧
  map_Forall (λ _ v, v ≠ ""%string) (nodeIdsMap plain_cmd_after) ∧
  ∃ s0 s1 walk,
    scenes plain_world !! destSceneId plain_cmd = Some s0 ∧
    scenes plain_after !! destSceneId plain_cmd = Some s1 ∧
    (sceneId (selection plain_cmd) ≠ destSceneId plain_cmd →
     ∃ origin, Selection.getScene plain_world (selection plain_cmd) = Some origin ∧
               walk = Scene.getNodesIds origin) ∧
    (sceneId (selection plain_cmd) = destSceneId plain_cmd →
     walk = rev plain_copies ++ Scene.getNodesIds s0) ∧
    Scene.getNodesIds s1
    = through_table (nodeIdsMap plain_cmd_after) walk ++ Scene.getNodesIds s0 ∧
    Forall2 (λ n cpy, nodeIdsMap plain_cmd_after !! id n = Some cpy ∧
                      is_Some (sc_nodes s1 !! cpy) ∧
                      (id n ∈ walk → cpy ∈ through_table (nodeIdsMap plain_cmd_after) walk))
            (copied plain_world plain_cmd) plain_copies ∧
    (∀ i, i ∈ through_table (nodeIdsMap plain_cmd_after) walk →
          ∃ k, k ∈ walk ∧ nodeIdsMap plain_cmd_after !! k = Some i ∧
               (i ∈ plain_copies ∨ nodeIdsMap plain_cmd !! k = Some i)).
Proof.
  assert (Hrun : execute plain_world plain_cmd
                 = Ok (plain_after, plain_cmd_after, plain_copies))
    by (vm_compute; reflexivity).
  assert (Hne : map_Forall (λ _ v, v ≠ ""%string) (nodeIdsMap plain_cmd_after))
    by (apply (bool_decide_unpack _); vm_compute; exact I).
  split_and!; [exact Hrun|exact own_keys_plain|exact Hne|].
  exact (C1_final_node_order plain_world plain_cmd _ _ _ Hrun own_keys_plain Hne).
Defined.

(** C2.  The claim is that [execute] followed by [rollback] restores the
    node set and the node order of the destination scene, [rollback]
    removing the nodes recorded in the table.  [execute] rebuilds the order
    from every entry of the table, whether or not this execution has
    created the node, and [rollback] takes out of the order only ids that
    name nodes.  The pair h/v is pasted into scene D in dual-output mode
    and the paste is undone, which leaves D with the node z alone, as it
    was.  Dual-output mode is switched off and the command executed again:
    it copies h alone, under its former id, and puts the id that the table
    still holds for v into the order of D, where it names no node.  After
    [rollback] the node set of D is restored, and its order still holds
    that id. *)
Theorem C2_rollback_keeps_stale_id :
  execute dual_world pair_cmd = Ok (dual_after, pair_cmd_after, pair_copies) ∧
  rollback dual_after pair_cmd_after = Ok dual_undone ∧
  scenes dual_undone = scenes dual_world ∧
  scenes dual_off_world = scenes dual_undone ∧
  dualOutputMode dual_off_world = false ∧
  execute dual_off_world pair_cmd_after = Ok (dual_off_after, pair_cmd_off, pair_off_copies) ∧
  pair_off_copies = ["id-1"]%string ∧
  map_to_list (nodeIdsMap pair_cmd_off) = [("v", "id-2"); ("h", "id-1")]%string ∧
  (scenes dual_off_world !! "D"%string) ≫= (λ s, Some (sc_order s))
  = Some ["z"]%string ∧
  (scenes dual_off_after !! "D"%string) ≫= (λ s, Some (sc_order s))
  = Some ["id-1"; "id-2"; "z"]%string ∧
  (scenes dual_off_after !! "D"%string) ≫= (λ s, Some (sc_nodes s !! "id-2"%string))
  = Some None ∧
  rollback dual_off_after pair_cmd_off = Ok dual_off_undone ∧
  (scenes dual_off_undone !! "D"%string) ≫= (λ s, Some (sc_nodes s))
  = (scenes dual_off_world !! "D"%string) ≫= (λ s, Some (sc_nodes s)) ∧
  (scenes dual_off_undone !! "D"%string) ≫= (λ s, Some (sc_order s))
  = Some ["id-2"; "z"]%string.
Proof. split_and!; vm_compute; reflexivity. Qed.

(** C3.  The claim is that in dual-output mode, for a command constructed
    on a source scene without a node map and with the forced display
    [vertical], [execute] registers one node-map entry from each copied
    node to its copy and resets the position of every copied item.  The
    branch that does so is taken when the has-node-map flag of the command
    is unset; a migrating [execute] sets the flag and [rollback] does not
    reset it.  The command is constructed on the scene S, which has no node
    map, with forced display [vertical], and dual-output mode is active
    throughout.  The first [execute] migrates; after [rollback] the scene
    is without a node map again, and [execute] takes the ordinary branch:
    the copy of the item a keeps the position (5, 7) of its original, no
    entry links a to its copy, and the entries that the order walk
    registers link undefined or a copy to undefined. *)
Theorem C3_redo_skips_migration :
  migrate_cmd = new vanilla_world (mkSelection "S" ["f"; "a"; "b"]%string) "S" false
                    (Some vertical) ∧
  DualOutput.hasNodeMap vanilla_world "S" = false ∧
  execute vanilla_world migrate_cmd = Ok (vanilla_after, migrate_cmd_after, migrate_copies) ∧
  rollback vanilla_after migrate_cmd_after = Ok vanilla_undone ∧
  scenes vanilla_undone = scenes vanilla_world ∧
  DualOutput.hasNodeMap vanilla_undone "S" = false ∧
  dualOutputMode vanilla_undone = true ∧
  display migrate_cmd_after = Some vertical ∧
  hasNodeMap migrate_cmd_after = true ∧
  execute vanilla_undone migrate_cmd_after
  = Ok (vanilla_redone, migrate_cmd_redone, migrate_recopies) ∧
  Selection.getNodes vanilla_undone (selection migrate_cmd_after) None
  = [mkNode "f" (ex_folder "Group" None);
     mkNode "a" (ex_item "cam" (Some "f"%string) (5, 7)%Z);
     mkNode "b" (ex_item "mic" None (2, 3)%Z)] ∧
  nodeIdsMap migrate_cmd_redone !! "a"%string = Some "id-2"%string ∧
  (scenes vanilla_redone !! "S"%string) ≫= (λ s, sc_nodes s !! "id-2"%string)
  = Some (mkNodeData false "Camera" "cam" (Some "id-1"%string)
            (mkSettings (5, 7)%Z true (Some "vertical-context"%string) (Some vertical))) ∧
  DualOutput.nodeMap vanilla_redone "S" !! Some "a"%string = None ∧
  journal vanilla_redone
  = journal vanilla_undone
    ++ [CreateNodeMapEntry "S" None None; CreateNodeMapEntry "S" None None;
        CreateNodeMapEntry "S" None None;
        CreateNodeMapEntry "S" (Some "id-1"%string) None;
        CreateNodeMapEntry "S" (Some "id-2"%string) None;
        CreateNodeMapEntry "S" (Some "id-3"%string) None].
Proof. split_and!; vm_compute; reflexivity. Qed.

(** C4.  When the command's has-node-map flag is set (the copy is not a
    migration) and dual-output mode is active, then for every copied node
    of the source scene that is classified horizontal and whose vertical
    twin is copied too, [execute] registers a node-map entry in the
    destination scene that pairs the new id of the horizontal node with the
    new id of the vertical node, both taken from the table and both
    different from the old ids; the entry is in the destination's node map
    afterwards.  The copies are taken to have pairwise distinct ids,
    different from the ids of the selected nodes, and no key of a table
    access to name an inherited member. *)
Theorem C4_pairs_new_ids w c w1 c1 ins nh nv :
  hasNodeMap c = true →
  dualOutputMode w = true →
  execute w c = Ok (w1, c1, ins) →
  own_keys w c →
  fresh_copies c1 →
  nh ∈ Selection.getNodes w (selection c) None →
  nv ∈ Selection.getNodes w (selection c) None →
  (∃ origin, Selection.getScene w (selection c) = Some origin ∧
             id nh ∈ Scene.getNodesIds origin) →
  DualOutput.getNodeDisplay w (id nh) (sceneId (selection c)) = horizontal →
  DualOutput.getVerticalNodeId w (id nh) (sceneId (selection c)) = Some (id nv) →
  ∃ h' v' calls,
    nodeIdsMap c1 !! id nh = Some h' ∧ nodeIdsMap c1 !! id nv = Some v' ∧
    h' ≠ id nh ∧ v' ≠ id nv ∧
    journal w1 = journal w ++ calls ∧
    CreateNodeMapEntry (destSceneId c) (Some h') (Some v') ∈ calls ∧
    DualOutput.nodeMap w1 (destSceneId c) !! Some h' = Some (Some v').
Proof.
  intros Hhas Hdual Hrun _ Hfresh Hnh Hnv (origin & Horigin & Hin) Hdisp Htwin.
  destruct (execute_journal _ _ _ _ _ Hrun) as (_ & _ & _ & _ & _ & Hall & _).
  assert (HL : copied w c = Selection.getNodes w (selection c) None).
  { unfold copied, migrating. rewrite Hhas, Hdual. done. }
  rewrite HL in Hall.
  destruct (Forall2_elem_of_l _ _ _ _ Hall Hnh) as (h' & _ & Hh').
  destruct (Forall2_elem_of_l _ _ _ _ Hall Hnv) as (v' & _ & Hv').
  destruct (execute_params _ _ _ _ _ Hrun) as (Hsel1 & Hdest1 & _).
  destruct Hfresh as [Hnd Horig]. rewrite Hsel1 in Horig. rewrite Forall_forall in Horig.
  assert (Hoh : id nh ∉ values (nodeIdsMap c1)).
  { apply Horig. by apply getNodes_elem in Hnh as (_ & _ & _ & ?). }
  assert (Hov : id nv ∉ values (nodeIdsMap c1)).
  { apply Horig. by apply getNodes_elem in Hnv as (_ & _ & _ & ?). }
  destruct (execute_walk _ _ _ _ _ Hrun Hhas)
    as (wr & wm & mapped & walk & Hmap & Hnm & Hjr & Hwalk & Hnm1 & Hj1).
  assert (Hreg : registered c1 h' v' (journal w) wm).
  { eapply (reorder_map_registered c1 (id nh) (id nv) h' v' Hoh Hnd Hh' Hv'); try done.
    - rewrite Hsel1. unfold DualOutput.nodeMap. rewrite Hnm. by apply paired_pre.
    - right. by apply (Hwalk origin). }
  destruct Hreg as (Hm & calls & Hjc & Hcalls). rewrite Hdest1 in *.
  exists h', v', calls. split_and!; try done.
  - intros ->. apply Hoh, elem_of_values. by exists (id nh).
  - intros ->. apply Hov, elem_of_values. by exists (id nv).
  - congruence.
  - unfold DualOutput.nodeMap in *. by rewrite Hnm1.
Qed.

Lemma C4_pairs_new_ids_witness :
  hasNodeMap pair_cmd = true ∧
  dualOutputMode dual_world = true ∧
  execute dual_world pair_cmd = Ok (dual_after, pair_cmd_after, pair_copies) ∧
  own_keys dual_world pair_cmd ∧
  fresh_copies pair_cmd_after ∧
  mkNode "h" (ex_item "cam" None (5, 7)%Z)
    ∈ Selection.getNodes dual_world (selection pair_cmd) None ∧
  mkNode "v" (ex_item "cam" None (0, 0)%Z)
    ∈ Selection.getNodes dual_world (selection pair_cmd) None ∧
  DualOutput.getNodeDisplay dual_world "h" (sceneId (selection pair_cmd)) = horizontal ∧
  DualOutput.getVerticalNodeId dual_world "h" (sceneId (selection pair_cmd))
  = Some "v"%string ∧
  ∃ h' v' calls,
    nodeIdsMap pair_cmd_after !! "h"%string = Some h' ∧
    nodeIdsMap pair_cmd_after !! "v"%string = Some v' ∧
    h' ≠ "h"%string ∧ v' ≠ "v"%string ∧
    journal dual_after = journal dual_world ++ calls ∧
    CreateNodeMapEntry (destSceneId pair_cmd) (Some h') (Some v') ∈ calls ∧
    DualOutput.nodeMap dual_after (destSceneId pair_cmd) !! Some h' = Some (Some v').
Proof.
  assert (Hrun : execute dual_world pair_cmd = Ok (dual_after, pair_cmd_after, pair_copies))
    by (vm_compute; reflexivity).
  assert (Hfresh : fresh_copies pair_cmd_after)
    by (split; apply (bool_decide_unpack _); vm_compute; exact I).
  assert (Hh : mkNode "h" (ex_item "cam" None (5, 7)%Z)
               ∈ Selection.getNodes dual_world (selection pair_cmd) None)
    by (apply (bool_decide_unpack _); vm_compute; exact I).
  assert (Hv : mkNode "v" (ex_item "cam" None (0, 0)%Z)
               ∈ Selection.getNodes dual_world (selection pair_cmd) None)
    by (apply (bool_decide_unpack _); vm_compute; exact I).
  assert (Hin : ∃ origin, Selection.getScene dual_world (selection pair_cmd) = Some origin ∧
                          "h"%string ∈ Scene.getNodesIds origin).
  { exists dual_scene. split; [vm_compute; reflexivity|].
    apply (bool_decide_unpack _). vm_compute. exact I. }
  assert (Hd : DualOutput.getNodeDisplay dual_world "h" (sceneId (selection pair_cmd))
               = horizontal) by (vm_compute; reflexivity).
  assert (Ht : DualOutput.getVerticalNodeId dual_world "h" (sceneId (selection pair_cmd))
               = Some "v"%string) by (vm_compute; reflexivity).
  split_and!; [reflexivity|reflexivity|exact Hrun|exact own_keys_pair|exact Hfresh
               |exact Hh|exact Hv|exact Hd|exact Ht|].
  exact (C4_pairs_new_ids dual_world pair_cmd _ _ _ _ _
           eq_refl eq_refl Hrun own_keys_pair Hfresh Hh Hv Hin Hd Ht).
Defined.

(** C5.  The claim is that every node-map entry registered by [execute]
    links a horizontal node id to a defined, distinct vertical node id.
    The order walk registers an entry for every horizontal node of the
    source scene, copied or not: pasting the pair h/v of a scene that also
    holds the pair x/y registers, next to the entry for the new pair, an
    entry whose two ids are undefined, for the horizontal node x that was
    not selected. *)
Theorem C5_entry_with_undefined_ids :
  execute dual_world pair_cmd = Ok (dual_after, pair_cmd_after, pair_copies) ∧
  ("x"%string ∉ sel_ids (selection pair_cmd)) ∧
  DualOutput.getNodeDisplay dual_world "x" "S" = horizontal ∧
  nodeIdsMap pair_cmd_after !! "x"%string = None ∧
  journal dual_after
  = [CreateNodeMapEntry "D" (Some "id-1"%string) (Some "id-2"%string);
     CreateNodeMapEntry "D" None None] ∧
  DualOutput.nodeMap dual_after "D" !! None = Some None.
Proof.
  split_and!; try (vm_compute; reflexivity).
  apply (bool_decide_unpack _). vm_compute. exact I.
Qed.

(** C6, as amended.  [rollback] removes the whole node map of the
    destination scene whenever that scene has one when [rollback] runs,
    whoever registered its entries; the node maps of the other scenes are
    left as they are, and nothing changes when the destination scene has
    no node map. *)
Theorem C6_rollback_removes_node_map w c s :
  scenes w !! destSceneId c = Some s →
  ∃ w', rollback w c = Ok w' ∧
    DualOutput.hasNodeMap w' (destSceneId c) = false ∧
    (∀ sc, sc ≠ destSceneId c → sceneNodeMaps w' !! sc = sceneNodeMaps w !! sc) ∧
    (DualOutput.hasNodeMap w (destSceneId c) = false → sceneNodeMaps w' = sceneNodeMaps w) ∧
    (DualOutput.hasNodeMap w (destSceneId c) = true →
     sceneNodeMaps w' !! destSceneId c = None ∧
     ∃ calls, journal w' = journal w ++ calls ∧ RemoveNodeMap (destSceneId c) ∈ calls).
Proof.
  intros Hs.
  destruct (rollback_spec _ _ _ Hs) as (w' & s' & Hrb & _ & _ & _ & Hnm & Hj).
  exists w'. split; [done|].
  destruct (DualOutput.hasNodeMap w (destSceneId c)) eqn:Hh.
  - split_and!; try done.
    + unfold DualOutput.hasNodeMap, DualOutput.nodeMap. rewrite Hnm, lookup_delete_eq.
      simpl. by rewrite bool_decide_false by (intros H; by apply H).
    + intros sc Hsc. by rewrite Hnm, lookup_delete_ne.
    + intros _. split; [by rewrite Hnm, lookup_delete_eq|].
      eexists. split; [exact Hj|]. by left.
  - split_and!; try done.
    + unfold DualOutput.hasNodeMap, DualOutput.nodeMap in *. by rewrite Hnm.
    + intros sc _. by rewrite Hnm.
Qed.

Lemma C6_rollback_removes_node_map_witness :
  scenes mapped_dest_after !! destSceneId paste_cmd_after
  = Some (mkScene (<["id-1"%string := mkNodeData false "Camera" "cam" None
                                        (mkSettings (5, 7)%Z true
                                           (Some "horizontal-context"%string)
                                           (Some horizontal))]>
                     (sc_nodes ex_dest))
                  ["id-1"; "z"]%string) ∧
  ∃ w', rollback mapped_dest_after paste_cmd_after = Ok w' ∧
    DualOutput.hasNodeMap w' (destSceneId paste_cmd_after) = false ∧
    (∀ sc, sc ≠ destSceneId paste_cmd_after →
           sceneNodeMaps w' !! sc = sceneNodeMaps mapped_dest_after !! sc) ∧
    (DualOutput.hasNodeMap mapped_dest_after (destSceneId paste_cmd_after) = false →
     sceneNodeMaps w' = sceneNodeMaps mapped_dest_after) ∧
    (DualOutput.hasNodeMap mapped_dest_after (destSceneId paste_cmd_after) = true →
     sceneNodeMaps w' !! destSceneId paste_cmd_after = None ∧
     ∃ calls, journal w' = journal mapped_dest_after ++ calls ∧
              RemoveNodeMap (destSceneId paste_cmd_after) ∈ calls).
Proof.
  assert (Hs : scenes mapped_dest_after !! destSceneId paste_cmd_after
               = Some (mkScene (<["id-1"%string := mkNodeData false "Camera" "cam" None
                                        (mkSettings (5, 7)%Z true
                                           (Some "horizontal-context"%string)
                                           (Some horizontal))]>
                                  (sc_nodes ex_dest))
                               ["id-1"; "z"]%string))
    by (vm_compute; reflexivity).
  split; [exact Hs|].
  exact (C6_rollback_removes_node_map mapped_dest_after paste_cmd_after _ Hs).
Defined.

(** C6, as stated, fails: the destination scene D has a node map before
    the paste, [execute] registers no entry and leaves every node map as it
    was, and [rollback] removes the node map of D all the same. *)
Lemma C6_preexisting_node_map_removed :
  execute mapped_dest_world paste_cmd
  = Ok (mapped_dest_after, paste_cmd_after, paste_copies) ∧
  DualOutput.nodeMap mapped_dest_world "D" !! Some "z"%string = Some (Some "zv"%string) ∧
  sceneNodeMaps mapped_dest_after = sceneNodeMaps mapped_dest_world ∧
  journal mapped_dest_after = journal mapped_dest_world ∧
  rollback mapped_dest_after paste_cmd_after = Ok mapped_dest_undone ∧
  DualOutput.nodeMap mapped_dest_undone "D" !! Some "z"%string = None ∧
  DualOutput.hasNodeMap mapped_dest_undone "D" = false ∧
  journal mapped_dest_undone = [RemoveNodeMap "D"].
Proof. split_and!; vm_compute; reflexivity. Qed.

(** C7.  When the duplication of sources is requested, the source table
    holds exactly one entry per distinct source of the selection, each
    source having been asked once for a duplicate; a source marked
    non-duplicable is mapped to itself, and the copy of an item that
    references it references the original source; every item copy
    references the source that the table gives for the original's source.
    The copies are taken to have pairwise distinct ids, different from the
    ids of the selected nodes, and no key of a table access to name an
    inherited member. *)
Theorem C7_non_duplicable_sources w c w1 c1 ins :
  duplicateSources c = true →
  execute w c = Ok (w1, c1, ins) →
  own_keys w c →
  fresh_copies c1 →
  ∃ m rest,
    sourceIdsMap c1 = Some m ∧
    dom m = list_to_set (sourceId <$> Selection.getSources w (selection c)) ∧
    size m = length (Selection.getSources w (selection c)) ∧
    journal w1 = journal w
                 ++ ((λ s, Duplicate (sourceId s) None) <$> Selection.getSources w (selection c))
                 ++ rest ∧
    Forall (λ ev, ∀ s h, ev ≠ Duplicate s h) rest ∧
    (∀ s, s ∈ Selection.getSources w (selection c) →
          src_doNotDuplicate (source_data s) = true → m !! sourceId s = Some (sourceId s)) ∧
    (∀ n cpy, n ∈ copied w c → isFolder n = false → nodeIdsMap c1 !! id n = Some cpy →
       ∃ s1 d, scenes w1 !! destSceneId c = Some s1 ∧ sc_nodes s1 !! cpy = Some d ∧
         m !! node_sourceId n = Some (nd_sourceId d) ∧
         (∀ sd, sources w !! node_sourceId n = Some sd → src_doNotDuplicate sd = true →
                nd_sourceId d = node_sourceId n)).
Proof.
  intros Hdup Hrun _ Hfresh.
  destruct (execute_sources _ _ _ _ _ Hdup Hrun) as (m & Hm & Hout & Hin & Hnd).
  destruct (execute_journal _ _ _ _ _ Hrun) as (walks & Hj & _ & Hwalks & _).
  assert (Hdom : dom m = list_to_set (sourceId <$> Selection.getSources w (selection c))).
  { apply set_eq. intros k. rewrite elem_of_dom, elem_of_list_to_set. split.
    - intros Hk. destruct (decide (k ∈ sourceId <$> Selection.getSources w (selection c)))
        as [?|Hn]; [done|]. rewrite (Hout _ Hn) in Hk. by destruct Hk.
    - intros (s & -> & Hs)%list_elem_of_fmap. by apply Hin. }
  exists m, (create_calls w c ins ++ walks). split_and!; try done.
  - rewrite <- size_dom, Hdom, size_list_to_set, length_fmap; [done|].
    apply getSources_NoDup.
  - rewrite Hj. unfold dup_calls. by rewrite Hdup.
  - apply Forall_app. split.
    + unfold create_calls. destruct (_ && _); [|constructor].
      apply Forall_fmap, Forall_forall. by intros.
    + eapply Forall_impl; [exact Hwalks|]. by intros ev (o & tw & ->).
  - intros n cpy Hn Hf Hcpy.
    destruct (execute_copy _ _ _ _ _ n cpy Hrun Hfresh Hn Hcpy)
      as (s1 & d & Hs1 & Hd & _ & _ & Hsrc & _).
    specialize (Hsrc Hf). unfold resolve_source in Hsrc. rewrite Hm in Hsrc.
    exists s1, d. split_and!; try done.
    intros sd Hsd Hflag.
    pose proof (getSources_elem _ _ _ _ (getNodes_all _ _ _ _ Hn) Hf Hsd) as Hs.
    specialize (Hnd _ Hs Hflag). simpl in Hnd. congruence.
Qed.

Lemma C7_non_duplicable_sources_witness :
  duplicateSources plain_cmd = true ∧
  execute plain_world plain_cmd = Ok (plain_after, plain_cmd_after, plain_copies) ∧
  own_keys plain_world plain_cmd ∧
  fresh_copies plain_cmd_after ∧
  ∃ m rest,
    sourceIdsMap plain_cmd_after = Some m ∧
    dom m = list_to_set (sourceId <$> Selection.getSources plain_world (selection plain_cmd)) ∧
    size m = length (Selection.getSources plain_world (selection plain_cmd)) ∧
    journal plain_after
    = journal plain_world
      ++ ((λ s, Duplicate (sourceId s) None)
            <$> Selection.getSources plain_world (selection plain_cmd))
      ++ rest ∧
    Forall (λ ev, ∀ s h, ev ≠ Duplicate s h) rest ∧
    (∀ s, s ∈ Selection.getSources plain_world (selection plain_cmd) →
          src_doNotDuplicate (source_data s) = true → m !! sourceId s = Some (sourceId s)) ∧
    (∀ n cpy, n ∈ copied plain_world plain_cmd → isFolder n = false →
       nodeIdsMap plain_cmd_after !! id n = Some cpy →
       ∃ s1 d, scenes plain_after !! destSceneId plain_cmd = Some s1 ∧
         sc_nodes s1 !! cpy = Some d ∧
         m !! node_sourceId n = Some (nd_sourceId d) ∧
         (∀ sd, sources plain_world !! node_sourceId n = Some sd →
                src_doNotDuplicate sd = true → nd_sourceId d = node_sourceId n)).
Proof.
  assert (Hrun : execute plain_world plain_cmd
                 = Ok (plain_after, plain_cmd_after, plain_copies))
    by (vm_compute; reflexivity).
  assert (Hfresh : fresh_copies plain_cmd_after)
    by (split; apply (bool_decide_unpack _); vm_compute; exact I).
  split_and!; [reflexivity|exact Hrun|exact own_keys_plain|exact Hfresh|].
  exact (C7_non_duplicable_sources plain_world plain_cmd _ _ _ eq_refl Hrun
           own_keys_plain Hfresh).
Defined.

(** C8.  The claim is that the relinking pass leaves the copy of a selected
    node a root, without an error, when the parent was not copied, and
    attaches it under the copy of the parent otherwise.  The pass runs over
    the whole selection, while the creation pass of a copy that is not a
    migration leaves out, in single-output mode, the selected nodes that do
    not belong to the active display.  The folder f and the item a in it
    are selected, a being vertical and the active display horizontal: the
    creation pass copies f alone, and for a the relinking callback finds
    the copy of the parent but no copy of the node, on which it calls
    [setParent]: [execute] throws a [TypeError]. *)
Theorem C8_relink_throws :
  dualOutputMode filtered_world = false ∧
  activeDisplay filtered_world = horizontal ∧
  DualOutput.getNodeDisplay filtered_world "a" "S" = vertical ∧
  Selection.getNodes filtered_world (selection filtered_cmd) None
  = [mkNode "f" (ex_folder "Group" None);
     mkNode "a" (ex_item "cam" (Some "f"%string) (5, 7)%Z)] ∧
  copied filtered_world filtered_cmd = [mkNode "f" (ex_folder "Group" None)] ∧
  forEach copy_node (copied filtered_world filtered_cmd) (filtered_world, filtered_cmd, [])
  = Ok filtered_created ∧
  filtered_created.2 = ["id-1"]%string ∧
  map_to_list (nodeIdsMap filtered_created.1.2) = [("f", "id-1")]%string ∧
  parentId (mkNode "a" (ex_item "cam" (Some "f"%string) (5, 7)%Z)) = Some "f"%string ∧
  relink_node filtered_created.1.2 filtered_created.1.1
    (mkNode "f" (ex_folder "Group" None)) = Ok filtered_created.1.1 ∧
  relink_node filtered_created.1.2 filtered_created.1.1
    (mkNode "a" (ex_item "cam" (Some "f"%string) (5, 7)%Z)) = Throw TypeError ∧
  execute filtered_world filtered_cmd = Throw TypeError.
Proof. split_and!; vm_compute; reflexivity. Qed.

(** C9.  The claim is that both id tables outlive [rollback] and are the
    id hints of the next [execute], so that redo recreates the nodes under
    the same ids and requests the duplicates of the sources with the same
    id hints.  The node id table does; the source id table is emptied at
    the start of every [execute] that duplicates sources, before the hint
    of the first duplicate is read from it.  In execute(); rollback();
    execute() on the first example, every duplicate is requested without a
    hint in both executions: the copy of the item a is recreated under the
    same node id, id-3, and references the source id-1 after the first
    execution, which [rollback] reclaims, and the source id-5 after the
    second. *)
Theorem C9_redo_duplicates_anew :
  duplicateSources plain_cmd = true ∧
  execute plain_world plain_cmd = Ok (plain_after, plain_cmd_after, plain_copies) ∧
  map_to_list <$> sourceIdsMap plain_cmd_after
  = Some [("cam", "id-1"); ("mic", "mic")]%string ∧
  rollback plain_after plain_cmd_after = Ok plain_undone ∧
  sources plain_undone !! "id-1"%string = None ∧
  execute plain_undone plain_cmd_after = Ok (plain_redone, plain_cmd_redone, plain_recopies) ∧
  journal plain_redone
  = [Duplicate "cam" None; Duplicate "mic" None;
     Duplicate "cam" None; Duplicate "mic" None]%string ∧
  map_to_list <$> sourceIdsMap plain_cmd_redone
  = Some [("cam", "id-5"); ("mic", "mic")]%string ∧
  nodeIdsMap plain_cmd_after !! "a"%string = Some "id-3"%string ∧
  nodeIdsMap plain_cmd_redone !! "a"%string = Some "id-3"%string ∧
  (scenes plain_after !! "D"%string) ≫= (λ s, nd_sourceId <$> sc_nodes s !! "id-3"%string)
  = Some "id-1"%string ∧
  (scenes plain_redone !! "D"%string) ≫= (λ s, nd_sourceId <$> sc_nodes s !! "id-3"%string)
  = Some "id-5"%string ∧
  sources plain_redone !! "id-1"%string = None.
Proof. split_and!; vm_compute; reflexivity. Qed.

(** C10.  [rollback] returns whenever the destination scene exists,
    whether or not the recorded ids still name nodes: the callback leaves
    the services untouched for an id that names no node, and afterwards the
    destination scene holds exactly its former nodes minus those recorded
    in the table.  With an empty table, as for a command that was never
    executed, no node is removed. *)
Theorem C10_rollback_total w c s :
  scenes w !! destSceneId c = Some s →
  ∃ w' s', rollback w c = Ok w' ∧ scenes w' !! destSceneId c = Some s' ∧
    (∀ i, sc_nodes s !! i = None → remove_node c w i = w) ∧
    (∀ i, sc_nodes s' !! i
          = if decide (i ∈ values (nodeIdsMap c)) then None else sc_nodes s !! i) ∧
    (nodeIdsMap c = ∅ → scenes w' = scenes w) ∧
    (∀ w0 sel dup disp,
       ∃ w'', rollback w (new w0 sel (destSceneId c) dup disp) = Ok w'' ∧
              scenes w'' = scenes w).
Proof.
  intros Hs.
  assert (Hempty : ∀ c', destSceneId c' = destSceneId c → nodeIdsMap c' = ∅ →
                         ∃ w'', rollback w c' = Ok w'' ∧ scenes w'' = scenes w).
  { intros c' Hd He. rewrite <- Hd in Hs.
    destruct (rollback_spec _ _ _ Hs) as (w'' & s'' & Hrb & Hsc & Hnodes & Hord & _).
    exists w''. split; [done|]. rewrite Hsc. apply insert_id. rewrite Hs. f_equal.
    rewrite He, map_to_list_empty in Hnodes, Hord. simpl in *.
    destruct s as [N O], s'' as [N' O']. simpl in *. f_equal.
    - symmetry. apply map_eq. intros i. by rewrite Hnodes.
    - rewrite Hord. symmetry. apply filter_all. intros j _ [Hj _]. by apply elem_of_nil in Hj. }
  destruct (rollback_spec _ _ _ Hs) as (w' & s' & Hrb & Hsc & Hnodes & _).
  exists w', s'. split_and!; try done.
  - by rewrite Hsc, lookup_insert_eq.
  - intros i Hi. unfold remove_node. rewrite (getNode_dest _ _ _ _ Hs). simpl. by rewrite Hi.
  - intros He. destruct (Hempty c eq_refl He) as (w'' & Hrb' & ?). congruence.
  - intros w0 sel dup disp. by apply Hempty.
Qed.

Lemma C10_rollback_total_witness :
  scenes plain_undone !! destSceneId plain_cmd_after = Some ex_dest ∧
  ∃ w' s', rollback plain_undone plain_cmd_after = Ok w' ∧
    scenes w' !! destSceneId plain_cmd_after = Some s' ∧
    (∀ i, sc_nodes ex_dest !! i = None → remove_node plain_cmd_after plain_undone i = plain_undone) ∧
    (∀ i, sc_nodes s' !! i
          = if decide (i ∈ values (nodeIdsMap plain_cmd_after)) then None
            else sc_nodes ex_dest !! i) ∧
    (nodeIdsMap plain_cmd_after = ∅ → scenes w' = scenes plain_undone) ∧
    (∀ w0 sel dup disp,
       ∃ w'', rollback plain_undone (new w0 sel (destSceneId plain_cmd_after) dup disp)
              = Ok w'' ∧
              scenes w'' = scenes plain_undone).
Proof.
  assert (Hs : scenes plain_undone !! destSceneId plain_cmd_after = Some ex_dest)
    by (vm_compute; reflexivity).
  split; [exact Hs|].
  exact (C10_rollback_total plain_undone plain_cmd_after _ Hs).
Defined.

(** * Further properties of the command *)

(** ** Helper lemmas *)

Lemma replay_other sc d m calls :
  sc ≠ d →
  Forall (λ ev, ∃ h v, ev = CreateNodeMapEntry d h v) calls →
  replay sc m calls = m.
Proof.
  intros Hne Hall. revert m.
  induction Hall as [|ev calls (h & v & ->) _ IH]; intros m; [done|].
  unfold replay in *. simpl. rewrite decide_False by done. apply IH.
Qed.

Lemma create_calls_dest w c ins :
  Forall (λ ev, ∃ h v, ev = CreateNodeMapEntry (destSceneId c) h v) (create_calls w c ins).
Proof.
  unfold create_calls. destruct (_ && _); [|constructor].
  unfold entries_of. apply Forall_fmap, Forall_forall. intros p _. simpl. by eexists _, _.
Qed.

Lemma remove_node_absent c w i s :
  scenes w !! destSceneId c = Some s → sc_nodes s !! i = None → remove_node c w i = w.
Proof.
  intros Hs Hi. unfold remove_node. rewrite (getNode_dest _ _ _ _ Hs). simpl. by rewrite Hi.
Qed.

Lemma remove_pass_absent c l w s :
  scenes w !! destSceneId c = Some s →
  Forall (λ i, sc_nodes s !! i = None) l →
  foldl (remove_node c) w l = w.
Proof.
  intros Hs Hall. induction Hall as [|i l Hi _ IH]; [done|].
  cbn [foldl]. by rewrite (remove_node_absent _ _ _ _ Hs Hi).
Qed.

Lemma setNodesOrder_same w sc s :
  scenes w !! sc = Some s → Scene.setNodesOrder w sc (sc_order s) = w.
Proof.
  intros Hs. unfold Scene.setNodesOrder, with_scenes.
  rewrite alter_id; [by destruct w|].
  intros x Hx. rewrite Hs in Hx. injection Hx as <-. by destruct s.
Qed.

Lemma getNodes_intro w sel s i d :
  scenes w !! sceneId sel = Some s → i ∈ sel_ids sel → sc_nodes s !! i = Some d →
  mkNode i d ∈ Selection.getNodes w sel None.
Proof.
  intros Hs Hi Hd. unfold Selection.getNodes. rewrite Hs.
  apply list_elem_of_omap. exists i. split; [done|]. by rewrite Hd.
Qed.

Lemma getSources_present w sel :
  Forall (λ s, is_Some (sources w !! sourceId s)) (Selection.getSources w sel).
Proof.
  apply Forall_forall. intros s Hs. unfold Selection.getSources in Hs.
  apply list_elem_of_omap in Hs as (i & _ & Hi).
  destruct (sources w !! i) eqn:Hd; simplify_eq/=. by rewrite Hd.
Qed.

(** *** Passes that return *)

Lemma duplicate_pass_present srcs : ∀ w c w' c' m0,
  foldl duplicate_source (w, c) srcs = (w', c') →
  sourceIdsMap c = Some m0 →
  (∀ k v, m0 !! k = Some v → is_Some (sources w !! v)) →
  Forall (λ s, is_Some (sources w !! sourceId s)) srcs →
  ∃ m', sourceIdsMap c' = Some m' ∧
    (∀ k v, m' !! k = Some v → is_Some (sources w' !! v)).
Proof.
  induction srcs as [|s srcs IH]; intros w c w' c' m0 Hrun Hm0 Hpres Hall.
  - simpl in Hrun. simplify_eq. by exists m0.
  - cbn [foldl] in Hrun. apply Forall_cons in Hall as [Hs Hall].
    destruct (duplicate_source (w, c) s) as [w2 c2] eqn:Hstep.
    unfold duplicate_source in Hstep. rewrite Hm0 in Hstep. simpl in Hstep.
    unfold Sources.duplicate in Hstep.
    destruct (src_doNotDuplicate (source_data s)).
    + injection Hstep as <- <-.
      apply (IH _ _ _ _ (<[sourceId s := sourceId s]> m0) Hrun); [done| |done].
      intros k v Hk. simpl. destruct (decide (k = sourceId s)) as [->|Hne].
      * rewrite lookup_insert_eq in Hk. by simplify_eq.
      * rewrite lookup_insert_ne in Hk by done. by apply (Hpres k).
    + destruct (take_id _ _) as [w3 i] eqn:Hid. injection Hstep as <- <-.
      assert (Hsrc : sources w3 = sources w).
      { unfold take_id in Hid. destruct (m0 !! sourceId s); by simplify_eq. }
      apply (IH _ _ _ _ (<[sourceId s := i]> m0) Hrun); [done| |].
      * intros k v Hk. simpl. rewrite Hsrc.
        destruct (decide (k = sourceId s)) as [->|Hne].
        -- rewrite lookup_insert_eq in Hk. simplify_eq. by rewrite lookup_insert_eq.
        -- rewrite lookup_insert_ne in Hk by done.
           destruct (decide (i = v)) as [->|Hiv]; [by rewrite lookup_insert_eq|].
           rewrite lookup_insert_ne by done. by apply (Hpres k).
      * eapply Forall_impl; [exact Hall|]. intros s' Hs'. simpl. rewrite Hsrc.
        destruct (decide (i = sourceId s')) as [->|Hiv]; [by rewrite lookup_insert_eq|].
        by rewrite lookup_insert_ne.
Qed.

Lemma create_node_Ok mig w c ins n :
  (isFolder n = false →
   ∃ sid, resolve_source c n = Some sid ∧ is_Some (sources w !! sid)) →
  ∃ r, create_node mig (w, c, ins) n = Ok r.
Proof.
  intros Hsrc. unfold create_node. destruct (isFolder n).
  - destruct (Scene.createFolder _ _ _ _). by eexists.
  - destruct (Hsrc eq_refl) as (sid & -> & [sd Hsd]).
    unfold Scene.addSource. rewrite Hsd. destruct (take_id _ _). simpl. by eexists.
Qed.

Lemma create_pass_Ok mig L : ∀ w c ins s,
  scenes w !! destSceneId c = Some s →
  Forall (λ n, isFolder n = false →
               ∃ sid, resolve_source c n = Some sid ∧ is_Some (sources w !! sid)) L →
  ∃ r, forEach (create_node mig) L (w, c, ins) = Ok r.
Proof.
  induction L as [|n L IH]; intros w c ins s Hs Hall; [by eexists|].
  apply Forall_cons in Hall as [Hn Hall].
  destruct (create_node_Ok mig w c ins n Hn) as ([[w2 c2] ins2] & Hstep).
  destruct (create_node_spec _ _ _ _ _ _ _ _ _ Hstep Hs)
    as (d & _ & -> & -> & Hsc & Hsrc & _).
  cbn [forEach]. rewrite Hstep. simpl.
  eapply IH.
  - rewrite Hsc. simpl. apply lookup_insert_eq.
  - rewrite Hsrc. exact Hall.
Qed.

Lemma relink_pass_Ok c L : ∀ w s,
  scenes w !! destSceneId c = Some s →
  Forall (λ n, ∃ m, nodeIdsMap c !! id n = Some m ∧ is_Some (sc_nodes s !! m)) L →
  ∃ w', forEach (relink_node c) L w = Ok w'.
Proof.
  induction L as [|n L IH]; intros w s Hs Hall; [by eexists|].
  apply Forall_cons in Hall as [(m & Hm & [dm Hdm]) Hall].
  assert (Hstep : ∃ w2, relink_node c w n = Ok w2).
  { unfold relink_node. rewrite Hm. rewrite !(getNode_dest _ _ _ _ Hs). simpl.
    rewrite Hdm. simpl. destruct (if truthy _ then _ else _); by eexists. }
  destruct Hstep as [w2 Hstep].
  assert (Hone : forEach (relink_node c) [n] w = Ok w2) by (simpl; by rewrite Hstep).
  destruct (relink_pass_spec _ _ _ _ _ Hone Hs) as (s' & Hsc & _ & Hdom & _).
  cbn [forEach]. rewrite Hstep. simpl.
  apply (IH w2 s'); [by rewrite Hsc, lookup_insert_eq|].
  eapply Forall_impl; [exact Hall|]. intros n' (m' & Hm' & [d' Hd']).
  exists m'. split; [done|]. specialize (Hdom m'). rewrite Hd' in Hdom.
  destruct Hdom as (d'' & -> & _). by eexists.
Qed.

(** *** The settings of a copy *)

Lemma create_node_settings mig w c ins n w' c' ins' s :
  create_node mig (w, c, ins) n = Ok (w', c', ins') →
  scenes w !! destSceneId c = Some s →
  ∃ d, copy_settings mig w c n d ∧
    scenes w' !! destSceneId c
    = Some (mkScene (<[default (uuid w (uuid_seed w)) (nodeIdsMap c !! id n) := d]>
                       (sc_nodes s))
                    (default (uuid w (uuid_seed w)) (nodeIdsMap c !! id n) :: sc_order s)).
Proof.
  intros Hstep Hs. unfold create_node in Hstep.
  destruct (isFolder n) eqn:Hf.
  - exists (mkNodeData true (name n) "" None
              (mkSettings (0, 0)%Z true None (Some (resolve_display w c n)))).
    split; [by unfold copy_settings; rewrite Hf|].
    unfold Scene.createFolder in Hstep.
    destruct (nodeIdsMap c !! id n) as [h|] eqn:Hh; simpl in Hstep;
      destruct (mig && bool_decide (display c = Some vertical)); simplify_eq/=;
      by rewrite (alter_add_node _ _ _ _ _ Hs), alter_node_insert, lookup_insert_eq.
  - unfold Scene.addSource in Hstep.
    destruct (resolve_source c n) as [sid|] eqn:Hsid; [|done].
    destruct (sources w !! sid) as [src|] eqn:Hsrc; [|done].
    exists (mkNodeData false (src_name src) sid None
              (mkSettings
                 (if mig && bool_decide (display c = Some vertical)
                  then (0, 0)%Z else st_position (getSettings n))
                 (st_visible (getSettings n))
                 (contexts w (resolve_display w c n)) (Some (resolve_display w c n)))).
    split.
    { unfold copy_settings. rewrite Hf.
      cbn [nd_settings st_display st_output st_visible st_position].
      split_and!; try done. intros _. split_and!; try done. intros H. by rewrite H. }
    destruct (nodeIdsMap c !! id n) as [h|] eqn:Hh; simpl in Hstep;
      destruct (mig && bool_decide (display c = Some vertical)); simplify_eq/=;
      by rewrite (alter_add_node _ _ _ _ _ Hs), !alter_node_insert, lookup_insert_eq.
Qed.

Lemma copy_settings_ext mig w w' c c' n d :
  display c' = display c → contexts w' = contexts w →
  (display c = None → sceneNodeMaps w' = sceneNodeMaps w) →
  selection c' = selection c →
  copy_settings mig w' c' n d → copy_settings mig w c n d.
Proof.
  intros Hd Hctx Hnm Hsel. unfold copy_settings.
  assert (Heq : resolve_display w' c' n = resolve_display w c n).
  { unfold resolve_display. rewrite Hd, Hsel. destruct (display c); [done|]. simpl.
    unfold DualOutput.getNodeDisplay, DualOutput.nodeMap. by rewrite Hnm. }
  by rewrite Heq, Hctx, Hd.
Qed.

Lemma create_pass_settings mig L : ∀ w c ins w' c' ins' s,
  forEach (create_node mig) L (w, c, ins) = Ok (w', c', ins') →
  scenes w !! destSceneId c = Some s →
  functional L →
  ∀ n cpy, n ∈ L →
    nodeIdsMap c' !! id n = Some cpy →
    (∀ k, nodeIdsMap c' !! k = Some cpy → k = id n) →
    ∃ s' d, scenes w' !! destSceneId c = Some s' ∧ sc_nodes s' !! cpy = Some d ∧
            copy_settings mig w c n d.
Proof.
  induction L as [|n0 L IH]; intros w c ins w' c' ins' s Hrun Hs Hfun n cpy Hn Hcpy Hinj.
  - by apply elem_of_nil in Hn.
  - apply forEach_cons in Hrun as ([[w2 c2] ins2] & Hstep & Hrun).
    destruct (create_node_settings _ _ _ _ _ _ _ _ _ Hstep Hs) as (d & Hd & Hs2).
    destruct (create_node_spec _ _ _ _ _ _ _ _ _ Hstep Hs)
      as (_ & _ & -> & -> & _ & _ & Hnm & _ & _ & _ & Hctx & _).
    set (cpy0 := default (uuid w (uuid_seed w)) (nodeIdsMap c !! id n0)) in *.
    change (destSceneId c) with (destSceneId (set_nodeId (id n0) cpy0 c)) in Hs2.
    destruct (decide (id n ∈ id <$> L)) as [Hin|Hnin].
    + apply list_elem_of_fmap in Hin as (n' & Hid & Hn').
      assert (n = n') as <-.
      { apply Hfun; [done|by right|done]. }
      assert (HfunL : functional L).
      { intros a b Ha Hb. apply Hfun; by right. }
      destruct (IH _ _ _ _ _ _ _ Hrun Hs2 HfunL n cpy Hn' Hcpy Hinj)
        as (s' & d' & ? & ? & Hc).
      exists s', d'. split_and!; try done.
      apply (copy_settings_ext _ _ w2 _ (set_nodeId (id n0) cpy0 c)); try done.
      intros Hnone. rewrite Hnm. unfold entry_maps. rewrite Hnone.
      rewrite bool_decide_false by done. by rewrite andb_false_r.
    + assert (n = n0) as ->.
      { apply elem_of_cons in Hn as [?|Hn]; [done|].
        exfalso. apply Hnin. apply list_elem_of_fmap. by exists n. }
      destruct (create_pass_spec _ _ _ _ _ _ _ _ _ Hrun Hs2)
        as (s' & cs & _ & _ & _ & Hmono & _ & Hall & Hsc' & _ & Hfr & _).
      simpl in *.
      assert (cpy = cpy0) as ->.
      { specialize (Hmono (id n0) cpy0). rewrite lookup_insert_eq in Hmono.
        specialize (Hmono eq_refl). congruence. }
      exists s', d. split_and!; try done.
      * by rewrite Hsc', lookup_insert_eq.
      * rewrite Hfr; [by rewrite lookup_insert_eq|].
        intros Hc. destruct (Forall2_elem_of_r _ _ _ _ Hall Hc) as (n' & Hn' & Hk).
        apply Hinj in Hk. apply Hnin. apply list_elem_of_fmap. by exists n'.
Qed.

(** *** The table and the sources *)

Lemma create_pass_keys mig L : ∀ w c ins w' c' ins' s,
  forEach (create_node mig) L (w, c, ins) = Ok (w', c', ins') →
  scenes w !! destSceneId c = Some s →
  ∀ k, is_Some (nodeIdsMap c' !! k) → is_Some (nodeIdsMap c !! k) ∨ k ∈ id <$> L.
Proof.
  induction L as [|n L IH]; intros w c ins w' c' ins' s Hrun Hs k Hk.
  - simplify_eq/=. by left.
  - apply forEach_cons in Hrun as ([[w2 c2] ins2] & Hstep & Hrun).
    destruct (create_node_spec _ _ _ _ _ _ _ _ _ Hstep Hs)
      as (d & _ & -> & -> & Hsc & _).
    assert (Hs2 : is_Some (scenes w2 !! destSceneId c)).
    { rewrite Hsc, lookup_insert_eq. by eexists. }
    destruct Hs2 as [s2 Hs2].
    destruct (IH _ _ _ _ _ _ s2 Hrun Hs2 k Hk) as [Hold|Hin].
    + simpl in Hold. destruct (decide (k = id n)) as [->|Hne].
      * right. rewrite fmap_cons. by left.
      * rewrite lookup_insert_ne in Hold by done. by left.
    + right. rewrite fmap_cons. by right.
Qed.


Lemma execute_sources_kept w c w1 c1 ins :
  execute w c = Ok (w1, c1, ins) →
  ∃ wd cd, (wd, cd) = (if duplicateSources c
                       then foldl duplicate_source (w, set_sourceIdsMap ∅ c)
                                  (Selection.getSources w (selection c))
                       else (w, c)) ∧
    sources w1 = sources wd ∧ sourceIdsMap c1 = sourceIdsMap cd.
Proof.
  intros Hrun.
  destruct (execute_stages _ _ _ _ _ Hrun)
    as (s0 & wd & cd & wc & cc & wr & origin & wm & mapped
        & Hs0 & Hdup & Hcreate & Hc1 & Hrelink & Horigin & Hwalk & ->).
  exists wd, cd. split; [done|].
  destruct (duplicate_stage _ _ _ _ Hdup) as ((Hdsc & _) & (_ & Hdest & _)).
  assert (Hsd : scenes wd !! destSceneId cd = Some s0) by by rewrite Hdsc, Hdest.
  destruct (create_pass_spec _ _ _ _ _ _ _ _ _ Hcreate Hsd)
    as (sc & cs & _ & (_ & Hdest' & _ & _ & Hsrc' & _) & (Hcs & _) & _ & _ & _ & Hscc & _).
  assert (Hp1 : destSceneId c1 = destSceneId cd ∧ sourceIdsMap c1 = sourceIdsMap cd).
  { subst c1. destruct (migrating w cd); simpl; split; congruence. }
  destruct Hp1 as (Hdest1 & Hsrc1).
  assert (Hsc2 : scenes wc !! destSceneId c1 = Some sc).
  { rewrite Hscc, Hdest1. by rewrite lookup_insert_eq. }
  destruct (relink_pass_spec _ _ _ _ _ Hrelink Hsc2)
    as (sr & _ & _ & _ & _ & _ & _ & (Hrs & _)).
  assert (Hwm : sources wm = sources wr).
  { destruct (hasNodeMap c1).
    - symmetry in Hwalk.
      by destruct (reorder_map_spec _ _ _ _ _ Hwalk) as (_ & _ & (? & _) & _).
    - by simplify_eq. }
  split; [|done]. simpl. congruence.
Qed.

(** *** The example generator *)

Lemma gen_inj i j : gen i = gen j → i = j.
Proof. unfold gen. intros [= H]. by apply (inj pretty). Qed.

Lemma gen_fresh j :
  gen j ≠ ""%string ∧ sc_nodes ex_dest !! gen j = None ∧
  (gen j ∉ sc_order ex_dest) ∧ (gen j ∉ ["f"; "a"; "b"]%string) ∧
  ex_sources !! gen j = None.
Proof.
  assert (Hne : ∀ k : string, (∀ s, "id-" +:+ s ≠ k) → gen j ≠ k).
  { intros k Hk. unfold gen. apply Hk. }
  split_and!.
  - apply Hne. intros s. simpl. discriminate.
  - unfold ex_dest. simpl. rewrite lookup_insert_ne; [apply lookup_empty|].
    symmetry. apply Hne. intros s. simpl. discriminate.
  - unfold ex_dest. simpl. intros [H|H]%elem_of_cons; [|by apply elem_of_nil in H].
    revert H. apply Hne. intros s. simpl. discriminate.
  - intros H.
    repeat (apply elem_of_cons in H as [H|H];
            [revert H; apply Hne; intros s; simpl; discriminate|]).
    by apply elem_of_nil in H.
  - unfold ex_sources.
    rewrite !lookup_insert_ne; [apply lookup_empty|..];
      symmetry; apply Hne; intros s; simpl; discriminate.
Qed.

(** *** The requests of the order walk *)

Lemma visit_calls_ext c w w' o :
  DualOutput.nodeMap w' (sceneId (selection c)) = DualOutput.nodeMap w (sceneId (selection c)) →
  visit_calls c w' o = visit_calls c w o.
Proof.
  intros Hnm. unfold visit_calls, DualOutput.getNodeDisplay, DualOutput.getVerticalNodeId.
  by rewrite Hnm.
Qed.

Lemma visit_calls_dest c w o :
  Forall (λ ev, ∃ h v, ev = CreateNodeMapEntry (destSceneId c) h v) (visit_calls c w o).
Proof.
  unfold visit_calls. case_decide; repeat constructor. by eexists _, _.
Qed.

Lemma reorder_map_calls c l : ∀ w w' mapped,
  reorder_map c w l = (w', mapped) →
  sceneId (selection c) ≠ destSceneId c →
  journal w' = journal w ++ flat_map (visit_calls c w) l.
Proof.
  induction l as [|o l IH]; intros w w' mapped Hrun Hne.
  - simpl in Hrun. simplify_eq. simpl. by rewrite app_nil_r.
  - change (reorder_map c w (o :: l))
      with (let '(w2, x) := reorder_visit c w o in
            let '(w3, xs) := reorder_map c w2 l in (w3, x :: xs)) in Hrun.
    destruct (reorder_visit_spec c w o) as (_ & _ & _ & Hj & Hm).
    destruct (reorder_visit c w o) as [w2 x]. simpl in Hj, Hm.
    destruct (reorder_map c w2 l) as [w3 xs] eqn:Hrest. simplify_eq.
    rewrite (IH _ _ _ Hrest Hne), Hj. simpl. rewrite <- app_assoc. do 2 f_equal.
    assert (Hsame : DualOutput.nodeMap w2 (sceneId (selection c))
                    = DualOutput.nodeMap w (sceneId (selection c))).
    { rewrite Hm. apply replay_other with (destSceneId c); [done|apply visit_calls_dest]. }
    clear -Hsame. induction l as [|o' l IH]; [done|]. simpl.
    by rewrite IH, (visit_calls_ext _ _ _ _ Hsame).
Qed.

(** *** The node created for a copied node *)

Lemma create_node_data mig w c ins n w' c' ins' s :
  create_node mig (w, c, ins) n = Ok (w', c', ins') →
  scenes w !! destSceneId c = Some s →
  ∃ d, created_data mig w c n = Some d ∧ nd_parentId d = None ∧
    scenes w' !! destSceneId c
    = Some (mkScene (<[default (uuid w (uuid_seed w)) (nodeIdsMap c !! id n) := d]>
                       (sc_nodes s))
                    (default (uuid w (uuid_seed w)) (nodeIdsMap c !! id n) :: sc_order s)).
Proof.
  intros Hstep Hs. unfold create_node in Hstep. unfold created_data.
  destruct (isFolder n) eqn:Hf.
  - eexists. split; [reflexivity|]. split; [reflexivity|].
    unfold Scene.createFolder in Hstep.
    destruct (nodeIdsMap c !! id n) as [h|] eqn:Hh; simpl in Hstep;
      destruct (mig && bool_decide (display c = Some vertical)); simplify_eq/=;
      by rewrite (alter_add_node _ _ _ _ _ Hs), alter_node_insert, lookup_insert_eq.
  - unfold Scene.addSource in Hstep.
    destruct (resolve_source c n) as [sid|] eqn:Hsid; [|done].
    destruct (sources w !! sid) as [src|] eqn:Hsrc; [|done]. simpl. rewrite Hsrc. simpl.
    eexists. split; [reflexivity|]. split; [reflexivity|].
    destruct (nodeIdsMap c !! id n) as [h|] eqn:Hh; simpl in Hstep;
      destruct (mig && bool_decide (display c = Some vertical)); simplify_eq/=;
      by rewrite (alter_add_node _ _ _ _ _ Hs), !alter_node_insert, lookup_insert_eq.
Qed.

Lemma created_data_sub mig w w' c c' n d :
  display c' = display c → contexts w' = contexts w →
  (display c = None → sceneNodeMaps w' = sceneNodeMaps w) →
  selection c' = selection c → sourceIdsMap c' = sourceIdsMap c →
  (∀ k x, sources w' !! k = Some x → sources w !! k = Some x) →
  created_data mig w' c' n = Some d → created_data mig w c n = Some d.
Proof.
  intros Hd Hctx Hnm Hsel Hsm Hsub. unfold created_data.
  assert (Heq : resolve_display w' c' n = resolve_display w c n).
  { unfold resolve_display. rewrite Hd, Hsel. destruct (display c); [done|]. simpl.
    unfold DualOutput.getNodeDisplay, DualOutput.nodeMap. by rewrite Hnm. }
  rewrite Heq, Hctx, Hd. destruct (isFolder n); [done|].
  unfold resolve_source. rewrite Hsm.
  destruct (match sourceIdsMap c with Some m => m !! node_sourceId n
            | None => Some (node_sourceId n) end) as [sid|]; [|done]. simpl.
  destruct (sources w' !! sid) as [src|] eqn:Hsrc; [|done]. simpl.
  by rewrite (Hsub _ _ Hsrc).
Qed.

Lemma create_pass_data mig L : ∀ w c ins w' c' ins' s,
  forEach (create_node mig) L (w, c, ins) = Ok (w', c', ins') →
  scenes w !! destSceneId c = Some s →
  functional L →
  ∀ n cpy, n ∈ L →
    nodeIdsMap c' !! id n = Some cpy →
    (∀ k, nodeIdsMap c' !! k = Some cpy → k = id n) →
    ∃ s' d, scenes w' !! destSceneId c = Some s' ∧ sc_nodes s' !! cpy = Some d ∧
            created_data mig w c n = Some d ∧ nd_parentId d = None.
Proof.
  induction L as [|n0 L IH]; intros w c ins w' c' ins' s Hrun Hs Hfun n cpy Hn Hcpy Hinj.
  - by apply elem_of_nil in Hn.
  - apply forEach_cons in Hrun as ([[w2 c2] ins2] & Hstep & Hrun).
    destruct (create_node_data _ _ _ _ _ _ _ _ _ Hstep Hs) as (d & Hd & Hpar & Hs2).
    destruct (create_node_spec _ _ _ _ _ _ _ _ _ Hstep Hs)
      as (_ & _ & -> & -> & _ & Hsrc & Hnm & _ & _ & _ & Hctx & _).
    set (cpy0 := default (uuid w (uuid_seed w)) (nodeIdsMap c !! id n0)) in *.
    change (destSceneId c) with (destSceneId (set_nodeId (id n0) cpy0 c)) in Hs2.
    destruct (decide (id n ∈ id <$> L)) as [Hin|Hnin].
    + apply list_elem_of_fmap in Hin as (n' & Hid & Hn').
      assert (n = n') as <-.
      { apply Hfun; [done|by right|done]. }
      assert (HfunL : functional L).
      { intros a b Ha Hb. apply Hfun; by right. }
      destruct (IH _ _ _ _ _ _ _ Hrun Hs2 HfunL n cpy Hn' Hcpy Hinj)
        as (s' & d' & ? & ? & Hc & ?).
      exists s', d'. split_and!; try done.
      apply (created_data_sub _ _ w2 _ (set_nodeId (id n0) cpy0 c)); try done.
      * intros Hnone. rewrite Hnm. unfold entry_maps. rewrite Hnone.
        rewrite bool_decide_false by done. by rewrite andb_false_r.
      * intros k x. by rewrite Hsrc.
    + assert (n = n0) as ->.
      { apply elem_of_cons in Hn as [?|Hn]; [done|].
        exfalso. apply Hnin. apply list_elem_of_fmap. by exists n. }
      destruct (create_pass_spec _ _ _ _ _ _ _ _ _ Hrun Hs2)
        as (s' & cs & _ & _ & _ & Hmono & _ & Hall & Hsc' & _ & Hfr & _).
      simpl in *.
      assert (cpy = cpy0) as ->.
      { specialize (Hmono (id n0) cpy0). rewrite lookup_insert_eq in Hmono.
        specialize (Hmono eq_refl). congruence. }
      exists s', d. split_and!; try done.
      * by rewrite Hsc', lookup_insert_eq.
      * rewrite Hfr; [by rewrite lookup_insert_eq|].
        intros Hc. destruct (Forall2_elem_of_r _ _ _ _ Hall Hc) as (n' & Hn' & Hk).
        apply Hinj in Hk. apply Hnin. apply list_elem_of_fmap. by exists n'.
Qed.

(** The node that [execute] leaves in the destination scene for a copied
    node, when sources are not duplicated. *)
Lemma execute_node_data w c w1 c1 ins n cpy :
  execute w c = Ok (w1, c1, ins) →
  duplicateSources c = false →
  fresh_copies c1 →
  n ∈ copied w c →
  nodeIdsMap c1 !! id n = Some cpy →
  ∃ s1 d, scenes w1 !! destSceneId c = Some s1 ∧
    created_data (migrating w c) w c n = Some d ∧
    sc_nodes s1 !! cpy = Some (with_parent (mapped_parent c1 s1 n) d).
Proof.
  intros Hrun Hdd0 Hfresh Hn Hcpy.
  destruct (execute_copy _ _ _ _ _ _ _ Hrun Hfresh Hn Hcpy)
    as (s1 & d1 & Hs1 & Hd1 & _ & _ & _ & _ & Hpar1).
  destruct Hfresh as [Hnd Horig].
  destruct (execute_stages _ _ _ _ _ Hrun)
    as (s0 & wd & cd & wc & cc & wr & origin & wm & mapped
        & Hs0 & Hdup & Hcreate & Hc1 & Hrelink & Horigin & Hwalk & ->).
  rewrite Hdd0 in Hdup. injection Hdup as -> ->.
  assert (HL : Selection.getNodes w (selection c)
                 (if migrating w c then None else Some (dualOutputMode w)) = copied w c)
    by done.
  rewrite HL in Hcreate.
  destruct (create_pass_spec _ _ _ _ _ _ _ _ _ Hcreate Hs0)
    as (sc & cs & Hins & (Hsel' & Hdest' & Hdd' & Hdisp' & Hsrc' & Hhas') & _
        & Hmono & Hnew & Hall & Hscc & Hordc & Hfrc & Hinc & _).
  simpl in Hins. subst cs.
  assert (Hp1 : selection c1 = selection c ∧ destSceneId c1 = destSceneId c ∧
                display c1 = display c ∧ nodeIdsMap c1 = nodeIdsMap cc).
  { subst c1. destruct (migrating w c); simpl; split_and!; congruence. }
  destruct Hp1 as (Hsel1 & Hdest1 & Hdisp1 & Htbl1).
  rewrite Htbl1 in Hcpy.
  destruct (create_pass_data _ _ _ _ _ _ _ _ _ Hcreate Hs0 (getNodes_functional _ _ _)
              n cpy Hn Hcpy) as (sc' & d & Hsc' & Hd & Hcopy & Hpar).
  { intros k Hk. rewrite <- Htbl1 in Hk, Hcpy. by apply (values_inj _ _ _ _ Hnd Hk Hcpy). }
  rewrite Hscc, lookup_insert_eq in Hsc'. injection Hsc' as <-.
  assert (Hsc2 : scenes wc !! destSceneId c1 = Some sc).
  { rewrite Hscc, Hdest1. by rewrite lookup_insert_eq. }
  destruct (relink_pass_parent_gen _ _ _ _ _ Hrelink Hsc2 n cpy d)
    as (sr & d' & Hsr & Hd' & (Hr1 & Hr2 & Hr3 & Hr4) & _); try done.
  { by rewrite Htbl1. }
  { intros n' Hn' Hk. apply getNodes_functional with wc (selection c1) None; try done.
    - rewrite Hsel1. apply getNodes_all in Hn.
      assert (Heq : Selection.getNodes wc (selection c) None
                  = Selection.getNodes w (selection c) None); [|by rewrite Heq].
      unfold Selection.getNodes.
      destruct (decide (sceneId (selection c) = destSceneId c)) as [Hsame|Hdiff].
      + rewrite Hscc, <- Hsame, lookup_insert_eq. rewrite Hsame, Hs0.
        apply omap_ext_Forall. rewrite Hsel1 in Horig.
        eapply Forall_impl; [exact Horig|]. intros i Hi. simpl. rewrite Hfrc; [done|].
        intros Hin. apply Hi.
        destruct (Forall2_elem_of_r _ _ _ _ Hall Hin) as (n'' & _ & Hn'').
        apply elem_of_values. exists (id n''). by rewrite Htbl1.
      + by rewrite Hscc, lookup_insert_ne.
    - rewrite <- Htbl1 in Hcpy. symmetry. by apply (values_inj _ _ _ _ Hnd Hcpy Hk). }
  destruct (relink_pass_spec _ _ _ _ _ Hrelink Hsc2) as (sr' & Hscr & _ & Hdom & _).
  rewrite Hscr, lookup_insert_eq in Hsr. injection Hsr as <-.
  assert (Hwm : scenes wm = scenes wr).
  { destruct (hasNodeMap c1).
    - symmetry in Hwalk. by destruct (reorder_map_spec _ _ _ _ _ Hwalk) as (? & ? & _).
    - by simplify_eq. }
  assert (Hs1' : scenes (Scene.setNodesOrder wm (destSceneId c1)
                           (compact mapped ++ sc_order s0)) !! destSceneId c
                 = Some (mkScene (sc_nodes sr') (compact mapped ++ sc_order s0))).
  { simpl. rewrite Hwm, Hscr, Hdest1.
    rewrite (alter_lookup_Some _ _ _ _ (lookup_insert_eq _ _ _)).
    by rewrite lookup_insert_eq. }
  rewrite Hs1' in Hs1. injection Hs1 as <-. simpl in Hd1.
  rewrite Hd' in Hd1. injection Hd1 as <-.
  exists (mkScene (sc_nodes sr') (compact mapped ++ sc_order s0)), d.
  split_and!; [done|done|]. simpl. rewrite Hd'. f_equal.
  destruct d' as [f' nm' sid' p' st'], d as [f nm sid p st].
  unfold with_parent. simpl in *. by subst.
Qed.

(** *** What the command leaves alone *)

Lemma execute_node_maps_kept w c w1 c1 ins :
  execute w c = Ok (w1, c1, ins) →
  dualOutputMode w = false →
  hasNodeMap c = false →
  hasNodeMap c1 = false ∧ sceneNodeMaps w1 = sceneNodeMaps w.
Proof.
  intros Hrun Hmode Hhas.
  destruct (execute_journal _ _ _ _ _ Hrun) as (_ & _ & _ & _ & _ & _ & Hh1).
  assert (Hmig : migrating w c = false) by (unfold migrating; by rewrite Hmode).
  rewrite Hhas, Hmig in Hh1. simpl in Hh1. split; [done|].
  destruct (execute_stages _ _ _ _ _ Hrun)
    as (s0 & wd & cd & wc & cc & wr & origin & wm & mapped
        & Hs0 & Hdup & Hcreate & Hc1 & Hrelink & Horigin & Hwalk & ->).
  destruct (duplicate_stage _ _ _ _ Hdup)
    as ((Hdsc & Hdnm & _) & (Hsel & Hdest & Hdd & Hdisp & Htbl & Hhas')).
  assert (Hmig' : migrating w cd = false) by (unfold migrating; by rewrite Hmode).
  rewrite Hmig' in *.
  assert (Hsd : scenes wd !! destSceneId cd = Some s0) by by rewrite Hdsc, Hdest.
  destruct (create_pass_spec _ _ _ _ _ _ _ _ _ Hcreate Hsd)
    as (sc & cs & _ & (_ & Hdest' & _) & _ & _ & _ & _ & Hscc & _ & _ & _ & _ & Hmaps).
  simpl in Hmaps. destruct Hmaps as [Hcm _]. subst c1.
  assert (Hsc2 : scenes wc !! destSceneId cc = Some sc).
  { rewrite Hscc, Hdest'. by rewrite lookup_insert_eq. }
  destruct (relink_pass_spec _ _ _ _ _ Hrelink Hsc2) as (sr & _ & _ & _ & _ & Hrnm & _).
  rewrite Hh1 in Hwalk. injection Hwalk as -> _. simpl. congruence.
Qed.

Lemma execute_env w c w1 c1 ins :
  execute w c = Ok (w1, c1, ins) →
  dualOutputMode w1 = dualOutputMode w ∧ activeDisplay w1 = activeDisplay w ∧
  contexts w1 = contexts w ∧ uuid w1 = uuid w.
Proof.
  intros Hrun.
  destruct (execute_stages _ _ _ _ _ Hrun)
    as (s0 & wd & cd & wc & cc & wr & origin & wm & mapped
        & Hs0 & Hdup & Hcreate & Hc1 & Hrelink & Horigin & Hwalk & ->).
  destruct (duplicate_stage _ _ _ _ Hdup)
    as ((Hdsc & _ & Hd1 & Hd2 & Hd3 & Hd4) & (_ & Hdest & _)).
  assert (Hsd : scenes wd !! destSceneId cd = Some s0) by by rewrite Hdsc, Hdest.
  destruct (create_pass_spec _ _ _ _ _ _ _ _ _ Hcreate Hsd)
    as (sc & cs & _ & (_ & Hdest' & _) & (_ & Hc1' & Hc2 & Hc3 & Hc4) & _ & _ & _ & Hscc & _).
  assert (Hdest1 : destSceneId c1 = destSceneId cd).
  { subst c1. destruct (migrating w cd); simpl; congruence. }
  assert (Hsc2 : scenes wc !! destSceneId c1 = Some sc).
  { rewrite Hscc, Hdest1. by rewrite lookup_insert_eq. }
  destruct (relink_pass_spec _ _ _ _ _ Hrelink Hsc2)
    as (sr & _ & _ & _ & _ & _ & _ & (_ & Hr1 & Hr2 & Hr3 & Hr4)).
  assert (Hwm : same_env wr wm).
  { destruct (hasNodeMap c1).
    - symmetry in Hwalk. by destruct (reorder_map_spec _ _ _ _ _ Hwalk) as (_ & _ & ? & _).
    - simplify_eq. apply same_env_refl. }
  destruct Hwm as (_ & Hm1 & Hm2 & Hm3 & Hm4). simpl. split_and!; congruence.
Qed.

Lemma remove_node_env c w i :
  dualOutputMode (remove_node c w i) = dualOutputMode w ∧
  activeDisplay (remove_node c w i) = activeDisplay w ∧
  contexts (remove_node c w i) = contexts w ∧
  (∀ k x, sources (remove_node c w i) !! k = Some x → sources w !! k = Some x).
Proof.
  unfold remove_node. destruct (Scene.getNode _ _ _); [|done].
  unfold Scene.remove. destruct (_ ≫= _) as [d|]; [|done].
  destruct (negb (nd_isFolder d) && _); simpl; split_and!; try done.
  intros k x Hk. by apply lookup_delete_Some in Hk as [_ ?].
Qed.

Lemma rollback_env w c w2 :
  rollback w c = Ok w2 →
  dualOutputMode w2 = dualOutputMode w ∧ activeDisplay w2 = activeDisplay w ∧
  contexts w2 = contexts w ∧
  (∀ k x, sources w2 !! k = Some x → sources w !! k = Some x).
Proof.
  unfold rollback. destruct (scenes w !! destSceneId c); [|done].
  assert (Hpass : ∀ l w,
            dualOutputMode (foldl (remove_node c) w l) = dualOutputMode w ∧
            activeDisplay (foldl (remove_node c) w l) = activeDisplay w ∧
            contexts (foldl (remove_node c) w l) = contexts w ∧
            (∀ k x, sources (foldl (remove_node c) w l) !! k = Some x →
                    sources w !! k = Some x)).
  { induction l as [|i l IH]; intros w0; [done|]. cbn [foldl].
    destruct (IH (remove_node c w0 i)) as (-> & -> & -> & Hs).
    destruct (remove_node_env c w0 i) as (-> & -> & -> & Hs').
    split_and!; try done. intros k x Hk. by apply Hs', Hs. }
  destruct (Hpass (map_to_list (nodeIdsMap c)).*2 w) as (H1 & H2 & H3 & H4).
  destruct (DualOutput.hasNodeMap _ _); intros [= <-]; by simpl.
Qed.

Lemma rollback_restores_scenes w c w1 c1 ins s0 w2 :
  execute w c = Ok (w1, c1, ins) →
  scenes w !! destSceneId c = Some s0 →
  map_Forall (λ _ i, i ∈ ins ∧ sc_nodes s0 !! i = None ∧ i ∉ sc_order s0) (nodeIdsMap c1) →
  rollback w1 c1 = Ok w2 →
  scenes w2 = scenes w.
Proof.
  intros Hrun Hs0 Hfresh Hrb0.
  destruct (execute_scene _ _ _ _ _ Hrun)
    as (s0' & s1 & walk & Hs0' & Hsc & _ & _ & Hord & Hfr & Hin & _ & _ & _ & Hdest & _).
  simplify_eq.
  assert (Hs1 : scenes w1 !! destSceneId c1 = Some s1).
  { by rewrite Hsc, Hdest, lookup_insert_eq. }
  destruct (rollback_spec _ _ _ Hs1) as (w2' & s2 & Hrb & Hsc2 & Hnodes & Hord2 & _).
  rewrite Hrb0 in Hrb. injection Hrb as <-.
  assert (Hs2 : s2 = s0).
  { destruct s2 as [N2 O2], s0 as [N0 O0]. simpl in *. f_equal.
    - apply map_eq. intros i. rewrite Hnodes.
      destruct (decide (i ∈ (map_to_list (nodeIdsMap c1)).*2)) as [Hi|Hi].
      + apply elem_of_values in Hi as (k & Hk). symmetry. by apply (Hfresh k i Hk).
      + apply Hfr. intros k Hk. apply Hi. apply elem_of_values. by exists k.
    - rewrite Hord2, Hord, filter_app.
      rewrite filter_none, app_nil_l.
      + apply filter_all. intros j Hj [(k & Hk)%elem_of_values _].
        by apply (Hfresh k j Hk).
      + intros j (k & _ & Hk)%compact_elem Hn. apply Hn.
        split; [apply elem_of_values; by exists k|].
        apply Hin. by apply (Hfresh k j Hk). }
  subst s2. rewrite Hsc2, Hsc, Hdest, insert_insert_eq. by apply insert_id.
Qed.

Lemma execute_keys w c w1 c1 ins k :
  execute w c = Ok (w1, c1, ins) →
  is_Some (nodeIdsMap c1 !! k) →
  is_Some (nodeIdsMap c !! k) ∨ k ∈ id <$> copied w c.
Proof.
  intros Hrun Hk.
  destruct (execute_stages _ _ _ _ _ Hrun)
    as (s0' & wd & cd & wc & cc & wr & origin & wm & mapped
        & Hs0' & Hdup & Hcreate & Hc1 & _).
  destruct (duplicate_stage _ _ _ _ Hdup)
    as ((Hdsc & Hdnm & _ & Hdact & _) & (Hsel & Hdest & Hdd & Hdisp & Htbl & Hhas)).
  assert (Hmig : migrating w cd = migrating w c) by (unfold migrating; by rewrite Hhas).
  rewrite Hmig in *.
  assert (Hsd : scenes wd !! destSceneId cd = Some s0') by by rewrite Hdsc, Hdest.
  assert (HL : Selection.getNodes wd (selection cd)
                 (if migrating w c then None else Some (dualOutputMode w)) = copied w c).
  { unfold copied. rewrite Hsel. apply getNodes_ext; by rewrite ?Hdsc, ?Hdnm. }
  rewrite HL in Hcreate.
  assert (Hk' : is_Some (nodeIdsMap cc !! k)).
  { rewrite Hc1 in Hk. by destruct (migrating w c). }
  rewrite <- Htbl. by eapply create_pass_keys.
Qed.

(** *** The order walk of a scene that is migrated in place *)

Lemma elem_of_node_map_values (m : NodeMap) (v : option string) :
  v ∈ (map_to_list m).*2 ↔ ∃ k, m !! k = Some v.
Proof.
  rewrite list_elem_of_fmap. split.
  - intros ([k v'] & -> & Hkv). exists k. by apply elem_of_map_to_list.
  - intros (k & Hk). exists (k, v). split; [done|]. by apply elem_of_map_to_list.
Qed.

Lemma migration_visit c ins w o :
  sceneId (selection c) = destSceneId c →
  (∀ k cpy, nodeIdsMap c !! k = Some cpy → nodeIdsMap c !! cpy = None) →
  (∀ k cpy, nodeIdsMap c !! k = Some cpy → cpy ∈ ins) →
  nodeIdsMap c !! "undefined"%string = None →
  migrated (nodeIdsMap c) ins (DualOutput.nodeMap w (destSceneId c)) →
  visit_calls c w o = migration_call c ins o ∧
  migrated (nodeIdsMap c) ins
    (replay (destSceneId c) (DualOutput.nodeMap w (destSceneId c)) (migration_call c ins o)).
Proof.
  intros Hsame Hnokeys Hvals Hund (I1 & I2 & I3 & I4 & I5 & I6).
  unfold visit_calls, migration_call. rewrite Hsame.
  set (m := DualOutput.nodeMap w (destSceneId c)) in *.
  destruct (decide (o ∈ ins)) as [Hin|Hnin].
  - rewrite decide_False; [done|].
    intros Hh%getNodeDisplay_horizontal. apply Hh, elem_of_node_map_values. by apply I2.
  - rewrite decide_True.
    2:{ apply getNodeDisplay_horizontal. intros (k & Hk)%elem_of_node_map_values.
        apply Hnin. by apply (I1 k). }
    assert (Hv : nodeIdsMap c !! Js.key (DualOutput.getVerticalNodeId w o (destSceneId c))
                 = None).
    { unfold DualOutput.getVerticalNodeId. fold m.
      destruct (nodeIdsMap c !! o) as [cpy|] eqn:Ho.
      - rewrite (I3 _ _ Ho). simpl. by apply (Hnokeys o).
      - rewrite (I4 _ Ho Hnin). simpl. done. }
    rewrite Hv. split; [done|].
    unfold replay. simpl. rewrite decide_True by done.
    destruct (nodeIdsMap c !! o) as [cpy|] eqn:Ho.
    + pose proof (Hvals _ _ Ho) as Hc.
      split_and!.
      * intros k x Hk. destruct (decide (k = Some cpy)) as [->|Hne].
        -- by rewrite lookup_insert_eq in Hk.
        -- rewrite lookup_insert_ne in Hk by done. by apply (I1 k).
      * intros cpy' Hc'. destruct (I2 _ Hc') as (k & Hk). exists k.
        rewrite lookup_insert_ne; [done|]. intros <-. by apply (I5 cpy cpy').
      * intros o' cpy' Ho'. rewrite lookup_insert_ne; [by apply I3|].
        intros [= <-]. rewrite (Hnokeys _ _ Ho) in Ho'. done.
      * intros o' Ho' Hn'. rewrite lookup_insert_ne; [by apply I4|]. by intros [= <-].
      * intros cpy' x Hc'. destruct (decide (cpy = cpy')) as [->|Hne].
        -- by rewrite lookup_insert_eq.
        -- rewrite lookup_insert_ne by congruence. by apply I5.
      * intros x. rewrite lookup_insert_ne by done. apply I6.
    + split_and!.
      * intros k x Hk. destruct (decide (k = None)) as [->|Hne].
        -- by rewrite lookup_insert_eq in Hk.
        -- rewrite lookup_insert_ne in Hk by done. by apply (I1 k).
      * intros cpy' Hc'. destruct (I2 _ Hc') as (k & Hk). exists k.
        rewrite lookup_insert_ne; [done|]. intros <-. by apply (I6 cpy').
      * intros o' cpy' Ho'. rewrite lookup_insert_ne by done. by apply I3.
      * intros o' Ho' Hn'. rewrite lookup_insert_ne by done. by apply I4.
      * intros cpy' x Hc'. rewrite lookup_insert_ne by done. by apply I5.
      * intros x. by rewrite lookup_insert_eq.
Qed.

Lemma migration_walk c ins l : ∀ w w' mapped,
  reorder_map c w l = (w', mapped) →
  sceneId (selection c) = destSceneId c →
  (∀ k cpy, nodeIdsMap c !! k = Some cpy → nodeIdsMap c !! cpy = None) →
  (∀ k cpy, nodeIdsMap c !! k = Some cpy → cpy ∈ ins) →
  nodeIdsMap c !! "undefined"%string = None →
  migrated (nodeIdsMap c) ins (DualOutput.nodeMap w (destSceneId c)) →
  journal w' = journal w ++ flat_map (migration_call c ins) l.
Proof.
  induction l as [|o l IH]; intros w w' mapped Hrun Hsame Hnokeys Hvals Hund Hinv.
  - simpl in Hrun. simplify_eq. simpl. by rewrite app_nil_r.
  - change (reorder_map c w (o :: l))
      with (let '(w2, x) := reorder_visit c w o in
            let '(w3, xs) := reorder_map c w2 l in (w3, x :: xs)) in Hrun.
    destruct (reorder_visit_spec c w o) as (_ & _ & _ & Hj & Hm).
    destruct (reorder_visit c w o) as [w2 x]. simpl in Hj, Hm.
    destruct (reorder_map c w2 l) as [w3 xs] eqn:Hrest. simplify_eq.
    destruct (migration_visit c ins w o Hsame Hnokeys Hvals Hund Hinv) as [Hcall Hinv'].
    rewrite Hcall in Hj, Hm. rewrite <- Hm in Hinv'.
    rewrite (IH _ _ _ Hrest Hsame Hnokeys Hvals Hund Hinv'), Hj. simpl.
    by rewrite <- app_assoc.
Qed.

Lemma register_all_inv m L cs k v :
  register_all m (zip L cs) !! k = Some v →
  m !! k = Some v ∨ ∃ p, p ∈ zip L cs ∧ k = Some (id p.1) ∧ v = Some p.2.
Proof.
  unfold register_all. generalize (zip L cs). intros l. revert m.
  induction l as [|p l IH]; intros m Hk; [by left|].
  simpl in Hk. destruct (IH _ Hk) as [Hm|(q & Hq & ? & ?)].
  - destruct (decide (k = Some (id p.1))) as [->|Hne].
    + rewrite lookup_insert_eq in Hm. simplify_eq. right. exists p. split; [by left|done].
    + rewrite lookup_insert_ne in Hm by done. by left.
  - right. exists q. split; [by right|done].
Qed.

Lemma migration_call_copies c ins l :
  Forall (λ o, o ∈ ins) l → flat_map (migration_call c ins) l = [].
Proof.
  induction 1 as [|o l Ho _ IH]; [done|]. simpl. rewrite IH.
  unfold migration_call. by rewrite decide_True.
Qed.

Lemma migration_call_others c ins l :
  Forall (λ o, o ∉ ins) l →
  flat_map (migration_call c ins) l
  = (λ o, CreateNodeMapEntry (destSceneId c) (nodeIdsMap c !! o) None) <$> l.
Proof.
  induction 1 as [|o l Ho _ IH]; [done|]. simpl. rewrite IH.
  unfold migration_call. by rewrite decide_False.
Qed.

(** ** The properties *)

(** X1.  [execute] returns whenever the destination scene and the
    originating scene exist, every selected id still names a node of the
    originating scene, the source of every selected item exists, the creation
    pass copies every selected node (as it does in dual-output mode, where
    the selection is taken whole), the source table is undefined for a
    command that does not duplicate sources, and no key of a table access
    names an inherited member. *)
Theorem X1_execute_returns w c s0 origin :
  own_keys w c →
  scenes w !! destSceneId c = Some s0 →
  scenes w !! sceneId (selection c) = Some origin →
  Forall (λ i, is_Some (sc_nodes origin !! i)) (sel_ids (selection c)) →
  (duplicateSources c = false → sourceIdsMap c = None) →
  Forall (λ n, n ∈ copied w c ∧
               (isFolder n = false → is_Some (sources w !! node_sourceId n)))
         (Selection.getNodes w (selection c) None) →
  ∃ w1 c1 ins, execute w c = Ok (w1, c1, ins).
Proof.
  intros _ Hs0 Horigin Hsel Hnone Hnodes.
  pose proof (proj1 (Forall_forall _ _) Hnodes) as Hnodes'. clear Hnodes.
  destruct (if duplicateSources c
            then foldl duplicate_source (w, set_sourceIdsMap ∅ c)
                       (Selection.getSources w (selection c))
            else (w, c)) as [wd cd] eqn:Hdup.
  symmetry in Hdup.
  destruct (duplicate_stage _ _ _ _ Hdup)
    as ((Hdsc & Hdnm & Hdmode & Hdact & Hdctx & Hduu)
        & (Hsel' & Hdest & Hdd & Hdisp & Htbl & Hhas)).
  assert (Hmig : migrating w cd = migrating w c) by (unfold migrating; by rewrite Hhas).
  assert (Hsd : scenes wd !! destSceneId cd = Some s0) by by rewrite Hdsc, Hdest.
  assert (HL : Selection.getNodes wd (selection cd)
                 (if migrating w c then None else Some (dualOutputMode w)) = copied w c).
  { unfold copied. rewrite Hsel'. apply getNodes_ext; by rewrite ?Hdsc, ?Hdnm. }
  assert (Hres : Forall (λ n, isFolder n = false →
                   ∃ sid, resolve_source cd n = Some sid ∧ is_Some (sources wd !! sid))
                   (copied w c)).
  { apply Forall_forall. intros n Hn Hf.
    apply getNodes_all in Hn. destruct (Hnodes' n Hn) as [_ Hsrc].
    destruct (Hsrc Hf) as [sd Hsd'].
    destruct (duplicateSources c) eqn:Hd.
    - symmetry in Hdup.
      destruct (duplicate_pass_spec _ _ _ _ _ ∅ Hdup eq_refl (getSources_NoDup _ _))
        as (_ & _ & _ & m' & Hm' & _ & Hin & _).
      destruct (duplicate_pass_present _ _ _ _ _ ∅ Hdup eq_refl) as (m'' & Hm'' & Hpres).
      { intros k v Hk. by rewrite lookup_empty in Hk. }
      { apply getSources_present. }
      rewrite Hm' in Hm''. injection Hm'' as <-.
      destruct (Hin _ (getSources_elem _ _ _ _ Hn Hf Hsd')) as [v Hv]. simpl in Hv.
      exists v. unfold resolve_source. rewrite Hm'. split; [done|]. by apply (Hpres _ _ Hv).
    - injection Hdup as -> ->. exists (node_sourceId n).
      unfold resolve_source. rewrite (Hnone eq_refl). split; [done|]. by eexists. }
  destruct (create_pass_Ok (migrating w c) _ _ _ [] _ Hsd Hres) as ([[wc cc] ins] & Hcreate).
  destruct (create_pass_spec _ _ _ _ _ _ _ _ _ Hcreate Hsd)
    as (sc & cs & Hins & (Hsel2 & Hdest' & Hdd' & Hdisp' & Hsrc' & Hhas') & _
        & _ & _ & Hall & Hscc & _ & Hfrc & Hinc & _).
  simpl in Hins. subst cs.
  set (c1 := if migrating w c then set_hasNodeMap true cc else cc).
  assert (Hp1 : selection c1 = selection c ∧ destSceneId c1 = destSceneId c ∧
                nodeIdsMap c1 = nodeIdsMap cc).
  { unfold c1. destruct (migrating w c); simpl; split_and!; congruence. }
  destruct Hp1 as (Hsel1 & Hdest1 & Htbl1).
  assert (Hsc2 : scenes wc !! destSceneId c1 = Some sc).
  { rewrite Hscc, Hdest1, Hdest. by rewrite lookup_insert_eq. }
  destruct (relink_pass_Ok c1 (Selection.getNodes wc (selection c1) None) wc sc Hsc2)
    as [wr Hrelink].
  { apply Forall_forall. intros n Hn.
    apply getNodes_elem in Hn as (ssrc & _ & _ & Hid).
    rewrite Hsel1 in Hid.
    destruct (proj1 (Forall_forall _ _) Hsel _ Hid) as [dw Hdw].
    pose proof (getNodes_intro _ _ _ _ _ Horigin Hid Hdw) as Hn0.
    destruct (Hnodes' _ Hn0) as [Hcop _].
    destruct (Forall2_elem_of_l _ _ _ _ Hall Hcop) as (cpy & Hcpy & Hk). simpl in Hk.
    exists cpy. rewrite Htbl1. split; [done|]. by apply Hinc. }
  destruct (relink_pass_spec _ _ _ _ _ Hrelink Hsc2) as (sr & Hscr & _).
  assert (Hor : ∃ origin', scenes wr !! sceneId (selection c1) = Some origin').
  { rewrite Hscr, Hscc, Hdest1, Hdest, Hdsc, insert_insert_eq, Hsel1.
    destruct (decide (sceneId (selection c) = destSceneId c)) as [->|Hne].
    - rewrite lookup_insert_eq. by eexists.
    - rewrite lookup_insert_ne by done. by eexists. }
  destruct Hor as [origin' Hor].
  unfold execute. rewrite Hs0. rewrite <- Hdup.
  fold (migrating w cd). rewrite Hmig.
  destruct (migrating w c) eqn:Hm.
  - rewrite HL.
    rewrite (forEach_ext _ _ _ _ (λ st n, migrate_node_create st n)), Hcreate.
    subst c1. simpl in Hrelink, Hor. simpl.
    rewrite Hrelink. simpl. unfold Selection.getScene. simpl. rewrite Hor.
    destruct (reorder_map _ _ _). by eexists _, _, _.
  - rewrite HL.
    rewrite (forEach_ext _ _ _ _ (λ st n, copy_node_create st n)), Hcreate.
    subst c1. simpl in Hrelink, Hor. simpl.
    rewrite Hrelink. simpl. unfold Selection.getScene. rewrite Hor.
    destruct (hasNodeMap cc); [destruct (reorder_map _ _ _)|]; by eexists _, _, _.
Qed.

Lemma X1_execute_returns_witness :
  ∃ w1 c1 ins, execute plain_world reuse_cmd = Ok (w1, c1, ins).
Proof.
  apply (X1_execute_returns plain_world reuse_cmd ex_dest plain_scene).
  - exact own_keys_reuse.
  - vm_compute; reflexivity.
  - vm_compute; reflexivity.
  - apply (bool_decide_unpack _); vm_compute; exact I.
  - reflexivity.
  - apply (bool_decide_unpack _); vm_compute; exact I.
Defined.

(** X2.  [execute] throws a [TypeError] when the destination scene or the
    originating scene of the selection does not exist, and so does
    [rollback] without a destination scene, whatever the table holds. *)
Theorem X2_missing_scene_throws w c :
  scenes w !! destSceneId c = None ∨ scenes w !! sceneId (selection c) = None →
  execute w c = Throw TypeError ∧
  (scenes w !! destSceneId c = None → rollback w c = Throw TypeError).
Proof.
  intros Hmiss. split.
  - unfold execute.
    destruct (scenes w !! destSceneId c) as [s0|] eqn:Hs0; [|done].
    destruct Hmiss as [?|Hs]; [done|].
    assert (Hsel : ∀ w' flag, scenes w' = scenes w →
                     Selection.getNodes w' (selection c) flag = []).
    { intros w' flag Hw. unfold Selection.getNodes. by rewrite Hw, Hs. }
    assert (Hsrcs : Selection.getSources w (selection c) = []).
    { unfold Selection.getSources. by rewrite Hsel. }
    rewrite Hsrcs.
    destruct (duplicateSources c); simpl;
      destruct (dualOutputMode w && negb (hasNodeMap c)); simpl;
      rewrite !Hsel by done; simpl; rewrite ?Hsel by done; simpl;
      unfold Selection.getScene; simpl; by rewrite Hs.
  - intros Hd. unfold rollback. by rewrite Hd.
Qed.

Lemma X2_missing_scene_throws_witness :
  execute no_scene_world plain_cmd = Throw TypeError ∧
  (scenes no_scene_world !! destSceneId plain_cmd = None →
   rollback no_scene_world plain_cmd = Throw TypeError).
Proof.
  apply (X2_missing_scene_throws no_scene_world plain_cmd).
  left. vm_compute; reflexivity.
Defined.

(** X3.  [execute] changes no scene other than the destination, and in
    the destination it leaves every node alone whose id is not a value of
    the node id table.  No key of a table access names an inherited
    member. *)
Theorem X3_execute_frame w c w1 c1 ins s0 :
  execute w c = Ok (w1, c1, ins) →
  own_keys w c →
  scenes w !! destSceneId c = Some s0 →
  (∀ sc, sc ≠ destSceneId c → scenes w1 !! sc = scenes w !! sc) ∧
  ∃ s1, scenes w1 !! destSceneId c = Some s1 ∧
        ∀ i, i ∉ values (nodeIdsMap c1) → sc_nodes s1 !! i = sc_nodes s0 !! i.
Proof.
  intros Hrun _ Hs0.
  destruct (execute_scene _ _ _ _ _ Hrun)
    as (s0' & s1 & walk & Hs0' & Hsc & _ & _ & _ & Hfr & _).
  rewrite Hs0 in Hs0'. injection Hs0' as <-. split.
  - intros sc Hne. by rewrite Hsc, lookup_insert_ne.
  - exists s1. split; [by rewrite Hsc, lookup_insert_eq|].
    intros i Hi. apply Hfr. intros k Hk. apply Hi, elem_of_values. by exists k.
Qed.

Lemma X3_execute_frame_witness :
  (∀ sc, sc ≠ destSceneId plain_cmd → scenes plain_after !! sc = scenes plain_world !! sc) ∧
  ∃ s1, scenes plain_after !! destSceneId plain_cmd = Some s1 ∧
        ∀ i, i ∉ values (nodeIdsMap plain_cmd_after) →
             sc_nodes s1 !! i = sc_nodes ex_dest !! i.
Proof.
  apply (X3_execute_frame plain_world plain_cmd plain_after plain_cmd_after plain_copies).
  - vm_compute; reflexivity.
  - exact own_keys_plain.
  - vm_compute; reflexivity.
Defined.

(** X4.  [execute] returns the nodes it has created: one for each node
    that the creation pass copies, in the order of the selection, each
    under the id that the table records for the original, and each a node
    of the destination scene afterwards.  No key of a table access names an
    inherited member. *)
Theorem X4_execute_returns_copies w c w1 c1 ins :
  execute w c = Ok (w1, c1, ins) →
  own_keys w c →
  length ins = length (copied w c) ∧
  Forall2 (λ n cpy, nodeIdsMap c1 !! id n = Some cpy) (copied w c) ins ∧
  ∃ s1, scenes w1 !! destSceneId c = Some s1 ∧
        Forall (λ cpy, is_Some (sc_nodes s1 !! cpy)) ins.
Proof.
  intros Hrun _.
  destruct (execute_journal _ _ _ _ _ Hrun) as (_ & _ & _ & _ & _ & Hall & _).
  destruct (execute_scene _ _ _ _ _ Hrun)
    as (s0 & s1 & walk & _ & Hsc & _ & _ & _ & _ & Hins & _).
  split_and!; [symmetry; by eapply Forall2_length|done|].
  exists s1. split; [by rewrite Hsc, lookup_insert_eq|].
  apply Forall_forall. intros cpy Hcpy. by destruct (Hins _ Hcpy).
Qed.

Lemma X4_execute_returns_copies_witness :
  length plain_copies = length (copied plain_world plain_cmd) ∧
  Forall2 (λ n cpy, nodeIdsMap plain_cmd_after !! id n = Some cpy)
          (copied plain_world plain_cmd) plain_copies ∧
  ∃ s1, scenes plain_after !! destSceneId plain_cmd = Some s1 ∧
        Forall (λ cpy, is_Some (sc_nodes s1 !! cpy)) plain_copies.
Proof.
  apply (X4_execute_returns_copies plain_world plain_cmd plain_after plain_cmd_after).
  - vm_compute; reflexivity.
  - exact own_keys_plain.
Defined.

(** X5.  The only requests that [execute] makes are duplications without
    an id hint and node-map entries for the destination scene: it removes
    no node map, and the node map of every other scene is as before.  No
    key of a table access names an inherited member. *)
Theorem X5_execute_node_maps_frame w c w1 c1 ins :
  execute w c = Ok (w1, c1, ins) →
  own_keys w c →
  (∀ sc, sc ≠ destSceneId c → DualOutput.nodeMap w1 sc = DualOutput.nodeMap w sc) ∧
  ∃ calls, journal w1 = journal w ++ calls ∧
    Forall (λ ev, (∃ s, ev = Duplicate s None) ∨
                  (∃ h v, ev = CreateNodeMapEntry (destSceneId c) h v)) calls.
Proof.
  intros Hrun _.
  destruct (execute_journal _ _ _ _ _ Hrun) as (walks & Hj & Hm & Hw & _).
  assert (Hall : Forall (λ ev, ∃ h v, ev = CreateNodeMapEntry (destSceneId c) h v)
                   (create_calls w c ins ++ walks)).
  { apply Forall_app. split; [apply create_calls_dest|].
    eapply Forall_impl; [exact Hw|]. intros ev (o & tw & ->). by eexists _, _. }
  split.
  - intros sc Hne. rewrite Hm. by apply replay_other with (destSceneId c).
  - exists (dup_calls w c ++ create_calls w c ins ++ walks). split; [done|].
    apply Forall_app. split.
    + unfold dup_calls. destruct (duplicateSources c); [|constructor].
      apply Forall_fmap, Forall_forall. intros s _. left. by eexists.
    + eapply Forall_impl; [exact Hall|]. intros ev ?. by right.
Qed.

Lemma X5_execute_node_maps_frame_witness :
  (∀ sc, sc ≠ destSceneId pair_cmd →
         DualOutput.nodeMap dual_after sc = DualOutput.nodeMap dual_world sc) ∧
  ∃ calls, journal dual_after = journal dual_world ++ calls ∧
    Forall (λ ev, (∃ s, ev = Duplicate s None) ∨
                  (∃ h v, ev = CreateNodeMapEntry (destSceneId pair_cmd) h v)) calls.
Proof.
  apply (X5_execute_node_maps_frame dual_world pair_cmd dual_after pair_cmd_after pair_copies).
  - vm_compute; reflexivity.
  - exact own_keys_pair.
Defined.

(** X6.  In single-output mode, a command whose has-node-map flag is unset
    touches no node map: the flag stays unset, the node maps are as before,
    and the only requests are the duplications of sources, each without an
    id hint.  No key of a table access names an inherited member. *)
Theorem X6_execute_single_output w c w1 c1 ins :
  execute w c = Ok (w1, c1, ins) →
  own_keys w c →
  dualOutputMode w = false →
  hasNodeMap c = false →
  hasNodeMap c1 = false ∧ sceneNodeMaps w1 = sceneNodeMaps w ∧
  journal w1 = journal w ++ dup_calls w c.
Proof.
  intros Hrun _ Hmode Hhas.
  destruct (execute_node_maps_kept _ _ _ _ _ Hrun Hmode Hhas) as [Hh1 Hnm].
  split_and!; [done|done|].
  destruct (execute_journal _ _ _ _ _ Hrun) as (walks & Hj & _ & _ & Hnil & _).
  rewrite Hj, (Hnil Hh1). unfold create_calls, migrating. rewrite Hmode. simpl.
  by rewrite app_nil_r.
Qed.

Lemma X6_execute_single_output_witness :
  hasNodeMap plain_cmd_after = false ∧
  sceneNodeMaps plain_after = sceneNodeMaps plain_world ∧
  journal plain_after = journal plain_world ++ dup_calls plain_world plain_cmd.
Proof.
  apply (X6_execute_single_output plain_world plain_cmd plain_after plain_cmd_after
           plain_copies).
  - vm_compute; reflexivity.
  - exact own_keys_plain.
  - reflexivity.
  - vm_compute; reflexivity.
Defined.

(** X7.  The copy of a node carries the display that the command forces
    or, without a forced display, the display of the original in the
    originating scene.  The copy of a folder has the name of the original.
    The copy of an item is rendered to the video context of that display and
    keeps the visibility of the original, and its position unless a vanilla
    scene is migrated to the vertical display, where the position is the
    origin.  The copies are taken to carry distinct ids that are not ids of
    selected nodes. *)
Theorem X7_execute_copy_settings w c w1 c1 ins n cpy :
  execute w c = Ok (w1, c1, ins) →
  fresh_copies c1 →
  n ∈ copied w c →
  nodeIdsMap c1 !! id n = Some cpy →
  ∃ s1 d, scenes w1 !! destSceneId c = Some s1 ∧ sc_nodes s1 !! cpy = Some d ∧
    let disp := default (DualOutput.getNodeDisplay w (id n) (sceneId (selection c)))
                        (display c) in
    st_display (nd_settings d) = Some disp ∧
    (isFolder n = true → nd_name d = name n) ∧
    (isFolder n = false →
     st_output (nd_settings d) = contexts w disp ∧
     st_visible (nd_settings d) = st_visible (getSettings n) ∧
     st_position (nd_settings d)
     = if migrating w c && bool_decide (display c = Some vertical)
       then (0, 0)%Z else st_position (getSettings n)).
Proof.
  intros Hrun Hfresh Hn Hcpy.
  destruct (execute_copy _ _ _ _ _ _ _ Hrun Hfresh Hn Hcpy)
    as (s1 & d1 & Hs1 & Hd1 & _ & _ & _ & Hpos & _).
  destruct Hfresh as [Hnd Horig].
  destruct (execute_stages _ _ _ _ _ Hrun)
    as (s0 & wd & cd & wc & cc & wr & origin & wm & mapped
        & Hs0 & Hdup & Hcreate & Hc1 & Hrelink & Horigin & Hwalk & ->).
  destruct (duplicate_stage _ _ _ _ Hdup)
    as ((Hdsc & Hdnm & Hdmode & Hdact & Hdctx & Hduu)
        & (Hsel & Hdest & Hdd & Hdisp & Htbl & Hhas)).
  assert (Hmig : migrating w cd = migrating w c) by (unfold migrating; by rewrite Hhas).
  rewrite Hmig in *.
  assert (Hsd : scenes wd !! destSceneId cd = Some s0) by by rewrite Hdsc, Hdest.
  assert (HL : Selection.getNodes wd (selection cd)
                 (if migrating w c then None else Some (dualOutputMode w)) = copied w c).
  { unfold copied. rewrite Hsel. apply getNodes_ext; by rewrite ?Hdsc, ?Hdnm. }
  rewrite HL in Hcreate.
  destruct (create_pass_spec _ _ _ _ _ _ _ _ _ Hcreate Hsd)
    as (sc & cs & Hins & (Hsel' & Hdest' & Hdd' & Hdisp' & Hsrc' & Hhas') & _
        & Hmono & Hnew & Hall & Hscc & Hordc & Hfrc & Hinc & _).
  simpl in Hins. subst cs.
  assert (Hp1 : selection c1 = selection c ∧ destSceneId c1 = destSceneId c ∧
                display c1 = display c ∧ nodeIdsMap c1 = nodeIdsMap cc).
  { subst c1. destruct (migrating w c); simpl; split_and!; congruence. }
  destruct Hp1 as (Hsel1 & Hdest1 & Hdisp1 & Htbl1).
  rewrite Htbl1 in Hcpy.
  destruct (create_pass_settings _ _ _ _ _ _ _ _ _ Hcreate Hsd (getNodes_functional _ _ _)
              n cpy Hn Hcpy) as (sc' & d & Hsc' & Hd & Hcopy).
  { intros k Hk. rewrite <- Htbl1 in Hk, Hcpy. by apply (values_inj _ _ _ _ Hnd Hk Hcpy). }
  rewrite Hscc, lookup_insert_eq in Hsc'. injection Hsc' as <-.
  assert (Hsc2 : scenes wc !! destSceneId c1 = Some sc).
  { rewrite Hscc, Hdest1, Hdest. by rewrite lookup_insert_eq. }
  destruct (relink_pass_parent_gen _ _ _ _ _ Hrelink Hsc2 n cpy d)
    as (sr & d' & Hsr & Hd' & (Hr1 & Hr2 & Hr3 & Hr4) & _); try done.
  { by rewrite Htbl1. }
  { intros n' Hn' Hk. apply getNodes_functional with wc (selection c1) None; try done.
    - rewrite Hsel1. apply getNodes_all in Hn.
      assert (Heq : Selection.getNodes wc (selection c) None
                  = Selection.getNodes w (selection c) None); [|by rewrite Heq].
      unfold Selection.getNodes.
      destruct (decide (sceneId (selection c) = destSceneId c)) as [Hsame|Hdiff].
      + rewrite Hscc, Hdest, <- Hsame, lookup_insert_eq. rewrite Hsame, Hs0.
        apply omap_ext_Forall. rewrite Hsel1 in Horig.
        eapply Forall_impl; [exact Horig|]. intros i Hi. simpl. rewrite Hfrc; [done|].
        intros Hin. apply Hi.
        destruct (Forall2_elem_of_r _ _ _ _ Hall Hin) as (n'' & _ & Hn'').
        apply elem_of_values. exists (id n''). by rewrite Htbl1.
      + rewrite Hscc, Hdest, lookup_insert_ne by done. by rewrite Hdsc.
    - rewrite <- Htbl1 in Hcpy. symmetry. by apply (values_inj _ _ _ _ Hnd Hcpy Hk). }
  destruct (relink_pass_spec _ _ _ _ _ Hrelink Hsc2) as (sr' & Hscr & _ & Hdom & _).
  rewrite Hscr, lookup_insert_eq in Hsr. injection Hsr as <-.
  assert (Hwm : scenes wm = scenes wr).
  { destruct (hasNodeMap c1).
    - symmetry in Hwalk. by destruct (reorder_map_spec _ _ _ _ _ Hwalk) as (? & ? & _).
    - by simplify_eq. }
  assert (Hs1' : scenes (Scene.setNodesOrder wm (destSceneId c1)
                           (compact mapped ++ sc_order s0)) !! destSceneId c
                 = Some (mkScene (sc_nodes sr') (compact mapped ++ sc_order s0))).
  { simpl. rewrite Hwm, Hscr, Hdest1.
    rewrite (alter_lookup_Some _ _ _ _ (lookup_insert_eq _ _ _)).
    by rewrite lookup_insert_eq. }
  rewrite Hs1' in Hs1. injection Hs1 as <-. simpl in Hd1.
  rewrite Hd' in Hd1. injection Hd1 as <-.
  exists (mkScene (sc_nodes sr') (compact mapped ++ sc_order s0)), d'.
  split_and!; [done|done|].
  apply (copy_settings_ext _ w wd c cd) in Hcopy; try done.
  destruct Hcopy as (Hc1' & Hc2 & Hc3). unfold resolve_display in *.
  rewrite Hr4, Hr2. split_and!; try done.
  intros Hf. destruct (Hc3 Hf) as (? & ? & Hp). split_and!; try done.
  destruct (migrating w c && bool_decide (display c = Some vertical)) eqn:Hmv.
  - apply andb_prop in Hmv as [Hm Hv]. apply bool_decide_eq_true in Hv.
    rewrite <- Hr4. by apply Hpos.
  - by apply Hp.
Qed.

Lemma X7_execute_copy_settings_witness :
  ∃ s1 d, scenes plain_after !! destSceneId plain_cmd = Some s1 ∧
    sc_nodes s1 !! "id-3"%string = Some d ∧
    let disp := default (DualOutput.getNodeDisplay plain_world "a"
                           (sceneId (selection plain_cmd))) (display plain_cmd) in
    st_display (nd_settings d) = Some disp ∧
    (false = true → nd_name d = "cam"%string) ∧
    (false = false →
     st_output (nd_settings d) = contexts plain_world disp ∧
     st_visible (nd_settings d) = true ∧
     st_position (nd_settings d)
     = if migrating plain_world plain_cmd && bool_decide (display plain_cmd = Some vertical)
       then (0, 0)%Z else (5, 7)%Z).
Proof.
  apply (X7_execute_copy_settings plain_world plain_cmd plain_after plain_cmd_after
           plain_copies (mkNode "a" (ex_item "cam" (Some "f"%string) (5, 7)%Z)) "id-3").
  - vm_compute; reflexivity.
  - split; apply (bool_decide_unpack _); vm_compute; exact I.
  - apply (bool_decide_unpack _); vm_compute; exact I.
  - vm_compute; reflexivity.
Defined.



(** X9.  A command that does not duplicate sources, and whose source table
    is undefined as the constructor leaves it, creates no source and
    requests no duplicate: the sources are as before, the table stays
    undefined, and every copied item references the source of its
    original. *)
Theorem X9_execute_reuses_sources w c w1 c1 ins :
  duplicateSources c = false →
  sourceIdsMap c = None →
  execute w c = Ok (w1, c1, ins) →
  sources w1 = sources w ∧ sourceIdsMap c1 = None ∧
  (∃ calls, journal w1 = journal w ++ calls ∧
            Forall (λ ev, ∀ s h, ev ≠ Duplicate s h) calls) ∧
  (fresh_copies c1 →
   ∀ n cpy, n ∈ copied w c → isFolder n = false → nodeIdsMap c1 !! id n = Some cpy →
     ∃ s1 d, scenes w1 !! destSceneId c = Some s1 ∧ sc_nodes s1 !! cpy = Some d ∧
             nd_sourceId d = node_sourceId n).
Proof.
  intros Hdd Hnone Hrun.
  destruct (execute_sources_kept _ _ _ _ _ Hrun) as (wd & cd & Hdup & Hsrc & Htab).
  rewrite Hdd in Hdup. injection Hdup as -> ->.
  rewrite Hnone in Htab.
  split_and!; [done|done| |].
  - destruct (execute_journal _ _ _ _ _ Hrun) as (walks & Hj & _ & Hw & _).
    exists (create_calls w c ins ++ walks). split.
    + rewrite Hj. unfold dup_calls. by rewrite Hdd.
    + apply Forall_app. split.
      * eapply Forall_impl; [apply create_calls_dest|]. by intros ev (h & v & ->) s h'.
      * eapply Forall_impl; [exact Hw|]. by intros ev (o & tw & ->) s h'.
  - intros Hfresh n cpy Hn Hf Hcpy.
    destruct (execute_copy _ _ _ _ _ _ _ Hrun Hfresh Hn Hcpy)
      as (s1 & d & Hs1 & Hd & _ & _ & Hres & _).
    specialize (Hres Hf). unfold resolve_source in Hres. rewrite Htab in Hres.
    exists s1, d. split_and!; try done. by injection Hres.
Qed.

Lemma X9_execute_reuses_sources_witness :
  sources reuse_after = sources plain_world ∧ sourceIdsMap reuse_cmd_after = None ∧
  (∃ calls, journal reuse_after = journal plain_world ++ calls ∧
            Forall (λ ev, ∀ s h, ev ≠ Duplicate s h) calls) ∧
  (fresh_copies reuse_cmd_after →
   ∀ n cpy, n ∈ copied plain_world reuse_cmd → isFolder n = false →
     nodeIdsMap reuse_cmd_after !! id n = Some cpy →
     ∃ s1 d, scenes reuse_after !! destSceneId reuse_cmd = Some s1 ∧
             sc_nodes s1 !! cpy = Some d ∧ nd_sourceId d = node_sourceId n).
Proof.
  apply (X9_execute_reuses_sources plain_world reuse_cmd reuse_after reuse_cmd_after
           reuse_copies).
  - reflexivity.
  - reflexivity.
  - vm_compute; reflexivity.
Defined.

(** X10.  The first [execute] of a command as the constructor builds it,
    with ids that are new to the destination scene and to the selection,
    and with no key of a table access naming an inherited member:
    the node id table gets exactly the ids of the copied nodes as keys, its
    values are pairwise distinct ids of returned nodes that named no node of
    the destination before, and the has-node-map flag afterwards is set
    when the originating scene had a node map at construction or
    dual-output mode is active. *)
Theorem X10_first_execute w sel dest dup disp w1 c1 ins s0 :
  execute w (new w sel dest dup disp) = Ok (w1, c1, ins) →
  own_keys w (new w sel dest dup disp) →
  scenes w !! dest = Some s0 →
  (∀ i j, uuid w i = uuid w j → i = j) →
  (∀ j, uuid_seed w ≤ j →
        uuid w j ≠ ""%string ∧ sc_nodes s0 !! uuid w j = None ∧
        (uuid w j ∉ sc_order s0) ∧ (uuid w j ∉ sel_ids sel)) →
  dom (nodeIdsMap c1) = list_to_set (id <$> copied w (new w sel dest dup disp)) ∧
  fresh_copies c1 ∧
  (∀ k v, nodeIdsMap c1 !! k = Some v → v ∈ ins ∧ sc_nodes s0 !! v = None) ∧
  hasNodeMap c1 = DualOutput.hasNodeMap w (sceneId sel) || dualOutputMode w.
Proof.
  intros Hrun _ Hs0 Hinj Hnew.
  set (c := new w sel dest dup disp) in *.
  destruct (first_execute_fresh _ _ _ _ _ s0 Hrun eq_refl Hs0 Hinj Hnew)
    as (Hfresh & _ & Hvals).
  destruct (execute_journal _ _ _ _ _ Hrun) as (_ & _ & _ & _ & _ & Hall & Hflag).
  split_and!; [|done| |].
  - apply set_eq. intros k. rewrite elem_of_dom, elem_of_list_to_set. split.
    + intros Hk.
      destruct (execute_stages _ _ _ _ _ Hrun)
        as (s0' & wd & cd & wc & cc & wr & origin & wm & mapped
            & Hs0' & Hdup & Hcreate & Hc1 & _).
      destruct (duplicate_stage _ _ _ _ Hdup)
        as ((Hdsc & Hdnm & _ & Hdact & _) & (Hsel & Hdest & Hdd & Hdisp & Htbl & Hhas)).
      assert (Hmig : migrating w cd = migrating w c) by (unfold migrating; by rewrite Hhas).
      rewrite Hmig in *.
      assert (Hsd : scenes wd !! destSceneId cd = Some s0') by by rewrite Hdsc, Hdest.
      assert (HL : Selection.getNodes wd (selection cd)
                     (if migrating w c then None else Some (dualOutputMode w)) = copied w c).
      { unfold copied. rewrite Hsel. apply getNodes_ext; by rewrite ?Hdsc, ?Hdnm. }
      rewrite HL in Hcreate.
      assert (Hk' : is_Some (nodeIdsMap cc !! k)).
      { rewrite Hc1 in Hk. by destruct (migrating w c). }
      destruct (create_pass_keys _ _ _ _ _ _ _ _ _ Hcreate Hsd k Hk') as [Hold|Hin]; [|done].
      rewrite Htbl in Hold. simpl in Hold. rewrite lookup_empty in Hold. by destruct Hold.
    + intros (n & -> & Hn)%list_elem_of_fmap.
      destruct (Forall2_elem_of_l _ _ _ _ Hall Hn) as (cpy & _ & Hk). by eexists.
  - intros k v Hk. by destruct (Hvals k v Hk) as (? & ? & _).
  - rewrite Hflag. unfold migrating. simpl.
    by destruct (DualOutput.hasNodeMap w (sceneId sel)), (dualOutputMode w).
Qed.

Lemma X10_first_execute_witness :
  dom (nodeIdsMap fresh_cmd_after) = list_to_set (id <$> copied fresh_world fresh_cmd) ∧
  fresh_copies fresh_cmd_after ∧
  (∀ k v, nodeIdsMap fresh_cmd_after !! k = Some v →
          v ∈ fresh_copies_ids ∧ sc_nodes ex_dest !! v = None) ∧
  hasNodeMap fresh_cmd_after
  = DualOutput.hasNodeMap fresh_world "S" || dualOutputMode fresh_world.
Proof.
  apply (X10_first_execute fresh_world (mkSelection "S" ["f"; "a"; "b"]%string) "D" true None
           fresh_after fresh_cmd_after fresh_copies_ids ex_dest).
  - vm_compute; reflexivity.
  - exact own_keys_fresh.
  - vm_compute; reflexivity.
  - exact gen_inj.
  - intros j _. destruct (gen_fresh j) as (? & ? & ? & ? & _). by split_and!.
Defined.

(** X11.  With nothing selected, a command with an empty table and the
    has-node-map flag unset changes nothing in single-output mode:
    [execute] returns no node and leaves the services as they are; only
    the source table becomes the empty table when sources are to be
    duplicated.  No id of the originating scene names an inherited
    member. *)
Theorem X11_execute_nothing_selected w c s0 origin :
  own_keys w c →
  scenes w !! destSceneId c = Some s0 →
  scenes w !! sceneId (selection c) = Some origin →
  Selection.getNodes w (selection c) None = [] →
  nodeIdsMap c = ∅ →
  hasNodeMap c = false →
  dualOutputMode w = false →
  execute w c = Ok (w, if duplicateSources c then set_sourceIdsMap ∅ c else c, []).
Proof.
  intros _ Hs0 Horigin Hsel Htbl Hhas Hmode.
  assert (Hsel' : Selection.getNodes w (selection c) (Some false) = []).
  { unfold Selection.getNodes in *. rewrite Horigin in *. by rewrite Hsel. }
  assert (Hsrcs : Selection.getSources w (selection c) = []).
  { unfold Selection.getSources. by rewrite Hsel. }
  assert (Hcompact : ∀ l : list string,
            compact ((λ o, (∅ : gmap string string) !! o) <$> l) = []).
  { induction l as [|o l IH]; [done|]. rewrite fmap_cons. unfold compact in *.
    cbn [omap list_omap]. rewrite lookup_empty. exact IH. }
  unfold execute. rewrite Hs0, Hmode, Hsrcs.
  destruct (duplicateSources c); simpl.
  - rewrite Hsel'. simpl. rewrite Hsel. simpl. unfold Selection.getScene.
    rewrite Horigin. simpl. rewrite Hhas. unfold mret, result_ret.
    rewrite Htbl, Hcompact. rewrite app_nil_l. unfold Scene.getNodesIds.
    by rewrite (setNodesOrder_same _ _ _ Hs0).
  - rewrite Hsel'. simpl. rewrite Hsel. simpl. unfold Selection.getScene.
    rewrite Horigin. simpl. rewrite Hhas. unfold mret, result_ret.
    rewrite Htbl, Hcompact. rewrite app_nil_l. unfold Scene.getNodesIds.
    by rewrite (setNodesOrder_same _ _ _ Hs0).
Qed.

Lemma X11_execute_nothing_selected_witness :
  execute plain_world empty_cmd = Ok (plain_world, empty_cmd, []).
Proof.
  apply (X11_execute_nothing_selected plain_world empty_cmd ex_dest plain_scene).
  - exact own_keys_empty.
  - vm_compute; reflexivity.
  - vm_compute; reflexivity.
  - vm_compute; reflexivity.
  - reflexivity.
  - vm_compute; reflexivity.
  - reflexivity.
Defined.

(** X12.  [rollback] is idempotent: rolling back the state that a
    [rollback] has produced returns that state unchanged. *)
Theorem X12_rollback_idempotent w c w2 :
  rollback w c = Ok w2 → rollback w2 c = Ok w2.
Proof.
  intros Hrb. unfold rollback in Hrb.
  destruct (scenes w !! destSceneId c) as [s|] eqn:Hs; [|done].
  destruct (remove_pass_spec c (map_to_list (nodeIdsMap c)).*2 w s Hs)
    as (s' & Hsc & Hnodes & _ & Hnm & _).
  set (wr := foldl (remove_node c) w (map_to_list (nodeIdsMap c)).*2) in *.
  assert (Hsr : scenes wr !! destSceneId c = Some s') by by rewrite Hsc, lookup_insert_eq.
  assert (Hgone : Forall (λ i, sc_nodes s' !! i = None) (map_to_list (nodeIdsMap c)).*2).
  { apply Forall_forall. intros i Hi. by rewrite Hnodes, decide_True. }
  destruct (DualOutput.hasNodeMap wr (destSceneId c)) eqn:Hh; injection Hrb as <-.
  - unfold rollback. simpl. rewrite Hsr.
    rewrite (remove_pass_absent c _ (SceneCollections.removeNodeMap wr (destSceneId c)) s');
      [|done|done].
    unfold DualOutput.hasNodeMap, DualOutput.nodeMap. simpl.
    rewrite lookup_delete_eq. simpl. by rewrite bool_decide_false by (intros H; by apply H).
  - unfold rollback. rewrite Hsr, (remove_pass_absent c _ wr s') by done. by rewrite Hh.
Qed.

Lemma X12_rollback_idempotent_witness :
  rollback mapped_dest_undone paste_cmd_after = Ok mapped_dest_undone.
Proof.
  apply (X12_rollback_idempotent mapped_dest_after paste_cmd_after mapped_dest_undone).
  vm_compute; reflexivity.
Defined.

(** X13.  [rollback] changes no scene other than the destination, and the
    order of the destination afterwards is its former order without the ids
    that the table records and that named nodes: the remaining nodes keep
    their relative order. *)
Theorem X13_rollback_frame w c w2 s :
  rollback w c = Ok w2 →
  scenes w !! destSceneId c = Some s →
  (∀ sc, sc ≠ destSceneId c → scenes w2 !! sc = scenes w !! sc) ∧
  ∃ s', scenes w2 !! destSceneId c = Some s' ∧
    sc_order s' = filter (λ j, ¬ (j ∈ values (nodeIdsMap c) ∧ is_Some (sc_nodes s !! j)))
                         (sc_order s) ∧
    sublist (sc_order s') (sc_order s).
Proof.
  intros Hrb Hs.
  destruct (rollback_spec _ c _ Hs) as (w' & s' & Hrb' & Hsc & _ & Hord & _).
  rewrite Hrb in Hrb'. injection Hrb' as <-. split.
  - intros sc Hne. by rewrite Hsc, lookup_insert_ne.
  - exists s'. split_and!; [by rewrite Hsc, lookup_insert_eq|done|].
    rewrite Hord. apply sublist_filter.
Qed.

Lemma X13_rollback_frame_witness :
  (∀ sc, sc ≠ destSceneId plain_cmd_after →
         scenes plain_undone !! sc = scenes plain_after !! sc) ∧
  ∃ s', scenes plain_undone !! destSceneId plain_cmd_after = Some s' ∧
    sc_order s'
    = filter (λ j, ¬ (j ∈ values (nodeIdsMap plain_cmd_after)
                      ∧ is_Some (sc_nodes plain_dest_after
                                   !! j)))
             (sc_order plain_dest_after) ∧
    sublist (sc_order s') (sc_order plain_dest_after).
Proof.
  apply (X13_rollback_frame plain_after plain_cmd_after plain_undone
           plain_dest_after).
  - vm_compute; reflexivity.
  - vm_compute; reflexivity.
Defined.

(** X14.  When the selection is pasted into another scene, the requests
    that [execute] makes are, in this order: the duplications of the
    sources, the entries of the migration pass, and, when the has-node-map
    flag is set, one node-map entry for each node of the originating scene
    that is horizontal there, in scene order, whether or not the node was
    copied: the entry links the table's value for the node to the table's
    value for its vertical partner.  No key of a table access names an
    inherited member. *)
Theorem X14_execute_walk_requests w c w1 c1 ins origin :
  execute w c = Ok (w1, c1, ins) →
  own_keys w c →
  sceneId (selection c) ≠ destSceneId c →
  scenes w !! sceneId (selection c) = Some origin →
  journal w1
  = journal w ++ dup_calls w c ++ create_calls w c ins
    ++ (if hasNodeMap c1 then flat_map (visit_calls c1 w) (Scene.getNodesIds origin) else []).
Proof.
  intros Hrun _ Hne Horigin0.
  destruct (execute_stages _ _ _ _ _ Hrun)
    as (s0 & wd & cd & wc & cc & wr & origin' & wm & mapped
        & Hs0 & Hdup & Hcreate & Hc1 & Hrelink & Horigin & Hwalk & ->).
  destruct (duplicate_stage _ _ _ _ Hdup)
    as ((Hdsc & Hdnm & Hdmode & Hdact & _) & (Hsel & Hdest & Hdd & Hdisp & Htbl & Hhas)).
  assert (Hdj : journal wd = journal w ++ dup_calls w c).
  { unfold dup_calls. destruct (duplicateSources c); [|simplify_eq; by rewrite app_nil_r].
    symmetry in Hdup.
    destruct (duplicate_pass_spec _ _ _ _ _ ∅ Hdup eq_refl (getSources_NoDup _ _))
      as (_ & _ & Hj' & _). rewrite Hj'. f_equal. }
  assert (Hmig : migrating w cd = migrating w c) by (unfold migrating; by rewrite Hhas).
  rewrite Hmig in *.
  assert (Hsd : scenes wd !! destSceneId cd = Some s0) by by rewrite Hdsc, Hdest.
  assert (HL : Selection.getNodes wd (selection cd)
                 (if migrating w c then None else Some (dualOutputMode w)) = copied w c).
  { unfold copied. rewrite Hsel. apply getNodes_ext; by rewrite ?Hdsc, ?Hdnm. }
  rewrite HL in Hcreate.
  destruct (create_pass_spec _ _ _ _ _ _ _ _ _ Hcreate Hsd)
    as (sc & cs & Hins & (Hsel' & Hdest' & _) & _ & _ & _ & _ & Hscc & _ & _ & _ & Hoth & Hmaps).
  simpl in Hins. subst cs.
  assert (Hcj : journal wc = journal wd ++ create_calls w c ins).
  { unfold create_calls. rewrite Hdisp in Hmaps.
    destruct (migrating w c && bool_decide (display c = Some vertical)).
    - destruct Hmaps as [_ Hj]. rewrite Hj. unfold entries_of. by rewrite Hdest.
    - destruct Hmaps as [_ Hj]. by rewrite app_nil_r. }
  assert (Hp1 : selection c1 = selection c ∧ destSceneId c1 = destSceneId c).
  { subst c1. destruct (migrating w c); simpl; split; congruence. }
  destruct Hp1 as (Hsel1 & Hdest1).
  assert (Hsc2 : scenes wc !! destSceneId c1 = Some sc).
  { rewrite Hscc, Hdest1, Hdest. by rewrite lookup_insert_eq. }
  destruct (relink_pass_spec _ _ _ _ _ Hrelink Hsc2)
    as (sr & Hscr & _ & _ & _ & Hrnm & Hrj & _).
  assert (Hor : origin' = origin).
  { rewrite Hscr, Hscc, Hdest1, Hdest, Hdsc, insert_insert_eq, Hsel1 in Horigin.
    rewrite lookup_insert_ne in Horigin by done. congruence. }
  subst origin'. simpl.
  destruct (hasNodeMap c1) eqn:Hh.
  - symmetry in Hwalk.
    assert (Hne1 : sceneId (selection c1) ≠ destSceneId c1) by by rewrite Hsel1, Hdest1.
    rewrite (reorder_map_calls _ _ _ _ _ Hwalk Hne1), Hrj, Hcj, Hdj.
    rewrite <- !app_assoc. do 3 f_equal.
    assert (Hsame : DualOutput.nodeMap wr (sceneId (selection c1))
                    = DualOutput.nodeMap w (sceneId (selection c1))).
    { unfold DualOutput.nodeMap. rewrite Hrnm, Hoth, Hdnm; [done|]. by rewrite Hsel1, Hdest. }
    unfold Scene.getNodesIds. clear -Hsame.
    induction (sc_order origin) as [|o l IH]; [done|]. simpl.
    by rewrite IH, (visit_calls_ext _ _ _ _ Hsame).
  - injection Hwalk as -> _. rewrite Hrj, Hcj, Hdj. by rewrite <- !app_assoc, app_nil_r.
Qed.

Lemma X14_execute_walk_requests_witness :
  journal dual_after
  = journal dual_world ++ dup_calls dual_world pair_cmd
    ++ create_calls dual_world pair_cmd pair_copies
    ++ (if hasNodeMap pair_cmd_after
        then flat_map (visit_calls pair_cmd_after dual_world) (Scene.getNodesIds dual_scene)
        else []).
Proof.
  apply (X14_execute_walk_requests dual_world pair_cmd dual_after pair_cmd_after pair_copies
           dual_scene).
  - vm_compute; reflexivity.
  - exact own_keys_pair.
  - vm_compute. discriminate.
  - vm_compute; reflexivity.
Defined.

(** X15.  Redo reproduces the first execution in single-output mode: for
    a command with an empty table that does not duplicate sources, with no
    node map on the destination and the has-node-map flag unset, [execute],
    [rollback] and [execute] again leave the scenes, the returned ids and the
    command as the first [execute] left them.  The ids of the copies are
    taken to be pairwise distinct and new to the destination scene and to
    the selection, and no key of a table access to name an inherited
    member. *)
Theorem X15_redo_same_scenes w c w1 c1 ins w2 w3 c3 ins3 s0 :
  execute w c = Ok (w1, c1, ins) →
  own_keys w c →
  rollback w1 c1 = Ok w2 →
  execute w2 c1 = Ok (w3, c3, ins3) →
  scenes w !! destSceneId c = Some s0 →
  dualOutputMode w = false →
  hasNodeMap c = false →
  DualOutput.hasNodeMap w (destSceneId c) = false →
  duplicateSources c = false →
  sourceIdsMap c = None →
  nodeIdsMap c = ∅ →
  fresh_copies c1 →
  map_Forall (λ _ i, sc_nodes s0 !! i = None ∧ i ∉ sc_order s0) (nodeIdsMap c1) →
  scenes w3 = scenes w1 ∧ ins3 = ins ∧ c3 = c1.
Proof.
  intros H1 _ H2 H3 Hs0 Hmode Hhas Hdnm Hdd Hsm Htbl Hfresh Hnew.
  (* the first execution *)
  destruct (execute_scene _ _ _ _ _ H1)
    as (s0' & s1 & walk1 & Hs0' & Hsc1 & Hw1a & Hw1b & Hord1 & Hfr1 & Hin1 & _ & Hnew1
        & Hsel1 & Hdest1 & Hdd1 & Hdisp1).
  rewrite Hs0 in Hs0'. injection Hs0' as <-.
  destruct (execute_node_maps_kept _ _ _ _ _ H1 Hmode Hhas) as (Hh1 & Hnm1).
  destruct (execute_env _ _ _ _ _ H1) as (Hm1 & Ha1 & Hc1 & _).
  destruct (execute_sources_kept _ _ _ _ _ H1) as (wd & cd & Hdup & Hsrc1 & Hsm1).
  rewrite Hdd in Hdup. injection Hdup as -> ->. rewrite Hsm in Hsm1.
  destruct (execute_journal _ _ _ _ _ H1) as (_ & _ & _ & _ & _ & Hall1 & _).
  assert (Hvals : ∀ k v, nodeIdsMap c1 !! k = Some v → v ∈ ins).
  { intros k v Hk. destruct (Hnew1 _ _ Hk) as [Hold|?]; [|done].
    by rewrite Htbl, lookup_empty in Hold. }
  (* the rollback *)
  assert (Hsc2 : scenes w2 = scenes w).
  { apply (rollback_restores_scenes _ _ _ _ _ _ _ H1 Hs0); [|done].
    intros k v Hk. destruct (Hnew k v Hk). split_and!; try done. by apply (Hvals k). }
  assert (Hs1 : scenes w1 !! destSceneId c1 = Some s1).
  { by rewrite Hsc1, Hdest1, lookup_insert_eq. }
  destruct (rollback_spec _ _ _ Hs1) as (w2' & s2 & Hrb & _ & _ & _ & Hnm2 & _).
  rewrite H2 in Hrb. injection Hrb as <-.
  assert (Hdnm1 : DualOutput.hasNodeMap w1 (destSceneId c1) = false).
  { unfold DualOutput.hasNodeMap, DualOutput.nodeMap in *. by rewrite Hnm1, Hdest1. }
  rewrite Hdnm1, Hnm1 in Hnm2.
  destruct (rollback_env _ _ _ H2) as (Hm2 & Ha2 & Hc2 & Hsub2).
  (* the second execution *)
  assert (Hmode2 : dualOutputMode w2 = false) by congruence.
  assert (Hmig : migrating w c = false) by (unfold migrating; by rewrite Hmode).
  assert (Hmig2 : migrating w2 c1 = false) by (unfold migrating; by rewrite Hmode2).
  assert (Hcop : copied w2 c1 = copied w c).
  { unfold copied. rewrite Hmig, Hmig2, Hmode2, Hmode, Hsel1.
    apply getNodes_ext; [by rewrite Hsc2|by rewrite Hnm2|congruence]. }
  destruct (execute_scene _ _ _ _ _ H3)
    as (s0'' & s3 & walk3 & Hs0'' & Hsc3 & Hw3a & Hw3b & Hord3 & Hfr3 & Hin3 & Hmono3 & _
        & Hsel3 & Hdest3 & Hdd3 & Hdisp3).
  rewrite Hsc2, Hdest1, Hs0 in Hs0''. injection Hs0'' as <-.
  destruct (execute_node_maps_kept _ _ _ _ _ H3 Hmode2 Hh1) as (Hh3 & _).
  destruct (execute_sources_kept _ _ _ _ _ H3) as (wd & cd & Hdup & _ & Hsm3).
  rewrite Hdd1, Hdd in Hdup. injection Hdup as -> ->. rewrite Hsm1 in Hsm3.
  destruct (execute_journal _ _ _ _ _ H3) as (_ & _ & _ & _ & _ & Hall3 & _).
  rewrite Hcop in Hall3.
  assert (Htab : nodeIdsMap c3 = nodeIdsMap c1).
  { apply map_eq. intros k. destruct (nodeIdsMap c1 !! k) as [v|] eqn:Hk; [by apply Hmono3|].
    apply eq_None_not_Some. intros Hk3.
    destruct (execute_keys _ _ _ _ _ k H3 Hk3) as [[v Hv]|Hin]; [congruence|].
    rewrite Hcop in Hin. apply list_elem_of_fmap in Hin as (n & -> & Hn).
    destruct (Forall2_elem_of_l _ _ _ _ Hall1 Hn) as (cpy & _ & Hcpy). simpl in Hcpy.
    congruence. }
  rewrite Htab in Hall3.
  assert (Hins : ins3 = ins).
  { eapply Forall2_unique; [exact Hall3|exact Hall1|]. simpl. congruence. }
  subst ins3.
  assert (Hcmd : c3 = c1).
  { destruct c3, c1. simpl in *. by subst. }
  split_and!; [|done|done].
  rewrite Hsc3, Hsc1, Hsc2, Hdest1. f_equal.
  destruct s1 as [N1 O1], s3 as [N3 O3]. simpl in *. f_equal.
  - apply map_eq. intros i.
    destruct (decide (i ∈ values (nodeIdsMap c1))) as [Hi|Hi].
    + apply elem_of_values in Hi as (k & Hk).
      destruct (execute_keys _ _ _ _ _ k H1 (mk_is_Some _ _ Hk)) as [[v Hv]|Hin].
      { by rewrite Htbl, lookup_empty in Hv. }
      apply list_elem_of_fmap in Hin as (n & -> & Hn).
      destruct (execute_node_data _ _ _ _ _ _ _ H1 Hdd Hfresh Hn Hk)
        as (s1' & d1 & Hs1' & Hd1 & Hn1).
      rewrite Hsc1, lookup_insert_eq in Hs1'. injection Hs1' as <-.
      assert (Hn' : n ∈ copied w2 c1) by by rewrite Hcop.
      assert (Hk3 : nodeIdsMap c3 !! id n = Some i) by by rewrite Htab.
      assert (Hfresh3 : fresh_copies c3) by by rewrite Hcmd.
      destruct (execute_node_data _ _ _ _ _ _ _ H3 (eq_trans Hdd1 Hdd) Hfresh3 Hn' Hk3)
        as (s3' & d3 & Hs3' & Hd3 & Hn3).
      rewrite Hdest1, Hsc3, Hdest1, lookup_insert_eq in Hs3'. injection Hs3' as <-.
      rewrite Hmig in Hd1. rewrite Hmig2 in Hd3.
      apply (created_data_sub _ w w2 c c1) in Hd3; try done; try congruence.
      2:{ intros k' x Hx. rewrite <- Hsrc1. by apply Hsub2. }
      rewrite Hd1 in Hd3. injection Hd3 as <-.
      simpl in *. rewrite Hn1, Hn3. do 2 f_equal.
      unfold mapped_parent. rewrite Htab. simpl.
      destruct (truthy _); [|done].
      destruct (nodeIdsMap c1 !! Js.key (parentId n)) as [p|] eqn:Hp; [|done]. simpl.
      destruct (Hin1 p (Hvals _ _ Hp)) as [[x1 ->] _].
      destruct (Hin3 p (Hvals _ _ Hp)) as [[x3 ->] _]. done.
    + rewrite Hfr1, Hfr3; [done| |].
      * intros k Hk. apply Hi, elem_of_values. exists k. by rewrite <- Htab.
      * intros k Hk. apply Hi, elem_of_values. by exists k.
  - rewrite Hord3, Hord1, Htab. do 3 f_equal.
    destruct (decide (sceneId (selection c) = destSceneId c)) as [Heq|Hne].
    + rewrite (Hw1b Heq), Hw3b; [done|]. by rewrite Hsel1, Hdest1.
    + destruct (Hw1a Hne) as (o1 & Ho1 & ->).
      destruct Hw3a as (o3 & Ho3 & ->); [by rewrite Hsel1, Hdest1|].
      rewrite Hsc2, Hsel1 in Ho3. congruence.
Qed.

Lemma X15_redo_same_scenes_witness :
  scenes reuse_redone = scenes reuse_after ∧ reuse_recopies = reuse_copies ∧
  reuse_cmd_redone = reuse_cmd_after.
Proof.
  apply (X15_redo_same_scenes plain_world reuse_cmd reuse_after reuse_cmd_after reuse_copies
           reuse_undone reuse_redone reuse_cmd_redone reuse_recopies ex_dest).
  - vm_compute; reflexivity.
  - exact own_keys_reuse.
  - vm_compute; reflexivity.
  - vm_compute; reflexivity.
  - vm_compute; reflexivity.
  - reflexivity.
  - vm_compute; reflexivity.
  - vm_compute; reflexivity.
  - reflexivity.
  - reflexivity.
  - reflexivity.
  - split; apply (bool_decide_unpack _); vm_compute; exact I.
  - apply (bool_decide_unpack _); vm_compute; exact I.
Defined.

(** X16.  The requests of an in-place migration.  Dual-output mode is
    active, the has-node-map flag is unset, the forced display is
    [vertical], the selection belongs to the destination scene, which has no
    node map yet, and the command is executed for the first time, with ids
    that are new to the scene and to the selection.  Then [execute]
    requests, in this order: the duplications of the sources; one entry from
    each copied node to its copy, in the order of the selection; and one
    more entry for every node that the scene held before, in scene order,
    from the table's value for the node (its copy, or undefined for a node
    that was not copied) to undefined.  No key of a table access names an
    inherited member. *)
Theorem X16_migration_requests w c w1 c1 ins s0 :
  execute w c = Ok (w1, c1, ins) →
  own_keys w c →
  scenes w !! destSceneId c = Some s0 →
  dualOutputMode w = true →
  hasNodeMap c = false →
  display c = Some vertical →
  sceneId (selection c) = destSceneId c →
  DualOutput.nodeMap w (destSceneId c) = ∅ →
  nodeIdsMap c = ∅ →
  fresh_copies c1 →
  Forall (λ cpy, cpy ∉ sc_order s0) ins →
  nodeIdsMap c1 !! "undefined"%string = None →
  journal w1
  = journal w ++ dup_calls w c
    ++ entries_of c (zip (copied w c) ins)
    ++ ((λ o, CreateNodeMapEntry (destSceneId c) (nodeIdsMap c1 !! o) None)
          <$> Scene.getNodesIds s0).
Proof.
  intros Hrun _ Hs0 Hmode Hhas Hdisp0 Hsame Hvan Htbl0 Hfresh Hnew Hund.
  assert (Hmig0 : migrating w c = true) by (unfold migrating; by rewrite Hmode, Hhas).
  destruct (execute_stages _ _ _ _ _ Hrun)
    as (s0' & wd & cd & wc & cc & wr & origin & wm & mapped
        & Hs0' & Hdup & Hcreate & Hc1 & Hrelink & Horigin & Hwalk & ->).
  rewrite Hs0 in Hs0'. injection Hs0' as <-.
  destruct (duplicate_stage _ _ _ _ Hdup)
    as ((Hdsc & Hdnm & Hdmode & Hdact & _) & (Hsel & Hdest & Hdd & Hdisp & Htbl & Hhas')).
  assert (Hdj : journal wd = journal w ++ dup_calls w c).
  { unfold dup_calls. destruct (duplicateSources c); [|simplify_eq; by rewrite app_nil_r].
    symmetry in Hdup.
    destruct (duplicate_pass_spec _ _ _ _ _ ∅ Hdup eq_refl (getSources_NoDup _ _))
      as (_ & _ & Hj' & _). rewrite Hj'. f_equal. }
  assert (Hmig : migrating w cd = true) by (unfold migrating; by rewrite Hmode, Hhas', Hhas).
  rewrite Hmig in *.
  assert (Hsd : scenes wd !! destSceneId cd = Some s0) by by rewrite Hdsc, Hdest.
  assert (HL : Selection.getNodes wd (selection cd) None = copied w c).
  { unfold copied. rewrite Hmig0, Hsel. apply getNodes_ext; by rewrite ?Hdsc, ?Hdnm. }
  rewrite HL in Hcreate.
  destruct (create_pass_spec _ _ _ _ _ _ _ _ _ Hcreate Hsd)
    as (sc & cs & Hins & (Hsel' & Hdest' & _) & _ & _ & Hnew1 & Hall & Hscc & Hordc & _ & _
        & Hoth & Hmaps).
  simpl in Hins. subst cs. subst c1. simpl in *.
  rewrite Hdisp, Hdisp0, bool_decide_true in Hmaps by done. simpl in Hmaps.
  destruct Hmaps as [Hm Hcj].
  assert (Hsc2 : scenes wc !! destSceneId (set_hasNodeMap true cc) = Some sc).
  { simpl. rewrite Hscc, Hdest'. by rewrite lookup_insert_eq. }
  destruct (relink_pass_spec _ _ _ _ _ Hrelink Hsc2)
    as (sr & Hscr & Hordr & _ & _ & Hrnm & Hrj & _).
  simpl in *. symmetry in Hwalk.
  assert (Hor : sc_order origin = rev ins ++ sc_order s0).
  { rewrite Hscr, Hsel', Hsel, Hsame, Hdest', Hdest, lookup_insert_eq in Horigin.
    injection Horigin as <-. by rewrite Hordr, Hordc. }
  assert (Hvals : ∀ k cpy, nodeIdsMap cc !! k = Some cpy → cpy ∈ ins).
  { intros k cpy Hk. destruct (Hnew1 _ _ Hk) as [Hold|?]; [|done].
    by rewrite Htbl, Htbl0, lookup_empty in Hold. }
  assert (Hkeys : ∀ k, is_Some (nodeIdsMap cc !! k) → k ∈ sel_ids (selection c)).
  { intros k Hk.
    destruct (create_pass_keys _ _ _ _ _ _ _ _ _ Hcreate Hsd k Hk) as [[v Hv]|Hin].
    - by rewrite Htbl, Htbl0, lookup_empty in Hv.
    - apply list_elem_of_fmap in Hin as (n & -> & Hn).
      by apply getNodes_elem in Hn as (_ & _ & _ & ?). }
  assert (Hnokeys : ∀ k cpy, nodeIdsMap cc !! k = Some cpy → nodeIdsMap cc !! cpy = None).
  { intros k cpy Hk. apply eq_None_not_Some. intros Hc%Hkeys.
    destruct Hfresh as [_ Horig]. simpl in Horig. rewrite Hsel', Hsel in Horig.
    apply (proj1 (Forall_forall _ _) Horig _ Hc). apply elem_of_values. by exists k. }
  assert (Hinv : migrated (nodeIdsMap (set_hasNodeMap true cc)) ins
                   (DualOutput.nodeMap wr (destSceneId (set_hasNodeMap true cc)))).
  { simpl. unfold DualOutput.nodeMap at 1. rewrite Hrnm. fold (DualOutput.nodeMap wc (destSceneId cc)).
    rewrite Hdest', Hm.
    assert (Hm0 : DualOutput.nodeMap wd (destSceneId cd) = ∅).
    { unfold DualOutput.nodeMap in *. by rewrite Hdnm, Hdest. }
    rewrite Hm0.
    assert (Hchar : ∀ k v, register_all ∅ (zip (copied w c) ins) !! k = Some v →
              ∃ n cpy, n ∈ copied w c ∧ cpy ∈ ins ∧ nodeIdsMap cc !! id n = Some cpy ∧
                       k = Some (id n) ∧ v = Some cpy).
    { intros k v Hk. apply register_all_inv in Hk as [Hk|([n cpy] & Hp & -> & ->)].
      - by rewrite lookup_empty in Hk.
      - exists n, cpy. simpl.
        pose proof (elem_of_zip_l _ _ _ _ Hp) as Hn.
        pose proof (elem_of_zip_r _ _ _ _ Hp) as Hc.
        split_and!; try done.
        apply list_elem_of_lookup in Hp as [i Hi]. apply lookup_zip_Some in Hi as [Hi1 Hi2].
        by apply (Forall2_lookup_lr _ _ _ _ _ _ Hall Hi1 Hi2). }
    split_and!.
    - intros k o Hk. by destruct (Hchar _ _ Hk) as (n & cpy & _ & ? & _ & _ & [= ->]).
    - intros cpy Hc. destruct (Forall2_elem_of_r _ _ _ _ Hall Hc) as (n & Hn & Hk).
      exists (Some (id n)). apply (register_all_lookup _ _ _ _ _ Hall Hk). right.
      by apply list_elem_of_fmap_2.
    - intros o cpy Ho.
      destruct (create_pass_keys _ _ _ _ _ _ _ _ _ Hcreate Hsd o (mk_is_Some _ _ Ho))
        as [[v Hv]|Hin]; [by rewrite Htbl, Htbl0, lookup_empty in Hv|].
      apply list_elem_of_fmap in Hin as (n & -> & Hn).
      apply (register_all_lookup _ _ _ _ _ Hall Ho). right. by apply list_elem_of_fmap_2.
    - intros o Ho Hn. apply eq_None_not_Some. intros [v Hv].
      destruct (Hchar _ _ Hv) as (n & cpy & _ & _ & Hk & [= ->] & _). congruence.
    - intros cpy x Hc Hk.
      destruct (Hchar _ _ Hk) as (n & cpy' & _ & _ & Hk' & [= ->] & _).
      destruct (Forall2_elem_of_r _ _ _ _ Hall Hc) as (n' & _ & Hk'').
      rewrite (Hnokeys _ _ Hk'') in Hk'. done.
    - intros x Hk. by destruct (Hchar _ _ Hk) as (n & cpy & _ & _ & _ & ? & _). }
  rewrite Hor in Hwalk.
  rewrite (migration_walk _ ins _ _ _ _ Hwalk); try done.
  2:{ simpl. by rewrite Hsel', Hsel, Hdest', Hdest. }
  rewrite Hrj, Hcj, Hdj. rewrite <- !app_assoc. do 2 f_equal.
  f_equal.
  { unfold entries_of. by rewrite Hdest. }
  rewrite flat_map_app, migration_call_copies, migration_call_others.
  - simpl. by rewrite Hdest', Hdest.
  - apply Forall_forall. intros o Ho Hin.
    by apply (proj1 (Forall_forall _ _) Hnew _ Hin).
  - apply Forall_forall. intros o Ho.
    apply list_elem_of_In. apply list_elem_of_In in Ho. by apply in_rev.
Qed.

Lemma X16_migration_requests_witness :
  journal vanilla_after
  = journal vanilla_world ++ dup_calls vanilla_world migrate_cmd
    ++ entries_of migrate_cmd (zip (copied vanilla_world migrate_cmd) migrate_copies)
    ++ ((λ o, CreateNodeMapEntry (destSceneId migrate_cmd)
                (nodeIdsMap migrate_cmd_after !! o) None)
          <$> Scene.getNodesIds plain_scene).
Proof.
  apply (X16_migration_requests vanilla_world migrate_cmd vanilla_after migrate_cmd_after
           migrate_copies plain_scene).
  - vm_compute; reflexivity.
  - exact own_keys_migrate.
  - vm_compute; reflexivity.
  - reflexivity.
  - vm_compute; reflexivity.
  - reflexivity.
  - reflexivity.
  - vm_compute; reflexivity.
  - reflexivity.
  - split; apply (bool_decide_unpack _); vm_compute; exact I.
  - apply (bool_decide_unpack _); vm_compute; exact I.
  - vm_compute; reflexivity.
Defined.

(** X21.  The first [execute] of a command, followed by [rollback], leaves
    every scene as it was.  The table of the command is empty, as the
    constructor leaves it, the ids handed out are new to the destination
    scene and to the selection, and no key of a table access names an
    inherited member.  Then [rollback] returns; the ids that the table
    records are the nodes that [execute] has added to the destination
    scene, none of which the scene held before, [execute] has left the
    other nodes as they were, and after [rollback] the scenes are the ones
    from before [execute]. *)
Theorem X21_first_execute_undone w c w1 c1 ins s0 :
  execute w c = Ok (w1, c1, ins) →
  own_keys w c →
  nodeIdsMap c = ∅ →
  scenes w !! destSceneId c = Some s0 →
  (∀ i j, uuid w i = uuid w j → i = j) →
  (∀ j, uuid_seed w ≤ j →
        uuid w j ≠ ""%string ∧ sc_nodes s0 !! uuid w j = None ∧
        (uuid w j ∉ sc_order s0) ∧ (uuid w j ∉ sel_ids (selection c))) →
  ∃ w2 s1, rollback w1 c1 = Ok w2 ∧
    scenes w1 !! destSceneId c = Some s1 ∧
    scenes w2 = scenes w ∧
    (∀ i, i ∈ values (nodeIdsMap c1) →
          i ∈ ins ∧ is_Some (sc_nodes s1 !! i) ∧ sc_nodes s0 !! i = None) ∧
    (∀ i, i ∉ values (nodeIdsMap c1) → sc_nodes s1 !! i = sc_nodes s0 !! i).
Proof.
  intros Hrun _ Hempty Hs0 Hinj Hnew.
  destruct (first_execute_fresh _ _ _ _ _ s0 Hrun Hempty Hs0 Hinj Hnew) as (_ & _ & Hvals).
  destruct (execute_scene _ _ _ _ _ Hrun)
    as (s0' & s1 & walk & Hs0' & Hsc & _ & _ & _ & Hfr & Hin & _ & _ & _ & Hdest & _).
  simplify_eq.
  assert (Hs1 : scenes w1 !! destSceneId c1 = Some s1).
  { by rewrite Hsc, Hdest, lookup_insert_eq. }
  destruct (rollback_spec _ _ _ Hs1) as (w2 & s2 & Hrb & _).
  exists w2, s1. split_and!; try done.
  - by rewrite <- Hdest.
  - by apply (rollback_restores_scenes _ _ _ _ _ _ _ Hrun Hs0 Hvals).
  - intros i Hi. apply elem_of_values in Hi as (k & Hk).
    destruct (Hvals k i Hk) as (Hi & Hn & _). split_and!; try done. by apply Hin.
  - intros i Hi. apply Hfr. intros k Hk. apply Hi, elem_of_values. by exists k.
Qed.

Lemma X21_first_execute_undone_witness :
  ∃ w2 s1, rollback fresh_after fresh_cmd_after = Ok w2 ∧
    scenes fresh_after !! destSceneId fresh_cmd = Some s1 ∧
    scenes w2 = scenes fresh_world ∧
    (∀ i, i ∈ values (nodeIdsMap fresh_cmd_after) →
          i ∈ fresh_copies_ids ∧ is_Some (sc_nodes s1 !! i) ∧ sc_nodes ex_dest !! i = None) ∧
    (∀ i, i ∉ values (nodeIdsMap fresh_cmd_after) →
          sc_nodes s1 !! i = sc_nodes ex_dest !! i).
Proof.
  apply (X21_first_execute_undone fresh_world fresh_cmd fresh_after fresh_cmd_after
           fresh_copies_ids ex_dest).
  - vm_compute; reflexivity.
  - exact own_keys_fresh.
  - reflexivity.
  - vm_compute; reflexivity.
  - exact gen_inj.
  - intros j _. destruct (gen_fresh j) as (? & ? & ? & ? & _). by split_and!.
Defined.

(** X22.  The entries of a migration.  In dual-output mode, for a command
    whose has-node-map flag is unset and whose forced display is
    [vertical], [execute] copies every node of the selection; for each of
    them it registers exactly one node-map entry in the destination scene
    that links the original node id to the id of the copy, and that entry
    is in the destination's node map afterwards; the position of every
    copied item is (0, 0).  The copies are taken to have pairwise distinct
    ids, different from the ids of the selected nodes, the selection to
    list a node once, and no key of a table access to name an inherited
    member. *)
Theorem X22_migration_entries w c w1 c1 ins n :
  dualOutputMode w = true →
  hasNodeMap c = false →
  display c = Some vertical →
  execute w c = Ok (w1, c1, ins) →
  own_keys w c →
  fresh_copies c1 →
  NoDup (sel_ids (selection c)) →
  n ∈ Selection.getNodes w (selection c) None →
  ∃ cpy s1 d calls,
    nodeIdsMap c1 !! id n = Some cpy ∧ cpy ∈ ins ∧
    scenes w1 !! destSceneId c = Some s1 ∧ sc_nodes s1 !! cpy = Some d ∧
    nd_isFolder d = isFolder n ∧
    (isFolder n = false → st_position (nd_settings d) = (0, 0)%Z) ∧
    journal w1 = journal w ++ calls ∧
    calls_of (CreateNodeMapEntry (destSceneId c) (Some (id n)) (Some cpy)) calls = 1 ∧
    DualOutput.nodeMap w1 (destSceneId c) !! Some (id n) = Some (Some cpy).
Proof.
  intros Hdual Hhas Hvert Hrun _ Hfresh Hsel Hn.
  assert (Hmig : migrating w c = true) by (unfold migrating; by rewrite Hdual, Hhas).
  assert (HL : copied w c = Selection.getNodes w (selection c) None).
  { unfold copied. by rewrite Hmig. }
  destruct (execute_journal _ _ _ _ _ Hrun) as (walks & Hj & Hnm & Hwalks & _ & Hall & _).
  rewrite HL in Hall.
  destruct (Forall2_elem_of_l _ _ _ _ Hall Hn) as (cpy & Hin & Hcpy).
  destruct (execute_copy _ _ _ _ _ n cpy Hrun Hfresh) as (s1 & d & Hs1 & Hd & _ & Hf & _ & Hpos & _);
    [by rewrite HL|done|].
  assert (Hids : id n ∈ id <$> Selection.getNodes w (selection c) None)
    by by apply list_elem_of_fmap_2.
  assert (Hkey : Forall (λ ev, ∀ v, ev ≠ CreateNodeMapEntry (destSceneId c) (Some (id n)) v)
                        walks).
  { eapply Forall_impl; [exact Hwalks|]. intros ev (o & tw & ->) v Heq.
    injection Heq as Ho _.
    destruct (execute_params _ _ _ _ _ Hrun) as (Hsel1 & _).
    destruct Hfresh as [_ Horig]. rewrite Hsel1 in Horig.
    rewrite Forall_forall in Horig. apply (Horig (id n)).
    - by apply getNodes_elem in Hn as (_ & _ & _ & ?).
    - apply elem_of_values. by exists o. }
  assert (Hcc : create_calls w c ins
                = entries_of c (zip (Selection.getNodes w (selection c) None) ins)).
  { unfold create_calls. by rewrite Hmig, Hvert, bool_decide_true, HL. }
  exists cpy, s1, d, (dup_calls w c ++ create_calls w c ins ++ walks).
  split_and!; try done.
  - intros Hitem. by apply Hpos.
  - rewrite !calls_of_app, Hcc.
    rewrite (entries_count _ _ _ _ _ _ Hall (getNodes_ids_NoDup _ _ _ Hsel) Hcpy).
    rewrite decide_True by done.
    rewrite (calls_of_none _ (dup_calls w c)), (calls_of_none _ walks); [done| |].
    + eapply Forall_impl; [exact Hkey|]. intros ev Hev Heq. by apply (Hev (Some cpy)).
    + unfold dup_calls. destruct (duplicateSources c); [|constructor].
      apply Forall_fmap, Forall_forall. by intros.
  - rewrite Hnm, replay_app, (replay_lookup_ne _ _ _ _ Hkey), Hcc.
    rewrite replay_entries_of, decide_True by done.
    apply (register_all_lookup _ _ _ _ _ Hall Hcpy). by right.
Qed.

Lemma X22_migration_entries_witness :
  ∃ cpy s1 d calls,
    nodeIdsMap migrate_cmd_after !! "a"%string = Some cpy ∧ cpy ∈ migrate_copies ∧
    scenes vanilla_after !! destSceneId migrate_cmd = Some s1 ∧
    sc_nodes s1 !! cpy = Some d ∧
    nd_isFolder d = false ∧
    (false = false → st_position (nd_settings d) = (0, 0)%Z) ∧
    journal vanilla_after = journal vanilla_world ++ calls ∧
    calls_of (CreateNodeMapEntry (destSceneId migrate_cmd) (Some "a"%string) (Some cpy)) calls
    = 1 ∧
    DualOutput.nodeMap vanilla_after (destSceneId migrate_cmd) !! Some "a"%string
    = Some (Some cpy).
Proof.
  apply (X22_migration_entries vanilla_world migrate_cmd vanilla_after migrate_cmd_after
           migrate_copies (mkNode "a" (ex_item "cam" (Some "f"%string) (5, 7)%Z))).
  - reflexivity.
  - reflexivity.
  - reflexivity.
  - vm_compute; reflexivity.
  - exact own_keys_migrate.
  - split; apply (bool_decide_unpack _); vm_compute; exact I.
  - apply (bool_decide_unpack _); vm_compute; exact I.
  - apply (bool_decide_unpack _); vm_compute; exact I.
Defined.

(** X23.  The relinking of the copies.  For a copied node whose parent id
    is absent from the node id table, the relinking callback raises no
    error and changes nothing, and the copy is a root of the destination
    scene after [execute]; for a copied node whose parent was copied, the
    copy has the copy of the parent as its parent.  The copies are taken to
    have pairwise distinct, non-empty ids, different from the ids of the
    selected nodes, and no key of a table access to name an inherited
    member. *)
Theorem X23_relinking_of_copies w c w1 c1 ins n cpy :
  execute w c = Ok (w1, c1, ins) →
  own_keys w c →
  fresh_copies c1 →
  n ∈ copied w c →
  nodeIdsMap c1 !! id n = Some cpy →
  ∃ s1 d, scenes w1 !! destSceneId c = Some s1 ∧ sc_nodes s1 !! cpy = Some d ∧
    (nodeIdsMap c1 !! Js.key (parentId n) = None →
     nd_parentId d = None ∧ ∀ wx, relink_node c1 wx n = Ok wx) ∧
    (∀ pn p, pn ∈ copied w c → parentId n = Some (id pn) →
             nodeIdsMap c1 !! id pn = Some p → p ≠ ""%string →
             nd_parentId d = Some p).
Proof.
  intros Hrun _ Hfresh Hn Hcpy.
  destruct (execute_copy _ _ _ _ _ n cpy Hrun Hfresh Hn Hcpy)
    as (s1 & d & Hs1 & Hd & _ & _ & _ & _ & Hpar).
  exists s1, d. split_and!; try done.
  - intros Habs. split.
    + rewrite Hpar. unfold mapped_parent. by rewrite Habs.
    + intros wx. unfold relink_node. by rewrite Habs.
  - intros pn p Hpn Hpid Hp Hne.
    destruct (execute_copy _ _ _ _ _ pn p Hrun Hfresh Hpn Hp)
      as (s1' & dp & Hs1' & Hdp & _).
    rewrite Hs1 in Hs1'. injection Hs1' as <-.
    rewrite Hpar. unfold mapped_parent. rewrite Hpid. simpl.
    rewrite Hp, (truthy_Some _ Hne). simpl. by rewrite Hdp.
Qed.

Lemma X23_relinking_of_copies_witness :
  ∃ s1 d, scenes plain_after !! destSceneId plain_cmd = Some s1 ∧
    sc_nodes s1 !! "id-3"%string = Some d ∧
    (nodeIdsMap plain_cmd_after !! Js.key (Some "f"%string) = None →
     nd_parentId d = None ∧
     ∀ wx, relink_node plain_cmd_after wx
             (mkNode "a" (ex_item "cam" (Some "f"%string) (5, 7)%Z)) = Ok wx) ∧
    (∀ pn p, pn ∈ copied plain_world plain_cmd → Some "f"%string = Some (id pn) →
             nodeIdsMap plain_cmd_after !! id pn = Some p → p ≠ ""%string →
             nd_parentId d = Some p).
Proof.
  apply (X23_relinking_of_copies plain_world plain_cmd plain_after plain_cmd_after
           plain_copies (mkNode "a" (ex_item "cam" (Some "f"%string) (5, 7)%Z)) "id-3").
  - vm_compute; reflexivity.
  - exact own_keys_plain.
  - split; apply (bool_decide_unpack _); vm_compute; exact I.
  - apply (bool_decide_unpack _); vm_compute; exact I.
  - vm_compute; reflexivity.
Defined.

(** X24.  [execute] only extends the node id table, and it creates the
    copy of a node that the table already records under the recorded id: an
    [execute] after a [rollback] gives the copies the ids of the first
    execution.  Every entry of the table from before [execute] is in the
    table afterwards, every copied node whose id had an entry is created
    under the id of that entry, and the copies are nodes of the destination
    scene.  No key of a table access names an inherited member. *)
Theorem X24_execute_reuses_ids w c w1 c1 ins :
  execute w c = Ok (w1, c1, ins) →
  own_keys w c →
  (∀ k v, nodeIdsMap c !! k = Some v → nodeIdsMap c1 !! k = Some v) ∧
  Forall2 (λ n cpy, nodeIdsMap c1 !! id n = Some cpy ∧
                    ∀ old, nodeIdsMap c !! id n = Some old → cpy = old)
          (copied w c) ins ∧
  ∃ s1, scenes w1 !! destSceneId c = Some s1 ∧
        ∀ cpy, cpy ∈ ins → is_Some (sc_nodes s1 !! cpy).
Proof.
  intros Hrun _.
  destruct (execute_scene _ _ _ _ _ Hrun)
    as (s0 & s1 & _ & _ & Hsc & _ & _ & _ & _ & Hin & Hmono & _).
  destruct (execute_journal _ _ _ _ _ Hrun) as (_ & _ & _ & _ & _ & Hall & _).
  split_and!; [done| |].
  - eapply Forall2_impl; [exact Hall|]. intros n cpy Hn. split; [done|].
    intros old Hold. apply Hmono in Hold. congruence.
  - exists s1. split; [by rewrite Hsc, lookup_insert_eq|].
    intros cpy Hc. by apply Hin.
Qed.

Lemma X24_execute_reuses_ids_witness :
  (∀ k v, nodeIdsMap plain_cmd_after !! k = Some v →
          nodeIdsMap plain_cmd_redone !! k = Some v) ∧
  Forall2 (λ n cpy, nodeIdsMap plain_cmd_redone !! id n = Some cpy ∧
                    ∀ old, nodeIdsMap plain_cmd_after !! id n = Some old → cpy = old)
          (copied plain_undone plain_cmd_after) plain_recopies ∧
  ∃ s1, scenes plain_redone !! destSceneId plain_cmd_after = Some s1 ∧
        ∀ cpy, cpy ∈ plain_recopies → is_Some (sc_nodes s1 !! cpy).
Proof.
  apply (X24_execute_reuses_ids plain_undone plain_cmd_after plain_redone plain_cmd_redone
           plain_recopies).
  - vm_compute; reflexivity.
  - exact own_keys_redo.
Defined.

(** * Properties of the revisions module *)

Import VuexModule.

Lemma split_nonempty sep s : split sep s ≠ [].
Proof.
  destruct s as [|a s]; simpl; [done|].
  destruct (Ascii.eqb a sep); [done|]. by destruct (split sep s).
Qed.

Lemma serviceName_prefix s t :
  has_dot s = false → serviceName (s +:+ "." +:+ t) = s.
Proof.
  unfold serviceName. induction s as [|a s IH]; simpl; [done|].
  intros [Ha Hs]%orb_false_elim. rewrite Ha. specialize (IH Hs).
  destruct (split dot (s +:+ "." +:+ t)) as [|p ps] eqn:Hsp;
    [by apply split_nonempty in Hsp|].
  simpl in *. by rewrite IH.
Qed.

Lemma serviceName_whole s : has_dot s = false → serviceName s = s.
Proof.
  unfold serviceName. induction s as [|a s IH]; simpl; [done|].
  intros [Ha Hs]%orb_false_elim. rewrite Ha. specialize (IH Hs).
  destruct (split dot s) as [|p ps] eqn:Hsp; [by apply split_nonempty in Hsp|].
  simpl in *. by rewrite IH.
Qed.

Lemma serviceName_no_dot ty : has_dot (serviceName ty) = false.
Proof.
  unfold serviceName. induction ty as [|a s IH]; simpl; [done|].
  destruct (Ascii.eqb a dot) eqn:Ha; simpl; [done|].
  destruct (split dot s) as [|p ps] eqn:Hsp; [by apply split_nonempty in Hsp|].
  simpl in *. by rewrite Ha.
Qed.

Lemma incrementRevision_other revisions k k' :
  k' ≠ k → incrementRevision revisions k !! k' = revisions !! k'.
Proof.
  intros Hne. unfold incrementRevision, write.
  destruct (falsy _); case_decide; try done; by rewrite lookup_insert_ne.
Qed.

Lemma proto_inherited k : k ∉ inherited → k ≠ "__proto__"%string.
Proof. intros Hk ->. apply Hk. unfold inherited. set_solver. Qed.

Lemma incrementRevision_same revisions k :
  k ∉ inherited →
  incrementRevision revisions k !! k
  = Some (match revisions !! k with
          | Some (Num n) => if (n =? 0)%N then Num 1 else Num (succ n)
          | _ => Num 1
          end).
Proof.
  intros Hk. pose proof (proto_inherited _ Hk) as Hp.
  unfold incrementRevision, write, read.
  destruct (revisions !! k) as [[n|]|] eqn:Hr; simpl.
  - destruct (n =? 0)%N; rewrite decide_False by done; by rewrite lookup_insert_eq.
  - rewrite decide_False by done. by rewrite lookup_insert_eq.
  - rewrite bool_decide_false by done. simpl. rewrite decide_False by done.
    by rewrite lookup_insert_eq.
Qed.

Lemma mutations_of_snoc k types ty :
  mutations_of k (types ++ [ty])
  = mutations_of k types + (if decide (serviceName ty = k) then 1 else 0).
Proof.
  unfold mutations_of. rewrite filter_app, length_app. f_equal.
  rewrite filter_cons, filter_nil. by case_decide.
Qed.

Lemma mutations_of_app k l1 l2 :
  mutations_of k (l1 ++ l2) = mutations_of k l1 + mutations_of k l2.
Proof. unfold mutations_of. by rewrite filter_app, length_app. Qed.

Lemma revisions_count_from r0 n0 k types :
  k ∉ inherited →
  r0 !! k = (if n0 is 0 then None else Some (Num (N.min (N.of_nat n0) (2 ^ 53)))) →
  foldl subscriber r0 types !! k
  = (if n0 + mutations_of k types is 0 then None
     else Some (Num (N.min (N.of_nat (n0 + mutations_of k types)) (2 ^ 53)))).
Proof.
  intros Hk H0. induction types as [|ty types IH] using rev_ind.
  - simpl. unfold mutations_of. simpl. by rewrite Nat.add_0_r.
  - rewrite foldl_app, mutations_of_snoc. simpl. unfold subscriber at 1.
    case_decide as Hty.
    + rewrite Hty, (incrementRevision_same _ _ Hk), IH.
      replace (n0 + (mutations_of k types + 1)) with (S (n0 + mutations_of k types)) by lia.
      destruct (n0 + mutations_of k types) as [|c] eqn:Hc; [done|].
      f_equal.
      assert (Hpos : (N.min (N.of_nat (S c)) (2 ^ 53) =? 0)%N = false).
      { apply N.eqb_neq. lia. }
      rewrite Hpos. f_equal. unfold succ.
      destruct (N.ltb_spec (N.min (N.of_nat (S c)) (2 ^ 53)) (2 ^ 53)); lia.
    + rewrite incrementRevision_other by done. rewrite IH. by rewrite Nat.add_0_r.
Qed.

Lemma revisions_from_empty types k :
  k ∉ inherited →
  foldl subscriber ∅ types !! k
  = (if mutations_of k types is 0 then None
     else Some (Num (N.min (N.of_nat (mutations_of k types)) (2 ^ 53)))).
Proof.
  intros Hk. by apply (revisions_count_from ∅ 0 k types Hk).
Qed.

(** X17.  Starting from the empty record, the revision of a service is
    undefined until its first mutation and afterwards the number of its
    mutations handled so far, which stops growing at 2^53.  The name of
    the service is none of the member names that a record inherits. *)
Theorem X17_revisions_count types k :
  k ∉ inherited →
  foldl subscriber ∅ types !! k
  = (if mutations_of k types is 0 then None
     else Some (Num (N.min (N.of_nat (mutations_of k types)) (2 ^ 53)))).
Proof.
  intros Hk. by apply (revisions_count_from ∅ 0 k types Hk).
Qed.

Lemma X17_revisions_count_witness :
  foldl subscriber ∅ (ex_seen ++ ex_later) !! "ScenesService"%string = Some (Num 2).
Proof.
  apply (X17_revisions_count (ex_seen ++ ex_later) "ScenesService").
  apply (bool_decide_unpack _); vm_compute; exact I.
Defined.

(** X18.  Handling a mutation changes the revision of the service that
    the mutation belongs to, to a truthy number, and the revision of no
    other service; the revision of the service is below 2^53 before, and
    its name is none of the inherited member names. *)
Theorem X18_subscriber_changes_own_revision revisions ty :
  serviceName ty ∉ inherited →
  (∀ n, revisions !! serviceName ty = Some (Num n) → (n < 2 ^ 53)%N) →
  read (subscriber revisions ty) (serviceName ty) ≠ read revisions (serviceName ty) ∧
  falsy (read (subscriber revisions ty) (serviceName ty)) = false ∧
  ∀ k, k ≠ serviceName ty → subscriber revisions ty !! k = revisions !! k.
Proof.
  intros Hk Hlt. unfold subscriber. split_and!.
  - unfold read at 1. rewrite (incrementRevision_same _ _ Hk). unfold read.
    destruct (revisions !! serviceName ty) as [[n|]|] eqn:Hr.
    + specialize (Hlt n eq_refl). destruct (N.eqb_spec n 0) as [->|Hn]; [done|].
      unfold succ. destruct (N.ltb_spec n (2 ^ 53)); [|lia].
      intros [= Heq]. lia.
    + done.
    + by rewrite bool_decide_false.
  - unfold read. rewrite (incrementRevision_same _ _ Hk).
    destruct (revisions !! serviceName ty) as [[n|]|] eqn:Hr; simpl; try done.
    destruct (N.eqb_spec n 0) as [->|Hn]; [done|]. simpl.
    apply N.eqb_neq. unfold succ. destruct (n <? 2 ^ 53)%N; lia.
  - intros k Hne. by apply incrementRevision_other.
Qed.

Lemma X18_subscriber_changes_own_revision_witness :
  read (subscriber (foldl subscriber ∅ ex_seen) "ScenesService.REMOVE_SCENE")
       (serviceName "ScenesService.REMOVE_SCENE")
  ≠ read (foldl subscriber ∅ ex_seen) (serviceName "ScenesService.REMOVE_SCENE") ∧
  falsy (read (subscriber (foldl subscriber ∅ ex_seen) "ScenesService.REMOVE_SCENE")
              (serviceName "ScenesService.REMOVE_SCENE")) = false ∧
  ∀ k, k ≠ serviceName "ScenesService.REMOVE_SCENE" →
       subscriber (foldl subscriber ∅ ex_seen) "ScenesService.REMOVE_SCENE" !! k
       = foldl subscriber ∅ ex_seen !! k.
Proof.
  apply (X18_subscriber_changes_own_revision (foldl subscriber ∅ ex_seen)
           "ScenesService.REMOVE_SCENE").
  - apply (bool_decide_unpack _); vm_compute; exact I.
  - intros n Hn. vm_compute in Hn. injection Hn as <-. reflexivity.
Defined.

(** X19.  A revision that [onStateRead] records while accessors are
    recorded is the revision of the service at that moment, and the current
    revision differs from it exactly when a mutation of the service has been
    handled since, as long as the service has seen at most 2^53
    mutations. *)
Theorem X19_dependency_staleness seen later store k :
  recordingAccessors store = true →
  k ∉ inherited →
  (N.of_nat (mutations_of k (seen ++ later)) ≤ 2 ^ 53)%N →
  affectedModules (onStateRead (foldl subscriber ∅ seen) store k) !! k
  = Some (read (foldl subscriber ∅ seen) k) ∧
  (read (foldl subscriber (foldl subscriber ∅ seen) later) k
   = read (foldl subscriber ∅ seen) k
   ↔ mutations_of k later = 0).
Proof.
  intros Hrec Hk Hbound. split.
  - unfold onStateRead. rewrite Hrec. simpl. unfold write.
    rewrite decide_False by by apply proto_inherited. by rewrite lookup_insert_eq.
  - rewrite <- foldl_app. unfold read. rewrite !(revisions_from_empty _ _ Hk).
    rewrite mutations_of_app in *.
    destruct (mutations_of k later) as [|c1] eqn:Hc1.
    + rewrite Nat.add_0_r. done.
    + split; [|done]. intros Heq. exfalso.
      replace (mutations_of k seen + S c1) with (S (mutations_of k seen + c1)) in * by lia.
      destruct (mutations_of k seen) as [|c0] eqn:Hc0.
      * rewrite bool_decide_false in Heq by done. done.
      * injection Heq as Heq. lia.
Qed.

Lemma X19_dependency_staleness_witness :
  affectedModules (onStateRead (foldl subscriber ∅ ex_seen) ex_store "ScenesService")
    !! "ScenesService"%string
  = Some (read (foldl subscriber ∅ ex_seen) "ScenesService") ∧
  (read (foldl subscriber (foldl subscriber ∅ ex_seen) ex_later) "ScenesService"
   = read (foldl subscriber ∅ ex_seen) "ScenesService"
   ↔ mutations_of "ScenesService" ex_later = 0).
Proof.
  apply (X19_dependency_staleness ex_seen ex_later ex_store "ScenesService").
  - reflexivity.
  - apply (bool_decide_unpack _); vm_compute; exact I.
  - vm_compute. discriminate.
Defined.

(** X20.  The service of a mutation is the text of the mutation's type
    before its first dot, the whole type when it has no dot, and never
    contains a dot. *)
Theorem X20_serviceName_spec s t :
  has_dot s = false →
  serviceName (s +:+ "." +:+ t) = s ∧ serviceName s = s ∧
  has_dot (serviceName t) = false.
Proof.
  intros Hs. split_and!; [by apply serviceName_prefix|by apply serviceName_whole|
                          apply serviceName_no_dot].
Qed.

Lemma X20_serviceName_spec_witness :
  serviceName ("ScenesService" +:+ "." +:+ "ADD_SCENE") = "ScenesService"%string ∧
  serviceName "ScenesService" = "ScenesService"%string ∧
  has_dot (serviceName "ADD_SCENE") = false.
Proof.
  apply (X20_serviceName_spec "ScenesService" "ADD_SCENE"). reflexivity.
Defined.
